(** * Billing and invoicing core of the Transportation Management System

    A shallow embedding of
      - [src/types/billing.ts]      ([computeTotals], [deriveStatus]),
      - the invoice repository      ([load], [save], [uuid],
        [nextInvoiceNumber], [listInvoices], [getInvoice], [createInvoice],
        [addInvoiceItem], [recordPayment], [deleteInvoice]),
      - [src/utils/pdf.ts]          (the scale of the capture and the page
        loop of [exportElementToPDF]),
      - the pages                   (the sums of [InvoicePrintView], of
        [src/pages/Billing.tsx] and of [src/pages/InvoiceDetail.tsx], the
        form that creates an invoice, and [handleExportPdf]).

    JavaScript numbers are IEEE 754 binary64 values and are modelled by Rocq's
    primitive floats, whose operations are the same binary64 operations.
    What the browser supplies (the clock, [Date] parsing, [JSON], random
    identifiers) is collected in the class [Platform]; a general theorem
    holds for every platform, or for every platform with the properties it
    names.

    Conventions: values have the types which the TypeScript source declares;
    strings are ASCII text; the clock does not move while one operation
    runs; reading and writing [localStorage] succeed. *)

From Stdlib Require Import ZArith List String Ascii Bool Lia Floats DecimalString
  HexadecimalString DecimalPos.
Import ListNotations.

Local Open Scope string_scope.
Local Open Scope list_scope.

(* ================================================================== *)
(** ** JavaScript numbers *)

Module JS.

Definition number := float.
Bind Scope float_scope with number.

(** [Number(x)] on a value that already is a number. *)
Definition Number (x : number) : number := x.

(** [Number.isFinite] and [Number.isNaN]. *)
Definition Number_isFinite (x : number) : bool := is_finite x.
Definition Number_isNaN (x : number) : bool := is_nan x.

(** Truthiness of a number: [0], [-0] and [NaN] are falsy. *)
Definition truthy (x : number) : bool := negb (is_zero x || is_nan x).

(** [x || d] on numbers. *)
Definition or_else (x d : number) : number := if truthy x then x else d.

(** [x ?? d]: [None] stands for [null] and [undefined]. *)
Definition nullish {A : Type} (x : option A) (d : A) : A :=
  match x with Some a => a | None => d end.

(** One step of [Math.max]: [+0] is larger than [-0]. *)
Definition max_step (highest x : number) : number :=
  if (is_zero x && negb (get_sign x)) && (is_zero highest && get_sign highest)
  then x
  else if (highest <? x)%float then x else highest.

(** [Math.max(...args)]: [NaN] if any argument is, [-Infinity] on no
    argument, the largest argument otherwise. *)
Definition Math_max (args : list number) : number :=
  if existsb is_nan args then nan
  else fold_left max_step args neg_infinity.

(** Comparison operators on numbers. *)
Definition gt (x y : number) : bool := (y <? x)%float.
Definition ge (x y : number) : bool := (y <=? x)%float.
Definition lt (x y : number) : bool := (x <? y)%float.

End JS.
Import JS.

Notation "x '||' d" := (or_else x d) (at level 50, left associativity) : float_scope.
Notation "x '??' d" := (nullish x d) (at level 45, left associativity).

(* ================================================================== *)
(** ** Domain types ([src/types/billing.ts]) *)

Definition UUID := string.

Inductive InvoiceStatus := Unpaid | Paid | Overdue.

Definition PaymentMethod := string.

Record InvoiceItem := {
  item_id : UUID;
  item_invoice_id : UUID;
  item_description : string;
  item_amount : number
}.

Record Payment := {
  payment_id : UUID;
  payment_invoice_id : UUID;
  payment_amount : number;
  payment_date : string;
  payment_method : PaymentMethod
}.

(** [status] is read with [i.status ?? ...] by the repository, so a stored
    record may lack it; [items] and [payments] are optional by type. *)
Record Invoice := {
  id : UUID;
  booking_id : UUID;
  invoice_number : string;
  total_amount : number;
  due_date : string;
  status : option InvoiceStatus;
  items : option (list InvoiceItem);
  payments : option (list Payment)
}.

(** Assignments to the fields which the repository updates. *)
Definition set_total_amount (i : Invoice) (v : number) : Invoice :=
  {| id := id i; booking_id := booking_id i; invoice_number := invoice_number i;
     total_amount := v; due_date := due_date i; status := status i;
     items := items i; payments := payments i |}.

Definition set_status (i : Invoice) (v : InvoiceStatus) : Invoice :=
  {| id := id i; booking_id := booking_id i; invoice_number := invoice_number i;
     total_amount := total_amount i; due_date := due_date i; status := Some v;
     items := items i; payments := payments i |}.

Definition set_items (i : Invoice) (v : list InvoiceItem) : Invoice :=
  {| id := id i; booking_id := booking_id i; invoice_number := invoice_number i;
     total_amount := total_amount i; due_date := due_date i; status := status i;
     items := Some v; payments := payments i |}.

Definition set_payments (i : Invoice) (v : list Payment) : Invoice :=
  {| id := id i; booking_id := booking_id i; invoice_number := invoice_number i;
     total_amount := total_amount i; due_date := due_date i; status := status i;
     items := items i; payments := Some v |}.

Record Totals := {
  itemsTotal : number;
  total : number;
  paid : number;
  balance : number
}.

Definition InvoiceStatus_eqb (a b : InvoiceStatus) : bool :=
  match a, b with
  | Unpaid, Unpaid | Paid, Paid | Overdue, Overdue => true
  | _, _ => false
  end.

(* ================================================================== *)
(** ** Financial model *)

(** [list.reduce((s, x) => s + (Number(amount x) || 0), 0)]. *)
Definition sumAmounts {A : Type} (amount : A -> number) (l : list A) : number :=
  fold_left (fun s x => (s + (Number (amount x) || 0))%float) l 0%float.

Definition computeTotals (invoice : Invoice) : Totals :=
  let itemsTotal := sumAmounts item_amount (items invoice ?? []) in
  let paid := sumAmounts payment_amount (payments invoice ?? []) in
  let total :=
    if Number_isFinite (total_amount invoice) && gt (total_amount invoice) 0%float
    then total_amount invoice else itemsTotal in
  let balance := Math_max [0%float; (total - paid)%float] in
  {| itemsTotal := itemsTotal; total := total; paid := paid; balance := balance |}.

(* ================================================================== *)
(** ** Strings

    Strings are taken to be ASCII text, one character per code unit. *)

Module Str.

(** [s.startsWith(p)]. *)
Definition startsWith (s p : string) : bool := String.prefix p s.

(** [s.substring(n)]. *)
Fixpoint substring_from (n : nat) (s : string) : string :=
  match n, s with
  | O, _ => s
  | S n', String _ r => substring_from n' r
  | S _, EmptyString => EmptyString
  end.

Definition lower (c : ascii) : ascii :=
  let n := N_of_ascii c in
  if ((65 <=? n) && (n <=? 90))%N then ascii_of_N (n + 32) else c.

(** [s.toLowerCase()]. *)
Fixpoint toLowerCase (s : string) : string :=
  match s with
  | EmptyString => EmptyString
  | String c r => String (lower c) (toLowerCase r)
  end.

(** [s.includes(q)]. *)
Fixpoint includes (s q : string) : bool :=
  String.prefix q s ||
  match s with
  | EmptyString => false
  | String _ r => includes r q
  end.

(** [s.padStart(n, '0')]. *)
Fixpoint zeros (n : nat) : string :=
  match n with O => EmptyString | S n' => String "0" (zeros n') end.

Definition padStart0 (n : nat) (s : string) : string :=
  (zeros (n - String.length s) ++ s)%string.

(** Truthiness of a string: only the empty string is falsy. *)
Definition nonEmpty (s : string) : bool :=
  match s with EmptyString => false | _ => true end.

(** The decimal numeral of an integer, as [String(n)] writes it. *)
Definition decimal (z : Z) : string :=
  DecimalString.NilZero.string_of_int (Z.to_int z).

(** White space skipped by [parseInt]. *)
Definition isWhiteSpace (c : ascii) : bool :=
  let n := N_of_ascii c in
  ((9 <=? n) && (n <=? 13) || (n =? 32))%N.

Fixpoint trimStart (s : string) : string :=
  match s with
  | String c r => if isWhiteSpace c then trimStart r else s
  | EmptyString => s
  end.

Definition digitValue (c : ascii) : option Z :=
  let n := Z.of_N (N_of_ascii c) in
  if ((48 <=? n) && (n <=? 57))%Z then Some (n - 48)%Z else None.

(** The value of the longest prefix of decimal digits, continuing from
    [acc]; [seen] tells whether a digit was read. *)
Fixpoint digitsValue (s : string) (seen : bool) (acc : Z) : option Z :=
  match s with
  | String c r =>
      match digitValue c with
      | Some d => digitsValue r true (10 * acc + d)%Z
      | None => if seen then Some acc else None
      end
  | EmptyString => if seen then Some acc else None
  end.

(** The sign and the magnitude [parseInt(s, 10)] reads; [None] when it
    answers [NaN]. *)
Definition parseInt_parts (s : string) : option (bool * Z) :=
  let s := trimStart s in
  let '(neg, s) :=
    match s with
    | String "-" r => (true, r)
    | String "+" r => (false, r)
    | _ => (false, s)
    end in
  match digitsValue s false 0 with
  | Some v => Some (neg, v)
  | None => None
  end.

End Str.
Import Str.

(** The number nearest to an integer (round to nearest, ties to even;
    infinite beyond the range). *)
Definition number_of_Z (z : Z) : number :=
  SF2Prim (binary_normalize prec emax z 0 false).

(** [parseInt(s, 10)]. *)
Definition parseInt (s : string) : number :=
  match parseInt_parts s with
  | Some (neg, v) => if neg then (- number_of_Z v)%float else number_of_Z v
  | None => nan
  end.

(** The integer which an integer-valued finite number holds. *)
Definition integerValue (x : number) : option Z :=
  match Prim2SF x with
  | S754_zero _ => Some 0%Z
  | S754_finite s m e =>
      let mag :=
        if (0 <=? e)%Z then Some (Zpos m * 2 ^ e)%Z
        else if (Zpos m mod 2 ^ (- e) =? 0)%Z then Some (Zpos m / 2 ^ (- e))%Z
        else None in
      option_map (fun v => if s then (- v)%Z else v) mag
  | _ => None
  end.

(* ================================================================== *)
(** ** What the browser supplies *)

Record Store := { invoices : list Invoice }.

(** A time value is the number of milliseconds since the epoch, as
    [getTime()] gives it; [None] is the time value of an Invalid Date. *)
Definition TimeValue := option Z.

Class Platform := {
  (** [new Date(s).getTime()]. *)
  Date_parse : string -> TimeValue;
  (** [new Date(d.toDateString()).getTime()] for the date [d] of time value
      [t]: the start of the calendar day of [d]. *)
  Date_startOfDay : Z -> Z;
  (** [d.getFullYear()]. *)
  Date_getFullYear : Z -> Z;
  (** [d.toISOString()] for a valid date. *)
  Date_toISOString : Z -> string;
  (** [JSON.parse(raw)] read at the type [Store]; [None] when it throws. *)
  JSON_parse : string -> option Store;
  (** [JSON.stringify(store)]. *)
  JSON_stringify : Store -> string;
  (** [uuid()], from the state of the random generator to the identifier
      and the next state. *)
  uuid_draw : nat -> UUID * nat;
  (** [String(x)] for a number that is neither [NaN], nor infinite, nor an
      integer of magnitude at most 2^53. *)
  Number_toString_other : number -> string
}.

(** [a < b] on dates: false as soon as one of them is invalid. *)
Definition Date_lt (a b : TimeValue) : bool :=
  match a, b with
  | Some x, Some y => (x <? y)%Z
  | _, _ => false
  end.

(** *** The state the repository runs in *)

Record World := {
  localStorage : list (string * string);   (* key/value pairs *)
  clock : Z;                               (* what [new Date()] reads *)
  random : nat                             (* state of [Math.random] *)
}.

Inductive JsError :=
| Error (message : string)
| RangeError (message : string)
| SyntaxError (message : string).

Inductive Completion (A : Type) :=
| Normal (a : A)
| Throw (e : JsError).
Arguments Normal {A} a.
Arguments Throw {A} e.

(** A computation returns or throws, and leaves a state behind. *)
Definition M (A : Type) : Type := World -> Completion A * World.

Definition ret {A} (a : A) : M A := fun w => (Normal a, w).

Definition throw {A} (e : JsError) : M A := fun w => (Throw e, w).

Definition bind {A B} (m : M A) (k : A -> M B) : M B :=
  fun w =>
    match m w with
    | (Normal a, w') => k a w'
    | (Throw e, w') => (Throw e, w')
    end.

(** [try { m } catch { h }]. *)
Definition try_catch {A} (m : M A) (h : JsError -> M A) : M A :=
  fun w =>
    match m w with
    | (Normal a, w') => (Normal a, w')
    | (Throw e, w') => h e w'
    end.

Notation "x <- m ;; k" := (bind m (fun x => k))
  (at level 61, m at next level, right associativity).
Notation "m ;;; k" := (bind m (fun _ => k))
  (at level 61, right associativity).

Fixpoint mapM {A B} (f : A -> M B) (l : list A) : M (list B) :=
  match l with
  | [] => ret []
  | x :: r => y <- f x ;; ys <- mapM f r ;; ret (y :: ys)
  end.

Definition lookup (k : string) (l : list (string * string)) : option string :=
  match find (fun kv => String.eqb (fst kv) k) l with
  | Some kv => Some (snd kv)
  | None => None
  end.

Fixpoint store_at (k v : string) (l : list (string * string)) :=
  match l with
  | [] => [(k, v)]
  | (k', v') :: r =>
      if String.eqb k' k then (k, v) :: r else (k', v') :: store_at k v r
  end.

Definition localStorage_getItem (k : string) : M (option string) :=
  fun w => (Normal (lookup k (localStorage w)), w).

Definition localStorage_setItem (k v : string) : M unit :=
  fun w => (Normal tt,
            {| localStorage := store_at k v (localStorage w);
               clock := clock w; random := random w |}).

Definition Date_now : M Z := fun w => (Normal (clock w), w).

Section Model.

Context {platform : Platform}.

(** [String(x)]. *)
Definition Number_toString (x : number) : string :=
  match Prim2SF x with
  | S754_nan => "NaN"
  | S754_infinity false => "Infinity"
  | S754_infinity true => "-Infinity"
  | _ =>
      match integerValue x with
      | Some v =>
          if (Z.abs v <=? 2 ^ 53)%Z then decimal v else Number_toString_other x
      | None => Number_toString_other x
      end
  end.

(** [deriveStatus(invoice)]; [now] is the instant [new Date()] reads. *)
Definition deriveStatus (now : Z) (invoice : Invoice) : InvoiceStatus :=
  let t := computeTotals invoice in
  let today := now in
  let due := Date_parse (due_date invoice) in
  if ge (paid t) (total t) && gt (total t) 0%float then Paid
  else if lt (paid t) (total t) && Date_lt due (Some (Date_startOfDay today))
  then Overdue
  else Unpaid.

(* ================================================================== *)
(** ** Invoice repository *)

Definition STORAGE_KEY : string := "tsm.billing.v1".

(** [nextInvoiceNumber(existing)]; [now] is the instant [new Date()] reads. *)
Definition nextInvoiceNumber (now : Z) (existing : list Invoice) : string :=
  let year := Date_getFullYear now in
  let prefix := ("INV-" ++ decimal year ++ "-")%string in
  let nums :=
    filter (fun n => negb (Number_isNaN n))
      (map (fun n => parseInt (substring_from (String.length prefix) n))
         (filter (fun n => startsWith n prefix)
            (map invoice_number existing))) in
  let next :=
    ((match nums with [] => 0 | _ => Math_max nums end) + 1)%float in
  (prefix ++ padStart0 4 (Number_toString next))%string.

Definition uuid : M UUID :=
  fun w =>
    let '(u, g) := uuid_draw (random w) in
    (Normal u,
     {| localStorage := localStorage w; clock := clock w; random := g |}).

Definition JSON_parse_text (raw : string) : M Store :=
  match JSON_parse raw with
  | Some v => ret v
  | None => throw (SyntaxError "JSON.parse")
  end.

Definition load : M Store :=
  try_catch
    (raw <- localStorage_getItem STORAGE_KEY ;;
     match raw with
     | None => ret {| invoices := [] |}
     | Some raw =>
         if negb (nonEmpty raw) then ret {| invoices := [] |}
         else JSON_parse_text raw
     end)
    (fun _ => ret {| invoices := [] |}).

Definition save (store : Store) : M unit :=
  localStorage_setItem STORAGE_KEY (JSON_stringify store).

(** *** Queries *)

Inductive StatusFilter := All | Only (s : InvoiceStatus).

Record InvoiceFilters := {
  filter_status : option StatusFilter;
  filter_query : option string;
  filter_dueFrom : option string;
  filter_dueTo : option string
}.

(** [{ ...i, status: deriveStatus(i), total_amount: computeTotals(i).total }]. *)
Definition refreshed (now : Z) (i : Invoice) : Invoice :=
  set_total_amount (set_status i (deriveStatus now i)) (total (computeTotals i)).

(** A filter field that is present and truthy. *)
Definition given (f : option string) : option string :=
  match f with
  | Some s => if nonEmpty s then Some s else None
  | None => None
  end.

Definition listInvoices (filters : option InvoiceFilters) : M (list Invoice) :=
  store <- load ;;
  now <- Date_now ;;
  let data := invoices store in
  let data :=
    match filters with
    | Some {| filter_status := Some (Only s) |} =>
        filter (fun i => InvoiceStatus_eqb (status i ?? deriveStatus now i) s) data
    | _ => data
    end in
  let data :=
    match filters with
    | Some f =>
        match given (filter_query f) with
        | Some q =>
            let q := toLowerCase q in
            filter (fun i => includes (toLowerCase (invoice_number i)) q
                             || includes (toLowerCase (booking_id i)) q) data
        | None => data
        end
    | None => data
    end in
  let data :=
    match filters with
    | Some f =>
        match given (filter_dueFrom f) with
        | Some d => filter (fun i => String.leb d (due_date i)) data
        | None => data
        end
    | None => data
    end in
  let data :=
    match filters with
    | Some f =>
        match given (filter_dueTo f) with
        | Some d => filter (fun i => String.leb (due_date i) d) data
        | None => data
        end
    | None => data
    end in
  ret (map (refreshed now) data).

Definition getInvoice (id0 : UUID) : M (option Invoice) :=
  store <- load ;;
  now <- Date_now ;;
  let inv := find (fun i => String.eqb (id i) id0) (invoices store) in
  ret (match inv with
       | Some inv => Some (refreshed now inv)
       | None => None
       end).

(** *** Mutations *)

Record ItemInput := { input_description : string; input_amount : number }.

Record CreateInvoiceInput := {
  create_booking_id : UUID;
  create_due_date : string;
  create_items : list ItemInput
}.

Record RecordPaymentInput := {
  pay_amount : number;
  pay_date : string;
  pay_method : PaymentMethod
}.

Definition createInvoice (input : CreateInvoiceInput) : M Invoice :=
  store <- load ;;
  id0 <- uuid ;;
  now <- Date_now ;;
  let invoiceNum := nextInvoiceNumber now (invoices store) in
  items0 <- mapM (fun it =>
                    iid <- uuid ;;
                    ret {| item_id := iid; item_invoice_id := id0;
                           item_description := input_description it;
                           item_amount := Number (input_amount it) |})
                 (create_items input) ;;
  let total0 := sumAmounts item_amount items0 in
  let invoice :=
    {| id := id0; booking_id := create_booking_id input;
       invoice_number := invoiceNum; total_amount := total0;
       due_date := create_due_date input; status := Some Unpaid;
       items := Some items0; payments := Some [] |} in
  save {| invoices := invoices store ++ [invoice] |} ;;;
  ret invoice.

(** The array after the first element that satisfies [p], the object [find]
    returned, has been updated in place to [new]. *)
Fixpoint replace_first (p : Invoice -> bool) (new : Invoice) (l : list Invoice) :=
  match l with
  | [] => []
  | x :: r => if p x then new :: r else x :: replace_first p new r
  end.

Definition addInvoiceItem (invoiceId : UUID) (description : string)
    (amount : number) : M Invoice :=
  store <- load ;;
  match find (fun i => String.eqb (id i) invoiceId) (invoices store) with
  | None => throw (Error "Invoice not found")
  | Some inv =>
      iid <- uuid ;;
      let item := {| item_id := iid; item_invoice_id := invoiceId;
                     item_description := description;
                     item_amount := Number amount |} in
      (* inv.items = [...(inv.items ?? []), item] *)
      let inv := set_items inv ((items inv ?? []) ++ [item]) in
      (* inv.total_amount = computeTotals(inv).itemsTotal *)
      let inv := set_total_amount inv (itemsTotal (computeTotals inv)) in
      (* inv.status = deriveStatus(inv) *)
      now <- Date_now ;;
      let inv := set_status inv (deriveStatus now inv) in
      save {| invoices :=
                replace_first (fun i => String.eqb (id i) invoiceId) inv
                  (invoices store) |} ;;;
      ret inv
  end.

(** [new Date(s).toISOString()], which throws on an Invalid Date. *)
Definition toISOString (s : string) : M string :=
  match Date_parse s with
  | Some t => ret (Date_toISOString t)
  | None => throw (RangeError "Invalid time value")
  end.

Definition recordPayment (invoiceId : UUID) (input : RecordPaymentInput)
    : M Invoice :=
  store <- load ;;
  match find (fun i => String.eqb (id i) invoiceId) (invoices store) with
  | None => throw (Error "Invoice not found")
  | Some inv =>
      pid <- uuid ;;
      date <- toISOString (pay_date input) ;;
      let payment := {| payment_id := pid; payment_invoice_id := invoiceId;
                        payment_amount := Number (pay_amount input);
                        payment_date := date;
                        payment_method := pay_method input |} in
      (* inv.payments = [...(inv.payments ?? []), payment] *)
      let inv := set_payments inv ((payments inv ?? []) ++ [payment]) in
      let t := computeTotals inv in
      (* inv.total_amount = total *)
      let inv := set_total_amount inv (total t) in
      (* inv.status = paid >= total ? 'Paid' : deriveStatus(inv) *)
      now <- Date_now ;;
      let inv :=
        set_status inv (if ge (paid t) (total t) then Paid
                        else deriveStatus now inv) in
      save {| invoices :=
                replace_first (fun i => String.eqb (id i) invoiceId) inv
                  (invoices store) |} ;;;
      ret inv
  end.

Definition deleteInvoice (invoiceId : UUID) : M unit :=
  store <- load ;;
  save {| invoices :=
            filter (fun i => negb (String.eqb (id i) invoiceId))
              (invoices store) |}.

End Model.

(* ================================================================== *)
(** ** Export of a rendered element to PDF ([src/utils/pdf.ts]) *)

Module Pdf.

(** One [addImage(imgData, 'PNG', x, y, w, h, undefined, 'FAST')]. *)
Record Placement := {
  at_x : number;
  at_y : number;
  width : number;
  height : number
}.

(** A document is the list of its pages in order, each the list of the
    images placed on it; drawing goes to the last page. *)
Definition Page := list Placement.
Definition Document := list Page.

(** [new jsPDF('p', 'mm', 'a4')]: one empty page. *)
Definition newDocument : Document := [[]].

Definition addPage (pdf : Document) : Document := pdf ++ [[]].

Definition addImage (pdf : Document) (x y w h : number) : Document :=
  let pl := {| at_x := x; at_y := y; width := w; height := h |} in
  match rev pdf with
  | [] => [[pl]]
  | current :: before => rev before ++ [current ++ [pl]]
  end.

(** What [html2canvas] hands back, and the page size of the document. *)
Record Canvas := { canvas_width : number; canvas_height : number }.
Record PageSize := { pageWidth : number; pageHeight : number }.

(** The [while (heightLeft > 0)] loop; [None] when [fuel] iterations did
    not end it. *)
Fixpoint pageLoop (fuel : nat) (size : PageSize) (imgWidth imgHeight : number)
    (pdf : Document) (heightLeft position : number) : option Document :=
  if gt heightLeft 0%float then
    match fuel with
    | O => None
    | S fuel' =>
        let pdf := addPage pdf in
        let position := (position + pageHeight size)%float in
        let pdf := addImage pdf 0%float (- position)%float imgWidth imgHeight in
        let heightLeft := (heightLeft - pageHeight size)%float in
        pageLoop fuel' size imgWidth imgHeight pdf heightLeft position
    end
  else Some pdf.

(** The body of [exportElementToPDF] from the captured canvas on; the
    result is the document passed to [pdf.save]. *)
Definition exportElementToPDF (fuel : nat) (canvas : Canvas) (size : PageSize)
    : option Document :=
  let pdf := newDocument in
  let imgWidth := pageWidth size in
  let imgHeight :=
    (canvas_height canvas * imgWidth / canvas_width canvas)%float in
  let heightLeft := imgHeight in
  let position := 0%float in
  let pdf := addImage pdf 0%float position imgWidth imgHeight in
  let heightLeft := (heightLeft - pageHeight size)%float in
  let position := (- pageHeight size)%float in
  pageLoop fuel size imgWidth imgHeight pdf heightLeft position.

End Pdf.

(* ================================================================== *)
(** ** A concrete platform

    A browser whose time zone is UTC, and the same browser in other time
    zones, used to run the operations on concrete inputs.  [Date] reads the date-only form [YYYY-MM-DD], which the
    language defines as midnight UTC of that day; other forms are left
    invalid here.  [JSON] knows the texts it wrote for a given list of
    stores, whose amounts are whole numbers. *)

Module Fixture.

Definition msPerDay : Z := 86400000.

(** Days from 1970-01-01 to the civil date [y]-[m]-[d]. *)
Definition days_from_civil (y m d : Z) : Z :=
  let y' := if (m <=? 2)%Z then (y - 1)%Z else y in
  let era := (y' / 400)%Z in
  let yoe := (y' - era * 400)%Z in
  let mp := if (2 <? m)%Z then (m - 3)%Z else (m + 9)%Z in
  let doy := ((153 * mp + 2) / 5 + d - 1)%Z in
  let doe := (yoe * 365 + yoe / 4 - yoe / 100 + doy)%Z in
  (era * 146097 + doe - 719468)%Z.

(** The civil date of a day number. *)
Definition civil_from_days (z : Z) : Z * Z * Z :=
  let z := (z + 719468)%Z in
  let era := (z / 146097)%Z in
  let doe := (z - era * 146097)%Z in
  let yoe := ((doe - doe / 1460 + doe / 36524 - doe / 146096) / 365)%Z in
  let doy := (doe - (365 * yoe + yoe / 4 - yoe / 100))%Z in
  let mp := ((5 * doy + 2) / 153)%Z in
  let d := (doy - (153 * mp + 2) / 5 + 1)%Z in
  let m := if (mp <? 10)%Z then (mp + 3)%Z else (mp - 9)%Z in
  let y := (yoe + era * 400 + (if (m <=? 2)%Z then 1 else 0))%Z in
  (y, m, d).

Definition daysInMonth (y m : Z) : Z :=
  (days_from_civil (if (m =? 12)%Z then y + 1 else y)
                   (if (m =? 12)%Z then 1 else m + 1) 1
   - days_from_civil y m 1)%Z.

Definition digits_of (s : string) : option Z :=
  (fix go (s : string) (acc : Z) : option Z :=
     match s with
     | EmptyString => Some acc
     | String c r =>
         match digitValue c with
         | Some d => go r (10 * acc + d)%Z
         | None => None
         end
     end) s 0%Z.

Definition parse_date (s : string) : TimeValue :=
  if (String.length s =? 10)%nat
     && String.eqb (String.substring 4 1 s) "-"
     && String.eqb (String.substring 7 1 s) "-"
  then
    match digits_of (String.substring 0 4 s),
          digits_of (String.substring 5 2 s),
          digits_of (String.substring 8 2 s) with
    | Some y, Some m, Some d =>
        if ((1 <=? m) && (m <=? 12) && (1 <=? d) && (d <=? daysInMonth y m))%Z
        then Some (days_from_civil y m d * msPerDay)%Z
        else None
    | _, _, _ => None
    end
  else None.

Definition startOfDay (t : Z) : Z := (t - t mod msPerDay)%Z.

Definition fullYear (t : Z) : Z :=
  let '(y, _, _) := civil_from_days (t / msPerDay) in y.

Definition two (z : Z) : string := padStart0 2 (decimal z).

Definition isoString (t : Z) : string :=
  let '(y, m, d) := civil_from_days (t / msPerDay) in
  let ms := (t mod msPerDay)%Z in
  (padStart0 4 (decimal y) ++ "-" ++ two m ++ "-" ++ two d ++ "T"
   ++ two (ms / 3600000) ++ ":" ++ two (ms / 60000 mod 60) ++ ":"
   ++ two (ms / 1000 mod 60) ++ "." ++ padStart0 3 (decimal (ms mod 1000))
   ++ "Z")%string.

(** *** JSON text *)

Definition quote : string := String "034"%char EmptyString.

Fixpoint escaped (s : string) : string :=
  match s with
  | EmptyString => EmptyString
  | String c r =>
      if (Ascii.eqb c "034" || Ascii.eqb c "\")%char
      then String "\" (String c (escaped r))
      else String c (escaped r)
  end.

Definition text (s : string) : string := (quote ++ escaped s ++ quote)%string.

Definition numeral (x : number) : string :=
  match integerValue x with
  | Some v => decimal v
  | None => "null"
  end.

Definition field (k v : string) : string := (text k ++ ":" ++ v)%string.

Fixpoint joined (l : list string) : string :=
  match l with
  | [] => EmptyString
  | [x] => x
  | x :: r => (x ++ "," ++ joined r)%string
  end.

Definition object (fields : list string) : string :=
  ("{" ++ joined fields ++ "}")%string.

Definition array (elements : list string) : string :=
  ("[" ++ joined elements ++ "]")%string.

Definition status_text (s : InvoiceStatus) : string :=
  text (match s with Unpaid => "Unpaid" | Paid => "Paid" | Overdue => "Overdue" end).

Definition item_text (it : InvoiceItem) : string :=
  object [field "id" (text (item_id it));
          field "invoice_id" (text (item_invoice_id it));
          field "description" (text (item_description it));
          field "amount" (numeral (item_amount it))].

Definition payment_text (p : Payment) : string :=
  object [field "id" (text (payment_id p));
          field "invoice_id" (text (payment_invoice_id p));
          field "amount" (numeral (payment_amount p));
          field "payment_date" (text (payment_date p));
          field "payment_method" (text (payment_method p))].

Definition optional {A} (k : string) (f : A -> string) (v : option A) : list string :=
  match v with Some a => [field k (f a)] | None => [] end.

Definition invoice_text (i : Invoice) : string :=
  object ([field "id" (text (id i));
           field "booking_id" (text (booking_id i));
           field "invoice_number" (text (invoice_number i));
           field "total_amount" (numeral (total_amount i));
           field "due_date" (text (due_date i))]
          ++ optional "status" status_text (status i)
          ++ optional "items" (fun l => array (map item_text l)) (items i)
          ++ optional "payments" (fun l => array (map payment_text l)) (payments i)).

Definition stringify (s : Store) : string :=
  object [field "invoices" (array (map invoice_text (invoices s)))].

(** [JSON.parse] on the texts of the stores in [known]. *)
Definition parse (known : list Store) (raw : string) : option Store :=
  find (fun s => String.eqb (stringify s) raw) known.

Definition draw (n : nat) : UUID * nat :=
  (("00000000-0000-4000-8000-" ++ padStart0 12 (decimal (Z.of_nat n)))%string,
   S n).

(** The browser in the UTC time zone that has the texts of [known] in
    reach of [JSON.parse]. *)
Definition utc (known : list Store) : Platform :=
  {| Date_parse := parse_date;
     Date_startOfDay := startOfDay;
     Date_getFullYear := fullYear;
     Date_toISOString := isoString;
     JSON_parse := parse known;
     JSON_stringify := stringify;
     uuid_draw := draw;
     Number_toString_other := fun _ => "(not an integer)" |}.



End Fixture.

(* ================================================================== *)
(** ** Sample data *)

Definition sample_item (a : number) : InvoiceItem :=
  {| item_id := "i"; item_invoice_id := "a"; item_description := "Freight";
     item_amount := a |}.

Definition sample_payment (a : number) : Payment :=
  {| payment_id := "p"; payment_invoice_id := "a"; payment_amount := a;
     payment_date := "2025-06-01T00:00:00.000Z"; payment_method := "UPI" |}.

Definition sample_invoice (cached : number) (due : string)
    (its : list number) (pays : list number) : Invoice :=
  {| id := "a"; booking_id := "BK-1"; invoice_number := "INV-2025-0001";
     total_amount := cached; due_date := due; status := Some Unpaid;
     items := Some (map sample_item its);
     payments := Some (map sample_payment pays) |}.

(** A state whose storage holds one text under the repository's key. *)
Definition world_holding (raw : option string) (now : Z) : World :=
  {| localStorage :=
       match raw with Some r => [(STORAGE_KEY, r)] | None => [] end;
     clock := now; random := 0 |}.

(* ================================================================== *)
(** ** The side of the specification

    What the statements below speak of: the collection in storage, the
    wording of the status invariant and of the allocator of the
    specification, and the binary64 form of small integers. *)

(** An amount as the sums read it: [NaN] counts as 0. *)
Definition zero_if_nan (x : number) : number := if is_nan x then 0%float else x.

(** The sum of a list of numbers, as one writes a sum: the numbers added
    one after the other, from 0. *)
Fixpoint sum_from (s : number) (amounts : list number) : number :=
  match amounts with
  | [] => s
  | a :: rest => sum_from (s + a) rest
  end.

Definition sum_of (amounts : list number) : number := sum_from 0 amounts.

(** A calendar day, as the number of days from 1970-01-01 to it. *)
Definition CalendarDay := Z.

(** The calendar day which a text of the form [YYYY-MM-DD] names; [None]
    when the text names no day. *)
Definition day_named (s : string) : option CalendarDay :=
  if (String.length s =? 10)%nat
     && String.eqb (String.substring 4 1 s) "-"
     && String.eqb (String.substring 7 1 s) "-"
  then
    match Fixture.digits_of (String.substring 0 4 s),
          Fixture.digits_of (String.substring 5 2 s),
          Fixture.digits_of (String.substring 8 2 s) with
    | Some y, Some m, Some d =>
        if ((1 <=? m) && (m <=? 12) && (1 <=? d)
            && (d <=? Fixture.daysInMonth y m))%Z
        then Some (Fixture.days_from_civil y m d)
        else None
    | _, _, _ => None
    end
  else None.

(** The current calendar day at the time [now], where the clocks are
    [zone] milliseconds ahead of UTC. *)
Definition today (zone now : Z) : CalendarDay :=
  ((now + zone) / Fixture.msPerDay)%Z.

(** A due date lies strictly before a calendar day; a text that names no
    day lies before none. *)
Definition before (due : option CalendarDay) (day : CalendarDay) : bool :=
  match due with
  | Some d => (d <? day)%Z
  | None => false
  end.



(** Whether an invoice of the given id is in a collection. *)
Definition has_id (invoiceId : UUID) (l : list Invoice) : bool :=
  existsb (fun i => String.eqb (id i) invoiceId) l.

(** The prefix of the numbers of a year. *)
Definition year_prefix (year : Z) : string :=
  ("INV-" ++ decimal year ++ "-")%string.

(** The integer that a suffix denotes, if it starts with one. *)
Definition suffix_value (s : string) : option Z :=
  match parseInt_parts s with
  | Some (neg, v) => Some (if neg then (- v)%Z else v)
  | None => None
  end.

(** The suffixes of the numbers that carry the prefix, those that denote
    no integer left out. *)
Definition spec_suffixes (prefix : string) (existing : list Invoice) : list Z :=
  flat_map
    (fun i =>
       if startsWith (invoice_number i) prefix then
         match suffix_value
                 (substring_from (String.length prefix) (invoice_number i)) with
         | Some v => [v]
         | None => []
         end
       else [])
    existing.

(** The allocator as the specification words it: of the numbers with the
    prefix of the year, the largest suffix plus one (one if there is none),
    padded with zeros to four digits. *)
Definition spec_nextInvoiceNumber (year : Z) (existing : list Invoice) : string :=
  let prefix := year_prefix year in
  let next :=
    match spec_suffixes prefix existing with
    | [] => 1%Z
    | v :: vs => (fold_left Z.max vs v + 1)%Z
    end in
  (prefix ++ padStart0 4 (decimal next))%string.

(** A suffix that reads as an unsigned integer below 2^53, or as none. *)
Definition safe_suffix (s : string) : bool :=
  match parseInt_parts s with
  | Some (neg, v) => negb neg && (v <? 2 ^ 53)%Z
  | None => true
  end.

(** Every number of the year has a safe suffix. *)
Definition safe_numbers (year : Z) (existing : list Invoice) : bool :=
  forallb
    (fun i =>
       implb (startsWith (invoice_number i) (year_prefix year))
         (safe_suffix
            (substring_from (String.length (year_prefix year))
               (invoice_number i))))
    existing.

(** The invoices that carry a number of the year. *)
Definition of_year (year : Z) (existing : list Invoice) : list Invoice :=
  filter (fun i => startsWith (invoice_number i) (year_prefix year)) existing.

Section Observations.

Context {platform : Platform}.

(** The collection which [load] reads in a given state. *)
Definition stored (w : World) : Store :=
  match lookup STORAGE_KEY (localStorage w) with
  | None => {| invoices := [] |}
  | Some raw =>
      if nonEmpty raw then
        match JSON_parse raw with
        | Some s => s
        | None => {| invoices := [] |}
        end
      else {| invoices := [] |}
  end.

(** The state after [save(store)]. *)
Definition saved (store : Store) (w : World) : World :=
  {| localStorage := store_at STORAGE_KEY (JSON_stringify store) (localStorage w);
     clock := clock w; random := random w |}.

(** The persisted value is missing, or it is a text [JSON.parse] rejects. *)
Definition unreadable (w : World) : bool :=
  match lookup STORAGE_KEY (localStorage w) with
  | None => true
  | Some raw =>
      match JSON_parse raw with
      | None => true
      | Some _ => false
      end
  end.


End Observations.

Section Binary64.

Local Open Scope Z_scope.

(** The number of binary digits of a positive integer. *)
Definition bits (p : positive) : Z := Zpos (digits2_pos p).

(** The binary64 form of a positive integer below 2^53: the integer
    shifted to 53 digits, and the exponent that undoes the shift. *)
Definition mant (a : positive) : positive := Z.to_pos (Zpos a * 2 ^ (53 - bits a)).
Definition expo (a : positive) : Z := bits a - 53.
Definition canon (a : positive) : spec_float := S754_finite false (mant a) (expo a).

(** Not the [NaN] of the binary64 specification. *)
Definition SFnot_nan (x : spec_float) : bool :=
  match x with S754_nan => false | _ => true end.

(** The sign of a number of the binary64 specification; [None] for [NaN]. *)
Definition SFsign (x : spec_float) : option bool :=
  match x with
  | S754_zero s | S754_infinity s | S754_finite s _ _ => Some s
  | S754_nan => None
  end.

End Binary64.

(* ================================================================== *)
(** ** Scenarios on the concrete platform *)

Module Scenario.

Import Fixture.

(** 2025-06-15, 15:06:40.000 UTC, and the same time on the next day. *)
Definition june15 : Z := 1750000000000.
Definition june16 : Z := 1750086400000.

(** An invoice created long ago and never touched since: 100 due on
    2020-01-01, nothing paid, and [Unpaid] still stored as its status. *)
Definition stale : Invoice := sample_invoice 100 "2020-01-01" [100%float] [].
Definition stale_store : Store := {| invoices := [stale] |}.

(** An invoice without items: total 0, due on 2020-01-01. *)
Definition blank : Invoice := sample_invoice 0 "2020-01-01" [] [].
Definition blank_store : Store := {| invoices := [blank] |}.

Definition browser : Platform := utc [stale_store; blank_store].



(** The state in which storage holds the text of a store. *)
Definition holding (s : Store) (now : Z) : World :=
  world_holding (Some (stringify s)) now.

Definition only (s : InvoiceStatus) : option InvoiceFilters :=
  Some {| filter_status := Some (Only s); filter_query := None;
          filter_dueFrom := None; filter_dueTo := None |}.

Definition freight (due : string) : CreateInvoiceInput :=
  {| create_booking_id := "BK-7"; create_due_date := due;
     create_items := [{| input_description := "Freight";
                         input_amount := 100 |}] |}.

Definition numbered (n : string) : Invoice :=
  {| id := n; booking_id := "BK-1"; invoice_number := n; total_amount := 0;
     due_date := "2025-06-15"; status := Some Unpaid; items := Some [];
     payments := Some [] |}.

(** The numbers of the example in the specification, and one of 2024. *)
Definition after_gap : list Invoice :=
  [numbered "INV-2025-0001"; numbered "INV-2025-0003"; numbered "INV-2024-0009"].

End Scenario.

Module PdfScenario.

Import Pdf.

(** The captured image placed at height [y]: 1000 wide and 3000 high. *)
Definition image_at (y : number) : Placement :=
  {| at_x := 0; at_y := y; width := 1000; height := 3000 |}.

(** The pages which the pagination described for [exportElementToPDF]
    asks for: page [k] shows the image moved up by [k] page heights. *)
Definition spec_pages : Document :=
  [[image_at 0]; [image_at (-1000)]; [image_at (-2000)]].

End PdfScenario.

(* ================================================================== *)
(** ** More of [Math] *)

(** One step of [Math.min]: [-0] is smaller than [+0]. *)
Definition min_step (lowest x : number) : number :=
  if (is_zero x && get_sign x) && (is_zero lowest && negb (get_sign lowest))
  then x
  else if (x <? lowest)%float then x else lowest.

(** [Math.min(...args)]: [NaN] if any argument is, [Infinity] on no
    argument, the smallest argument otherwise. *)
Definition Math_min (args : list number) : number :=
  if existsb is_nan args then nan
  else fold_left min_step args infinity.

(** [x | 0]: the integer part of [x], wrapped to 32 bits; 0 for [NaN] and
    the infinities. *)
Definition toInt32 (x : number) : Z :=
  match Prim2SF x with
  | S754_finite s m e =>
      let mag :=
        if (0 <=? e)%Z then (Zpos m * 2 ^ e)%Z else (Zpos m / 2 ^ (- e))%Z in
      let n := if s then (- mag)%Z else mag in
      ((n + 2 ^ 31) mod 2 ^ 32 - 2 ^ 31)%Z
  | _ => 0%Z
  end.

(* ================================================================== *)
(** ** Identifiers ([uuid] of the repository)

    [Math_random] takes the state of the generator to the number drawn and
    the next state, so [Uuid.uuid Math_random] is a [uuid_draw] of a
    platform. *)

Module Uuid.

(** [v.toString(16)] for an integer [v]. *)
Definition toString16 (v : Z) : string :=
  HexadecimalString.NilZero.string_of_int (Z.to_hex_int v).

Definition template : string := "xxxxxxxx-xxxx-4xxx-yxxx-xxxxxxxxxxxx".

(** The callback of [replace]: what one [x] or [y] becomes, given the
    number which [Math.random()] drew. *)
Definition replacement (c : ascii) (drawn : number) : string :=
  let r := toInt32 (drawn * 16) in
  let v := if Ascii.eqb c "x" then r else Z.lor (Z.land r 3) 8 in
  toString16 v.

(** [s.replace(/[xy]/g, c => ...)], from left to right. *)
Fixpoint replace_xy (Math_random : nat -> number * nat) (s : string) (g : nat)
    : string * nat :=
  match s with
  | EmptyString => (EmptyString, g)
  | String c rest =>
      if (Ascii.eqb c "x" || Ascii.eqb c "y")%bool then
        let '(drawn, g) := Math_random g in
        let '(out, g) := replace_xy Math_random rest g in
        ((replacement c drawn ++ out)%string, g)
      else
        let '(out, g) := replace_xy Math_random rest g in
        (String c out, g)
  end.

Definition uuid (Math_random : nat -> number * nat) (g : nat) : UUID * nat :=
  replace_xy Math_random template g.

End Uuid.

(* ================================================================== *)
(** ** The pages that show invoices

    The sums of [InvoicePrintView], of the billing page
    ([src/pages/Billing.tsx]) and of the invoice page
    ([src/pages/InvoiceDetail.tsx]), and the form that creates an invoice. *)

Record PrintTotals := {
  print_subtotal : number;
  print_paid : number;
  print_balance : number
}.

(** The head of [InvoicePrintView]; a list that is not passed is [[]]. *)
Definition InvoicePrintView_totals (items0 : option (list InvoiceItem))
    (payments0 : option (list Payment)) : PrintTotals :=
  let items0 := items0 ?? [] in
  let payments0 := payments0 ?? [] in
  let subtotal := sumAmounts item_amount items0 in
  let paid0 := sumAmounts payment_amount payments0 in
  let balance0 := Math_max [0%float; (subtotal - paid0)%float] in
  {| print_subtotal := subtotal; print_paid := paid0; print_balance := balance0 |}.

Record PageTotals := {
  page_total : number;
  page_paid : number;
  page_balance : number
}.

(** [totals] of the billing page, over the invoices it lists. *)
Definition Billing_totals (invoices0 : list Invoice) : PageTotals :=
  let total0 :=
    fold_left (fun s i => (s + (total (computeTotals i) || 0))%float) invoices0 0%float in
  let paid0 :=
    fold_left (fun s i => (s + (paid (computeTotals i) || 0))%float) invoices0 0%float in
  let balance0 := Math_max [0%float; (total0 - paid0)%float] in
  {| page_total := total0; page_paid := paid0; page_balance := balance0 |}.

Record DetailTotals := {
  detail_subtotal : number;
  detail_tax : number;
  detail_discount : number;
  detail_grand : number;
  detail_paid : number;
  detail_balance : number
}.

(** [totals] of the invoice page; [None] is the invoice not loaded yet. *)
Definition InvoiceDetail_totals (invoice : option Invoice) (taxPct discount : number)
    : DetailTotals :=
  match invoice with
  | None =>
      {| detail_subtotal := 0; detail_tax := 0; detail_discount := 0;
         detail_grand := 0; detail_paid := 0; detail_balance := 0 |}
  | Some invoice =>
      let base := computeTotals invoice in
      let tax := (total base * taxPct / 100)%float in
      let grand := Math_max [0%float; (total base + tax - discount)%float] in
      let balance0 := Math_max [0%float; (grand - paid base)%float] in
      {| detail_subtotal := total base; detail_tax := tax;
         detail_discount := discount; detail_grand := grand;
         detail_paid := paid base; detail_balance := balance0 |}
  end.

(** [s.trim()]. *)
Definition trimEnd (s : string) : string :=
  string_of_list_ascii
    (rev (list_ascii_of_string
            (trimStart (string_of_list_ascii (rev (list_ascii_of_string s)))))).

Definition trim (s : string) : string := trimEnd (trimStart s).

(** [s || d] on strings. *)
Definition string_or (s d : string) : string := if nonEmpty s then s else d.

(** The lines of the form that are sent: those with a description and an
    amount above 0. *)
Definition clean (items0 : list ItemInput) : list ItemInput :=
  filter (fun it => nonEmpty (trim (input_description it))
                    && gt (Number (input_amount it)) 0%float) items0.

Section Pages.

Context {platform : Platform}.

(** [onSubmit] of [CreateInvoiceModal], up to the invoice handed to
    [onCreated]. *)
Definition CreateInvoiceModal_onSubmit (bookingId dueDate : string)
    (items0 : list ItemInput) : M Invoice :=
  createInvoice {| create_booking_id := string_or bookingId "BOOKING-ID";
                   create_due_date := dueDate;
                   create_items := clean items0 |}.

(** [handleDelete] of the billing page; [confirmed] is the answer to
    [confirm], [shown] the invoices the page holds, and the result the
    invoices it holds afterwards. *)
Definition handleDelete (confirmed : bool) (id0 : UUID) (shown : list Invoice)
    : M (list Invoice) :=
  if negb confirmed then ret shown
  else
    deleteInvoice id0 ;;;
    ret (filter (fun i => negb (String.eqb (id i) id0)) shown).

(** [RecordPaymentModal]: the amount which the form offers, and
    [Save Payment], up to the invoice handed to [onSaved]. *)
Definition RecordPaymentModal_offered (invoice : Invoice) : number :=
  balance (computeTotals invoice).

Definition RecordPaymentModal_save (invoice : Invoice) (amount : number)
    (date : string) (method : PaymentMethod) : M Invoice :=
  recordPayment (id invoice)
    {| pay_amount := amount; pay_date := date; pay_method := method |}.

(** What [listInvoices] keeps: the stored status (the derived one when
    none is stored) is the one asked for, the query occurs in the number or
    in the booking, and the due date lies within the bounds. *)
Definition passes (now : Z) (filters : option InvoiceFilters) (i : Invoice) : bool :=
  match filters with
  | None => true
  | Some f =>
      match filter_status f with
      | Some (Only s) => InvoiceStatus_eqb (status i ?? deriveStatus now i) s
      | _ => true
      end
      && match given (filter_query f) with
         | Some q =>
             includes (toLowerCase (invoice_number i)) (toLowerCase q)
             || includes (toLowerCase (booking_id i)) (toLowerCase q)
         | None => true
         end
      && match given (filter_dueFrom f) with
         | Some d => String.leb d (due_date i)
         | None => true
         end
      && match given (filter_dueTo f) with
         | Some d => String.leb (due_date i) d
         | None => true
         end
  end.

End Pages.

(* ================================================================== *)
(** ** Export of the preview and the scale of the capture *)

Module Preview.

Import Pdf.

(** [scale] of [exportElementToPDF], from the width of the element. *)
Definition captureScale (rectWidth : number) : number :=
  Math_min [2%float; Math_max [1%float; (1440 / rectWidth)%float]].

(** The [while (heightLeft > 0)] loop of [handleExportPdf]; [None] when
    [fuel] iterations did not end it. *)
Fixpoint previewLoop (fuel : nat) (size : PageSize) (imgWidth imgHeight : number)
    (pdf : Document) (heightLeft : number) : option Document :=
  if gt heightLeft 0%float then
    match fuel with
    | O => None
    | S fuel' =>
        let position := (heightLeft - imgHeight)%float in
        let pdf := addPage pdf in
        let pdf := addImage pdf 0%float position imgWidth imgHeight in
        let heightLeft := (heightLeft - pageHeight size)%float in
        previewLoop fuel' size imgWidth imgHeight pdf heightLeft
    end
  else Some pdf.

(** The body of [handleExportPdf] of the billing page from the captured
    canvas on. *)
Definition handleExportPdf (fuel : nat) (canvas : Canvas) (size : PageSize)
    : option Document :=
  let pdf := newDocument in
  let imgWidth := pageWidth size in
  let imgHeight :=
    (canvas_height canvas * (imgWidth / canvas_width canvas))%float in
  let position := 0%float in
  let heightLeft := imgHeight in
  let pdf := addImage pdf 0%float position imgWidth imgHeight in
  let heightLeft := (heightLeft - pageHeight size)%float in
  previewLoop fuel size imgWidth imgHeight pdf heightLeft.

End Preview.

(* ================================================================== *)
(** ** What the statements on creation speak of *)

(** The item made of a line of the input and the identifier drawn for it. *)
Definition item_of (invoiceId : UUID) (p : ItemInput * UUID) : InvoiceItem :=
  {| item_id := snd p; item_invoice_id := invoiceId;
     item_description := input_description (fst p);
     item_amount := Number (input_amount (fst p)) |}.

(* ================================================================== *)
(** ** What the statements on pages of a document speak of *)

(** A page that holds the captured image alone, at full width, moved down
    by [y]. *)
Definition page_of (imgWidth imgHeight y : number) : Pdf.Page :=
  [{| Pdf.at_x := 0; Pdf.at_y := y; Pdf.width := imgWidth; Pdf.height := imgHeight |}].

(* ================================================================== *)
(** ** What the statements on identifiers speak of *)

(** A digit of the hexadecimal notation in lower case. *)
Definition lowerHex (c : ascii) : bool :=
  existsb (Ascii.eqb c) (list_ascii_of_string "0123456789abcdef").

(** The digits that mark the variant of RFC 4122. *)
Definition variantDigit (c : ascii) : bool :=
  existsb (Ascii.eqb c) (list_ascii_of_string "89ab").

(** What [replace] makes of a character of the template. *)
Definition replaced (c c' : ascii) : Prop :=
  if Ascii.eqb c "x" then lowerHex c' = true
  else if Ascii.eqb c "y" then variantDigit c' = true
  else c' = c.

(** A drawn number is in the range of [Math.random]: from 0 up to, and not
    including, 1. *)
Definition in_unit_range (x : number) : bool := ((0 <=? x) && (x <? 1))%float.

(* ================================================================== *)
(** ** Whole numbers of millimetres *)

(** The binary64 form of an integer of magnitude below 2^53. *)
Definition whole (z : Z) : spec_float :=
  match z with
  | Z0 => S754_zero false
  | Zpos a => S754_finite false (mant a) (expo a)
  | Zneg a => S754_finite true (mant a) (expo a)
  end.

(** The number of pages of height [p] that a height [h] fills: [h / p]
    rounded up, and none for a height that is not above 0. *)
Definition rounds (h p : Z) : nat := Z.to_nat ((h + p - 1) / p).

(* ================================================================== *)
(** ** Reading back what was written *)

Section ReadingBack.

Context {platform : Platform}.

(** [JSON.parse] gives back the store whose text [JSON.stringify] wrote. *)
Definition reads_back (s : Store) : Prop :=
  nonEmpty (JSON_stringify s) = true /\ JSON_parse (JSON_stringify s) = Some s.

End ReadingBack.

(* ================================================================== *)
(** ** Further scenarios on the concrete platform *)

Module Journey.

Import Fixture Scenario Pdf.

(** The state in which storage holds the invoice created long ago. *)
Definition office : World := holding stale_store june15.

(** A browser that has stored nothing yet. *)
Definition fresh : World := world_holding None june15.

(** The invoice which [createInvoice] makes in that browser. *)
Definition created : Invoice :=
  match fst (@createInvoice (utc []) (freight "2025-07-01") fresh) with
  | Normal i => i
  | Throw _ => blank
  end.

Definition created_store : Store := {| invoices := [created] |}.

Definition empty_store : Store := {| invoices := [] |}.

(** A browser whose [JSON.parse] reads the texts of these stores. *)
Definition desk : Platform := utc [stale_store; created_store; empty_store].

Definition toll : RecordPaymentInput :=
  {| pay_amount := 40; pay_date := "2025-06-10"; pay_method := "UPI" |}.

Definition undated : RecordPaymentInput :=
  {| pay_amount := 40; pay_date := "soon"; pay_method := "UPI" |}.

(** The office's browser when other applications keep their own entries in
    [localStorage], before and after the repository's. *)
Definition shared : World :=
  {| localStorage := [("theme", "dark");
                      (STORAGE_KEY, stringify stale_store);
                      ("lang", "en")];
     clock := june15; random := 0 |}.

(** A generator that draws one half every time. *)
Definition halves (g : nat) : number * nat := (0.5%float, S g).

(** A capture 1000 wide, and pages 1000 wide and 1000 high. *)
Definition capture (h : number) : Canvas :=
  {| canvas_width := 1000; canvas_height := h |}.

Definition square : PageSize := {| pageWidth := 1000; pageHeight := 1000 |}.

End Journey.

(* ================================================================== *)
(** * Properties *)

(** ** Facts about numbers *)

Section NumberFacts.

Lemma Prim2SF_zero : Prim2SF 0%float = S754_zero false.
Proof. reflexivity. Qed.

Lemma SFcompare_refl x :
  SFcompare x x = match x with S754_nan => None | _ => Some Eq end.
Proof.
  destruct x as [[]|[]| |[] m e]; simpl; try reflexivity;
    rewrite Z.compare_refl, Pos.compare_cont_refl; reflexivity.
Qed.

Lemma is_nan_spec x : is_nan x = match Prim2SF x with S754_nan => true | _ => false end.
Proof.
  unfold is_nan. rewrite eqb_spec. unfold SFeqb. rewrite SFcompare_refl.
  destruct (Prim2SF x); reflexivity.
Qed.

Lemma ltb_zero_antisym x : (0 <? x)%float = true -> (x <? 0)%float = false.
Proof.
  rewrite !ltb_spec, Prim2SF_zero. unfold SFltb.
  destruct (Prim2SF x) as [[]|[]| |[] m e]; simpl; congruence.
Qed.



(** [Math.max(0, x)] in closed form. *)
Lemma Math_max_zero x :
  Math_max [0%float; x] =
  if is_nan x then nan else if (0 <? x)%float then x else 0%float.
Proof.
  unfold Math_max. cbn [existsb fold_left].
  replace (is_nan 0%float) with false by reflexivity.
  replace (max_step neg_infinity 0%float) with 0%float by reflexivity.
  rewrite orb_false_r. cbn [orb].
  destruct (is_nan x); [reflexivity|].
  unfold max_step.
  replace (is_zero 0%float && get_sign 0%float) with false by reflexivity.
  rewrite andb_false_r. reflexivity.
Qed.

Lemma Math_max_zero_not_negative x : lt (Math_max [0%float; x]) 0%float = false.
Proof.
  rewrite Math_max_zero. unfold lt.
  destruct (is_nan x); [reflexivity|].
  destruct (0 <? x)%float eqn:E; [now apply ltb_zero_antisym | reflexivity].
Qed.

End NumberFacts.

(** ** Sums of finite numbers

    Adding a finite number to a number never gives [NaN]; the sum may
    overflow to an infinity. *)

Section SumsAreNumbers.

Local Open Scope Z_scope.

Lemma shr_1_nonneg mrs : 0 <= shr_m mrs -> 0 <= shr_m (shr_1 mrs).
Proof.
  destruct mrs as [m r s]. cbn [shr_m]. intro H.
  destruct m as [|[p|p|]|p]; cbn [shr_1 shr_m]; lia.
Qed.

Lemma iter_shr_1_nonneg p : forall mrs,
  0 <= shr_m mrs -> 0 <= shr_m (iter_pos shr_1 p mrs).
Proof.
  induction p as [p IH|p IH|]; intros mrs H; cbn [iter_pos].
  - apply IH, IH, shr_1_nonneg, H.
  - apply IH, IH, H.
  - apply shr_1_nonneg, H.
Qed.

Lemma shr_fexp_nonneg m e l :
  0 <= m -> 0 <= shr_m (fst (shr_fexp 53 1024 m e l)).
Proof.
  intro H. unfold shr_fexp, shr.
  assert (R : 0 <= shr_m (shr_record_of_loc m l))
    by (destruct l as [|[]]; exact H).
  destruct (fexp 53 1024 (Zdigits2 m + e) - e); cbn [fst]; try exact R.
  apply iter_shr_1_nonneg, R.
Qed.

Lemma round_nearest_even_nonneg m l : 0 <= m -> 0 <= round_nearest_even m l.
Proof.
  intro H. destruct l as [|[]]; cbn [round_nearest_even]; try lia.
  destruct (Z.even m); lia.
Qed.

Lemma binary_round_aux_sign s m e l :
  0 <= m -> SFsign (binary_round_aux 53 1024 s m e l) = Some s.
Proof.
  intro H. unfold binary_round_aux.
  pose proof (shr_fexp_nonneg m e l H) as H1.
  destruct (shr_fexp 53 1024 m e l) as [mrs' e']. cbn [fst] in H1.
  pose proof (shr_fexp_nonneg _ e' loc_Exact
                (round_nearest_even_nonneg _ (loc_of_shr_record mrs') H1)) as H2.
  destruct (shr_fexp 53 1024 _ e' loc_Exact) as [mrs'' e'']. cbn [fst] in H2.
  destruct (shr_m mrs''); [reflexivity| |lia].
  destruct (e'' <=? 1024 - 53); reflexivity.
Qed.

Lemma binary_round_aux_not_nan s m e l :
  0 <= m -> SFnot_nan (binary_round_aux 53 1024 s m e l) = true.
Proof.
  intro H. apply (binary_round_aux_sign s m e l) in H.
  destruct (binary_round_aux 53 1024 s m e l); [reflexivity..|discriminate|reflexivity].
Qed.

Lemma binary_normalize_not_nan m e :
  SFnot_nan (binary_normalize 53 1024 m e false) = true.
Proof.
  unfold binary_normalize, binary_round.
  destruct m as [|p|p]; [reflexivity| |];
    destruct (shl_align p e _); apply binary_round_aux_not_nan; lia.
Qed.

Lemma SFadd_not_nan x y :
  SFnot_nan x = true ->
  match y with S754_zero _ | S754_finite _ _ _ => True | _ => False end ->
  SFnot_nan (SFadd 53 1024 x y) = true.
Proof.
  intros Hx Hy.
  destruct x as [sx|sx| |sx mx ex], y as [sy|sy| |sy my ey];
    try discriminate; try contradiction; cbn [SFadd]; try reflexivity.
  - destruct sx, sy; reflexivity.
  - apply binary_normalize_not_nan.
Qed.

Local Close Scope Z_scope.

Lemma is_finite_spec x :
  is_finite x = true ->
  match Prim2SF x with S754_zero _ | S754_finite _ _ _ => True | _ => False end.
Proof.
  unfold is_finite, is_infinity. rewrite is_nan_spec, eqb_spec, abs_spec.
  destruct (Prim2SF x) as [s|s| |s m e]; cbn; try discriminate; trivial.
Qed.

Lemma add_not_nan s y :
  is_nan s = false -> is_finite y = true -> is_nan (s + y) = false.
Proof.
  intros Hs Hy. apply is_finite_spec in Hy.
  rewrite is_nan_spec in *. rewrite add_spec.
  pose proof (SFadd_not_nan (Prim2SF s) (Prim2SF y)) as A.
  unfold SF64add. change prec with 53%Z. change emax with 1024%Z.
  destruct (SFadd 53 1024 (Prim2SF s) (Prim2SF y)); try reflexivity.
  destruct (Prim2SF s); try discriminate; specialize (A eq_refl Hy); discriminate.
Qed.

(** What a sum adds for an amount that is not infinite is finite. *)
Lemma addend_finite x :
  is_infinity x = false -> is_finite (Number x || 0) = true.
Proof.
  intro H. unfold or_else, truthy, Number.
  destruct (is_zero x || is_nan x) eqn:E; cbn [negb]; [reflexivity|].
  apply orb_false_elim in E. destruct E as [_ E].
  unfold is_finite. rewrite E, H. reflexivity.
Qed.

Lemma running_sum_not_nan {A} (amount : A -> number) (l : list A) : forall s,
  is_nan s = false ->
  forallb (fun x => negb (is_infinity (amount x))) l = true ->
  is_nan (fold_left (fun s x => (s + (Number (amount x) || 0))%float) l s) = false.
Proof.
  induction l as [|x l IH]; intros s Hs H; cbn [fold_left forallb] in *.
  - exact Hs.
  - apply andb_prop in H. destruct H as [Hx Hl].
    apply IH; [|exact Hl].
    apply add_not_nan; [exact Hs|].
    apply addend_finite. now apply negb_true_iff.
Qed.

Lemma sumAmounts_not_nan {A} (amount : A -> number) (l : list A) :
  forallb (fun x => negb (is_infinity (amount x))) l = true ->
  is_nan (sumAmounts amount l) = false.
Proof. apply running_sum_not_nan. reflexivity. Qed.

End SumsAreNumbers.

(** ** Integers as numbers

    An integer from 0 up to 2^53 is a binary64 number, and comparing such
    integers or adding one to them is exact. *)

Section IntegerNumbers.

Local Open Scope Z_scope.

Lemma bits_log2 p : bits p = Z.log2 (Zpos p) + 1.
Proof.
  unfold bits.
  assert (S : digits2_pos p = Pos.size p)
    by (induction p; cbn [digits2_pos Pos.size]; congruence).
  rewrite S. destruct p; cbn [Z.log2 Pos.size]; lia.
Qed.

Lemma bits_pos p : 1 <= bits p.
Proof. unfold bits. lia. Qed.

Lemma bits_bounds p : 2 ^ (bits p - 1) <= Zpos p < 2 ^ bits p.
Proof.
  rewrite bits_log2. replace (Z.log2 (Zpos p) + 1 - 1) with (Z.log2 (Zpos p)) by lia.
  apply Z.log2_spec. lia.
Qed.

Lemma bits_shift p q k :
  0 <= k -> Zpos q = Zpos p * 2 ^ k -> bits q = bits p + k.
Proof.
  intros Hk E. rewrite !bits_log2, E, Z.log2_mul_pow2 by lia. lia.
Qed.


Lemma iter_xO_value p k : Zpos (Pos.iter xO p k) = Zpos p * 2 ^ Zpos k.
Proof.
  revert p. induction k as [k IH|k IH|]; intro p; cbn [Pos.iter].
  - rewrite Pos2Z.inj_xO, !IH.
    replace (Zpos k~1) with (Zpos k + Zpos k + 1) by lia.
    rewrite !Z.pow_add_r by lia. change (2 ^ 1) with 2. ring.
  - rewrite !IH.
    replace (Zpos k~0) with (Zpos k + Zpos k) by lia.
    rewrite !Z.pow_add_r by lia. ring.
  - rewrite Pos2Z.inj_xO. change (2 ^ 1) with 2. ring.
Qed.

Lemma shr_iter_xO k : forall m,
  iter_pos shr_1 k {| shr_m := Zpos (Pos.iter xO m k); shr_r := false; shr_s := false |}
  = {| shr_m := Zpos m; shr_r := false; shr_s := false |}.
Proof.
  induction k as [k IH|k IH|]; intro m; cbn [iter_pos Pos.iter].
  - cbn [shr_1 orb]. rewrite !IH. reflexivity.
  - rewrite !IH. reflexivity.
  - reflexivity.
Qed.

Lemma fexp_normal e : -1074 <= e -> fexp 53 1024 (53 + e) = e.
Proof. intro H. unfold fexp, emin. lia. Qed.

(** A mantissa of 53 digits within the exponent range is left as it is. *)
Lemma binary_round_aux_canonical s m e :
  bits m = 53 -> -1074 <= e <= 971 ->
  binary_round_aux 53 1024 s (Zpos m) e loc_Exact = S754_finite s m e.
Proof.
  intros Hb He. unfold binary_round_aux, shr_fexp. cbn [Zdigits2].
  fold (bits m). rewrite Hb, fexp_normal by lia.
  replace (e - e) with 0 by lia. cbn [shr shr_record_of_loc shr_m loc_of_shr_record round_nearest_even Zdigits2].
  fold (bits m). rewrite Hb, fexp_normal by lia.
  replace (e - e) with 0 by lia. cbn [shr shr_record_of_loc shr_m].
  replace (e <=? 1024 - 53) with true by (symmetry; apply Z.leb_le; lia).
  reflexivity.
Qed.

(** Trailing zeros beyond 53 digits are shifted out exactly. *)
Lemma binary_round_aux_shifted s m k e :
  bits m = 53 -> -1074 <= e <= 971 ->
  binary_round_aux 53 1024 s (Zpos (Pos.iter xO m k)) (e - Zpos k) loc_Exact
  = S754_finite s m e.
Proof.
  intros Hb He. unfold binary_round_aux, shr_fexp at 1. cbn [Zdigits2].
  fold (bits (Pos.iter xO m k)).
  rewrite (bits_shift m _ (Zpos k)) by (try apply iter_xO_value; lia).
  rewrite Hb. replace (53 + Zpos k + (e - Zpos k)) with (53 + e) by lia.
  rewrite fexp_normal by lia.
  replace (e - (e - Zpos k)) with (Zpos k) by lia.
  cbn [shr shr_record_of_loc]. rewrite shr_iter_xO.
  cbn [shr_m loc_of_shr_record round_nearest_even].
  replace (e - Zpos k + Zpos k) with e by lia.
  unfold shr_fexp. cbn [Zdigits2]. fold (bits m). rewrite Hb, fexp_normal by lia.
  replace (e - e) with 0 by lia. cbn [shr shr_record_of_loc shr_m].
  replace (e <=? 1024 - 53) with true by (symmetry; apply Z.leb_le; lia).
  reflexivity.
Qed.

Lemma bits_small a : Zpos a < 2 ^ 53 -> bits a <= 53.
Proof.
  intro H. destruct (Z_le_gt_dec (bits a) 53) as [L|G]; [exact L|].
  pose proof (bits_bounds a) as [B _].
  assert (2 ^ 53 <= 2 ^ (bits a - 1)) by (apply Z.pow_le_mono_r; lia). lia.
Qed.

Lemma mant_value a : bits a <= 53 -> Zpos (mant a) = Zpos a * 2 ^ (53 - bits a).
Proof.
  intro H. unfold mant. rewrite Z2Pos.id; [reflexivity|].
  apply Z.mul_pos_pos; [lia|]. apply Z.pow_pos_nonneg; lia.
Qed.

Lemma bits_mant a : bits a <= 53 -> bits (mant a) = 53.
Proof.
  intro H. rewrite (bits_shift a (mant a) (53 - bits a)); [lia|lia|].
  now apply mant_value.
Qed.

Lemma shl_align_value m e e' :
  e' <= e ->
  exists m', shl_align m e e' = (m', e') /\ Zpos m' = Zpos m * 2 ^ (e - e').
Proof.
  intro H. unfold shl_align.
  destruct (e' - e) as [|d|d] eqn:E; try lia.
  - exists m. replace e' with e by lia. rewrite Z.sub_diag. split; [reflexivity|]. lia.
  - exists (Pos.iter xO m d). split; [reflexivity|].
    rewrite iter_xO_value. f_equal. f_equal. lia.
Qed.

Lemma binary_normalize_small a :
  bits a <= 53 -> binary_normalize 53 1024 (Zpos a) 0 false = canon a.
Proof.
  intro H. pose proof (bits_pos a) as P.
  unfold binary_normalize, binary_round. fold (bits a).
  replace (fexp 53 1024 (bits a + 0)) with (bits a - 53)
    by (unfold fexp, emin; lia).
  destruct (shl_align_value a 0 (bits a - 53)) as (m' & -> & V); [lia|].
  assert (m' = mant a) as ->.
  { apply Pos2Z.inj. rewrite V, mant_value by assumption. f_equal. f_equal. lia. }
  apply binary_round_aux_canonical; [now apply bits_mant | unfold expo; lia].
Qed.

Lemma valid_canon a : bits a <= 53 -> valid_binary (canon a) = true.
Proof.
  intro H. pose proof (bits_pos a) as P.
  unfold canon, valid_binary, bounded, canonical_mantissa. fold (bits (mant a)).
  rewrite bits_mant by assumption. change prec with 53. change emax with 1024.
  rewrite fexp_normal by (unfold expo; lia). rewrite Z.eqb_refl. cbn [andb].
  apply Z.leb_le. unfold expo. lia.
Qed.

Lemma Prim2SF_number_of_Z a :
  bits a <= 53 -> Prim2SF (number_of_Z (Zpos a)) = canon a.
Proof.
  intro H. unfold number_of_Z. change prec with 53. change emax with 1024.
  rewrite binary_normalize_small by assumption.
  apply Prim2SF_SF2Prim, valid_canon, H.
Qed.

(** The order of small integers is the order of their binary64 forms. *)
Lemma canon_ltb a b :
  bits a <= 53 -> bits b <= 53 ->
  SFltb (canon a) (canon b) = (Zpos a <? Zpos b).
Proof.
  intros Ha Hb. unfold SFltb, canon, SFcompare, expo.
  pose proof (bits_bounds a) as [La Ua]. pose proof (bits_bounds b) as [Lb Ub].
  destruct (Z.compare_spec (bits a - 53) (bits b - 53)) as [E|L|G].
  - assert (Eb : bits a = bits b) by lia.
    change (Pos.compare_cont Eq (mant a) (mant b))
      with (Pos.compare (mant a) (mant b)).
    rewrite Pos2Z.inj_compare, !mant_value, Eb by assumption.
    assert (0 < 2 ^ (53 - bits b)) by (apply Z.pow_pos_nonneg; lia).
    unfold Z.ltb.
    destruct (Z.compare_spec (Zpos a * 2 ^ (53 - bits b)) (Zpos b * 2 ^ (53 - bits b)));
      destruct (Z.compare_spec (Zpos a) (Zpos b)); try reflexivity; nia.
  - symmetry. apply Z.ltb_lt.
    assert (2 ^ bits a <= 2 ^ (bits b - 1)) by (apply Z.pow_le_mono_r; lia). lia.
  - symmetry. apply Z.ltb_ge.
    assert (2 ^ bits b <= 2 ^ (bits a - 1)) by (apply Z.pow_le_mono_r; lia). lia.
Qed.

(** Adding one to a small integer is exact. *)
Lemma canon_add_one a :
  Zpos a + 1 < 2 ^ 53 ->
  SFadd 53 1024 (canon a) (canon 1) = canon (a + 1).
Proof.
  intro H.
  assert (Ha : bits a <= 53) by (apply bits_small; lia).
  assert (Hc : bits (a + 1) <= 53) by (apply bits_small; lia).
  pose proof (bits_pos a) as Pa.
  assert (Pc : 2 <= bits (a + 1)).
  { pose proof (bits_bounds (a + 1)) as [_ U].
    destruct (Z_le_gt_dec 2 (bits (a + 1))) as [L|G]; [exact L|].
    pose proof (bits_pos (a + 1)).
    replace (bits (a + 1)) with 1 in U by lia. change (2 ^ 1) with 2 in U. lia. }
  unfold canon at 1 2, SFadd.
  change (expo 1) with (-52). change (mant 1) with 4503599627370496%positive.
  rewrite Z.min_r by (unfold expo; lia).
  destruct (shl_align_value (mant a) (expo a) (-52)) as (m1 & -> & V1);
    [unfold expo; lia|].
  destruct (shl_align_value 4503599627370496 (-52) (-52)) as (m2 & -> & V2);
    [lia|].
  cbn [fst cond_Zopp]. rewrite <- Pos2Z.inj_add.
  set (M := (m1 + m2)%positive).
  assert (VM : Zpos M = Zpos (a + 1) * 2 ^ 52).
  { unfold M. rewrite Pos2Z.inj_add, V1, V2, mant_value by assumption.
    unfold expo. rewrite Z.sub_diag, <- Z.mul_assoc, <- Z.pow_add_r by lia.
    replace (53 - bits a + (bits a - 53 - -52)) with 52 by lia.
    rewrite Pos2Z.inj_add. change (2 ^ 0) with 1. lia. }
  unfold binary_normalize, binary_round. fold (bits M).
  rewrite (bits_shift (a + 1) M 52) by (lia || exact VM).
  replace (fexp 53 1024 (bits (a + 1) + 52 + -52)) with (bits (a + 1) - 53)
    by (unfold fexp, emin; lia).
  unfold shl_align.
  destruct (bits (a + 1) - 53 - -52) as [|k|k] eqn:K; try lia.
  assert (M = Pos.iter xO (mant (a + 1)) k) as ->.
  { apply Pos2Z.inj. rewrite iter_xO_value, VM, mant_value by assumption.
    rewrite <- Z.mul_assoc, <- Z.pow_add_r by lia. f_equal. f_equal. lia. }
  replace (-52) with (expo (a + 1) - Zpos k) by (unfold expo; lia).
  apply binary_round_aux_shifted; [now apply bits_mant | unfold expo; lia].
Qed.

(** The integer that the binary64 form of a small integer holds. *)
Lemma canon_value a :
  bits a <= 53 ->
  (if 0 <=? expo a then Some (Zpos (mant a) * 2 ^ expo a)
   else if Zpos (mant a) mod 2 ^ (- expo a) =? 0
        then Some (Zpos (mant a) / 2 ^ (- expo a)) else None)
  = Some (Zpos a).
Proof.
  intro H. pose proof (bits_pos a) as P. rewrite mant_value by assumption.
  unfold expo. replace (- (bits a - 53)) with (53 - bits a) by lia.
  destruct (Z.leb_spec 0 (bits a - 53)) as [L|L].
  - replace (53 - bits a) with 0 by lia. replace (bits a - 53) with 0 by lia.
    f_equal. change (2 ^ 0) with 1. lia.
  - assert (0 < 2 ^ (53 - bits a)) by (apply Z.pow_pos_nonneg; lia).
    rewrite Z.mod_mul, Z.eqb_refl, Z.div_mul by lia. reflexivity.
Qed.

Local Close Scope Z_scope.

Lemma Prim2SF_one : Prim2SF 1%float = canon 1.
Proof. reflexivity. Qed.

Lemma Prim2SF_small (a : Z) :
  (0 <= a < 2 ^ 53)%Z ->
  Prim2SF (number_of_Z a)
  = match a with Zpos p => canon p | _ => S754_zero false end.
Proof.
  intros [L U]. destruct a as [|p|p]; [reflexivity| |lia].
  apply Prim2SF_number_of_Z, bits_small, U.
Qed.

Lemma number_of_Z_not_nan (a : Z) :
  (0 <= a < 2 ^ 53)%Z -> is_nan (number_of_Z a) = false.
Proof.
  intro H. rewrite is_nan_spec, Prim2SF_small by assumption.
  destruct a; reflexivity.
Qed.

Lemma number_of_Z_ltb (a b : Z) :
  (0 <= a < 2 ^ 53)%Z -> (0 <= b < 2 ^ 53)%Z ->
  (number_of_Z a <? number_of_Z b)%float = (a <? b)%Z.
Proof.
  intros Ha Hb. rewrite ltb_spec, !Prim2SF_small by assumption.
  destruct a as [|p|p], b as [|q|q]; try lia; try reflexivity.
  apply canon_ltb; apply bits_small; lia.
Qed.

Lemma number_of_Z_above_neg_infinity (a : Z) :
  (0 <= a < 2 ^ 53)%Z -> (neg_infinity <? number_of_Z a)%float = true.
Proof.
  intro H. rewrite ltb_spec, Prim2SF_small by assumption.
  destruct a; reflexivity.
Qed.

Lemma number_of_Z_no_negative_zero (a : Z) :
  (0 <= a < 2 ^ 53)%Z ->
  is_zero (number_of_Z a) && get_sign (number_of_Z a) = false.
Proof.
  intro H. destruct a as [|p|p]; [reflexivity| |lia].
  unfold is_zero. rewrite eqb_spec, Prim2SF_small by assumption. reflexivity.
Qed.

Lemma number_of_Z_succ (a : Z) :
  (0 <= a < 2 ^ 53)%Z -> (number_of_Z a + 1)%float = number_of_Z (a + 1).
Proof.
  intros [L U]. destruct a as [|p|p]; [reflexivity| |lia].
  destruct (Z.eq_dec (Zpos p + 1) (2 ^ 53)) as [E|N].
  - replace (Zpos p) with (2 ^ 53 - 1)%Z by lia. reflexivity.
  - apply Prim2SF_inj. rewrite add_spec, Prim2SF_one.
    rewrite (Prim2SF_small (Zpos p)) by lia.
    rewrite (Prim2SF_small (Zpos p + 1)) by lia.
    unfold SF64add. change prec with 53%Z. change emax with 1024%Z.
    rewrite canon_add_one by lia. reflexivity.
Qed.

Lemma integerValue_number_of_Z (a : Z) :
  (0 <= a <= 2 ^ 53)%Z -> integerValue (number_of_Z a) = Some a.
Proof.
  intros [L U]. destruct (Z.eq_dec a (2 ^ 53)) as [->|N]; [reflexivity|].
  unfold integerValue. rewrite Prim2SF_small by lia.
  destruct a as [|p|p]; [reflexivity| |lia].
  unfold canon. rewrite canon_value by (apply bits_small; lia). reflexivity.
Qed.

(** [Math.max] of small integers is their largest. *)
Lemma max_step_small (h x : Z) :
  (0 <= h < 2 ^ 53)%Z -> (0 <= x < 2 ^ 53)%Z ->
  max_step (number_of_Z h) (number_of_Z x) = number_of_Z (Z.max h x).
Proof.
  intros Hh Hx. unfold max_step.
  rewrite (number_of_Z_no_negative_zero h Hh), andb_false_r.
  rewrite number_of_Z_ltb by assumption.
  destruct (Z.ltb_spec h x); f_equal; lia.
Qed.

Lemma fold_max_small (vs : list Z) : forall v,
  (0 <= v < 2 ^ 53)%Z -> Forall (fun x => 0 <= x < 2 ^ 53)%Z vs ->
  fold_left max_step (map number_of_Z vs) (number_of_Z v)
  = number_of_Z (fold_left Z.max vs v)
  /\ (0 <= fold_left Z.max vs v < 2 ^ 53)%Z.
Proof.
  induction vs as [|x vs IH]; intros v Hv Hvs; cbn [fold_left map].
  - split; [reflexivity | exact Hv].
  - inversion Hvs as [|? ? Hx Hr]; subst.
    rewrite max_step_small by assumption. apply IH; [lia | exact Hr].
Qed.

Lemma Math_max_small (v : Z) (vs : list Z) :
  Forall (fun x => 0 <= x < 2 ^ 53)%Z (v :: vs) ->
  Math_max (map number_of_Z (v :: vs)) = number_of_Z (fold_left Z.max vs v)
  /\ (0 <= fold_left Z.max vs v < 2 ^ 53)%Z.
Proof.
  intro H. unfold Math_max.
  assert (N : existsb is_nan (map number_of_Z (v :: vs)) = false).
  { induction H as [|x l Hx Hl IH]; cbn [map existsb]; [reflexivity|].
    rewrite number_of_Z_not_nan by assumption. exact IH. }
  rewrite N. cbn [map fold_left]. inversion H as [|? ? Hv Hvs]; subst.
  unfold max_step at 2.
  replace (is_zero neg_infinity && get_sign neg_infinity) with false
    by reflexivity.
  rewrite andb_false_r, number_of_Z_above_neg_infinity by assumption.
  apply fold_max_small; assumption.
Qed.

End IntegerNumbers.

(** ** Differences

    Subtracting a larger number from a smaller one gives a number that is
    not above 0. *)

Section Differences.

Local Open Scope Z_scope.

Lemma binary_normalize_negative m e :
  m < 0 -> SFsign (binary_normalize 53 1024 m e false) = Some true.
Proof.
  intro H. destruct m as [|p|p]; try lia.
  unfold binary_normalize, binary_round.
  destruct (shl_align p e _). apply binary_round_aux_sign. lia.
Qed.

(** A valid mantissa has at most 53 digits, and exactly 53 above the
    least exponent. *)
Lemma valid_bits m e :
  bounded 53 1024 m e = true ->
  bits m <= 53 /\ -1074 <= e /\ (-1074 < e -> bits m = 53).
Proof.
  unfold bounded, canonical_mantissa, fexp, emin. fold (bits m).
  intro H. apply andb_prop in H. destruct H as [H _]. apply Z.eqb_eq in H. lia.
Qed.

(** The aligned mantissas of two valid numbers are ordered as the numbers
    are, when the first has the smaller exponent or the smaller mantissa. *)
Lemma aligned_lt mx ex my ey :
  bounded 53 1024 mx ex = true -> bounded 53 1024 my ey = true ->
  match ex ?= ey with
  | Lt => True
  | Eq => (mx < my)%positive
  | Gt => False
  end ->
  Zpos (fst (shl_align mx ex (Z.min ex ey))) < Zpos (fst (shl_align my ey (Z.min ex ey))).
Proof.
  intros Vx Vy C.
  apply valid_bits in Vx, Vy. destruct Vx as (Bx & Lx & _), Vy as (By & Ly & Ny).
  destruct (shl_align_value mx ex (Z.min ex ey)) as (mx' & -> & Ex); [lia|].
  destruct (shl_align_value my ey (Z.min ex ey)) as (my' & -> & Ey); [lia|].
  cbn [fst]. rewrite Ex, Ey.
  destruct (Z.compare_spec ex ey) as [E|L|G]; [| |contradiction].
  - subst. rewrite Z.min_id, Z.sub_diag. change (2 ^ 0) with 1. lia.
  - rewrite Z.min_l by lia. rewrite Z.sub_diag. change (2 ^ 0) with 1.
    pose proof (bits_bounds mx) as [_ Ux]. pose proof (bits_bounds my) as [Ly' _].
    rewrite (Ny ltac:(lia)) in Ly'. change (2 ^ (53 - 1)) with 4503599627370496 in Ly'.
    assert (2 ^ bits mx <= 2 ^ 53) by (apply Z.pow_le_mono_r; lia).
    assert (2 ^ 1 <= 2 ^ (ey - ex)) by (apply Z.pow_le_mono_r; lia).
    change (2 ^ 1) with 2 in *. change (2 ^ 53) with 9007199254740992 in *. nia.
Qed.

Lemma SFsub_of_less x y :
  valid_binary x = true -> valid_binary y = true ->
  SFltb x y = true ->
  match SFsub 53 1024 x y with
  | S754_nan => False
  | r => SFltb (S754_zero false) r = false
  end.
Proof.
  intros Vx Vy L. unfold SFltb in L.
  destruct x as [sx|sx| |sx mx ex], y as [sy|sy| |sy my ey];
    cbn [SFcompare] in L; try discriminate.
  all: try solve [destruct sx; try destruct sy; try discriminate; reflexivity].
  all: try solve [destruct sy; try discriminate; reflexivity].
  - cbn [valid_binary] in Vx, Vy. cbn [SFsub].
    assert (N : cond_Zopp sx (Zpos (fst (shl_align mx ex (Z.min ex ey))))
                - cond_Zopp sy (Zpos (fst (shl_align my ey (Z.min ex ey)))) < 0).
    { destruct sx, sy; cbn [cond_Zopp]; try discriminate; try lia.
      - pose proof (aligned_lt my ey mx ex Vy Vx) as A.
        rewrite Z.min_comm, Z.compare_antisym in A.
        destruct (ex ?= ey) eqn:E; cbn [CompOpp] in A; try discriminate.
        + destruct (Pos.compare_cont Eq mx my) eqn:P; try discriminate.
          change (Pos.compare_cont Eq mx my) with (Pos.compare mx my) in P.
          apply Pos.compare_gt_iff in P. specialize (A P). lia.
        + specialize (A I). lia.
      - pose proof (aligned_lt mx ex my ey Vx Vy) as A.
        destruct (ex ?= ey) eqn:E; try discriminate.
        + destruct (Pos.compare_cont Eq mx my) eqn:P; try discriminate.
          change (Pos.compare_cont Eq mx my) with (Pos.compare mx my) in P.
          apply Pos.compare_lt_iff in P. specialize (A P). lia.
        + specialize (A I). lia. }
    pose proof (binary_normalize_negative _ (Z.min ex ey) N) as S.
    destruct (binary_normalize 53 1024 _ (Z.min ex ey) false) as [s|s| |s m e];
      cbn [SFsign] in S; try discriminate; injection S as ->; reflexivity.
Qed.

Local Close Scope Z_scope.

Lemma sub_of_less x y :
  (x <? y)%float = true ->
  is_nan (x - y) = false /\ (0 <? x - y)%float = false.
Proof.
  rewrite ltb_spec. intro L.
  pose proof (SFsub_of_less _ _ (Prim2SF_valid x) (Prim2SF_valid y) L) as S.
  rewrite is_nan_spec, ltb_spec, sub_spec, Prim2SF_zero.
  unfold SF64sub. change prec with 53%Z. change emax with 1024%Z.
  destruct (SFsub 53 1024 (Prim2SF x) (Prim2SF y));
    [split; [reflexivity|exact S]..|contradiction|split; [reflexivity|exact S]].
Qed.

(** [Math.max(0, x - y)] is 0 when [x < y]. *)
Lemma Math_max_zero_of_less x y :
  (x <? y)%float = true -> Math_max [0%float; (x - y)%float] = 0%float.
Proof.
  intro L. apply sub_of_less in L. destruct L as [N P].
  rewrite Math_max_zero, N, P. reflexivity.
Qed.

End Differences.

(** ** The financial model *)

Section FinancialModel.

Context {platform : Platform}.

(** An overpaid invoice: 1000 due, 1500 received, nothing left to pay. *)
Example computeTotals_overpaid :
  computeTotals (sample_invoice 1000 "2025-06-15" [1000%float] [1500%float])
  = {| itemsTotal := 1000; total := 1000; paid := 1500; balance := 0 |}.
Proof. reflexivity. Qed.

(** *** Amounts that are not numbers *)

Lemma or_else_zero_if_nan x : (Number x || 0)%float = (Number (zero_if_nan x) || 0)%float.
Proof.
  unfold zero_if_nan, or_else, truthy, Number.
  destruct (is_nan x) eqn:E.
  - rewrite orb_true_r. reflexivity.
  - rewrite E. reflexivity.
Qed.

Lemma sumAmounts_zero_if_nan {A} (amount : A -> number) (l : list A) :
  sumAmounts amount l = sumAmounts (fun x => zero_if_nan (amount x)) l.
Proof.
  unfold sumAmounts. generalize 0%float at 2 4.
  induction l as [|x l IH]; intro s; cbn [fold_left].
  - reflexivity.
  - rewrite <- (or_else_zero_if_nan (amount x)). apply IH.
Qed.

Lemma sumAmounts_all_nan {A} (amount : A -> number) (l : list A) :
  forallb (fun x => is_nan (amount x)) l = true -> sumAmounts amount l = 0%float.
Proof.
  unfold sumAmounts.
  induction l as [|x l IH]; cbn [fold_left forallb]; intro H.
  - reflexivity.
  - apply andb_prop in H. destruct H as [Hx Hl].
    unfold or_else at 2, truthy, Number. rewrite Hx, orb_true_r. cbn [negb].
    replace (0 + 0)%float with 0%float by reflexivity. auto.
Qed.

(** C10, as the code has it.  [computeTotals] gives a result for every
    invoice.  An amount that is [NaN] counts as 0 in its sum, so a list of
    nothing but [NaN] amounts sums to 0; while no amount is infinite,
    [itemsTotal] and [paid] are numbers and not [NaN]; and a [total_amount]
    that is not finite is passed over for [itemsTotal].  (The sums may
    still overflow to an infinity, and the balance may be [NaN]: see
    [computeTotals_not_finite].) *)
Theorem computeTotals_nan_counts_as_zero (invoice : Invoice) :
  let t := computeTotals invoice in
  itemsTotal t
    = sumAmounts (fun it => zero_if_nan (item_amount it)) (items invoice ?? [])
  /\ paid t
    = sumAmounts (fun p => zero_if_nan (payment_amount p)) (payments invoice ?? [])
  /\ (forallb (fun it => is_nan (item_amount it)) (items invoice ?? []) = true ->
      itemsTotal t = 0%float)
  /\ (forallb (fun p => is_nan (payment_amount p)) (payments invoice ?? []) = true ->
      paid t = 0%float)
  /\ (forallb (fun it => negb (is_infinity (item_amount it))) (items invoice ?? [])
      = true ->
      Number_isNaN (itemsTotal t) = false)
  /\ (forallb (fun p => negb (is_infinity (payment_amount p))) (payments invoice ?? [])
      = true ->
      Number_isNaN (paid t) = false)
  /\ (Number_isFinite (total_amount invoice) = false -> total t = itemsTotal t).
Proof.
  cbv zeta. unfold computeTotals. cbn [itemsTotal paid total].
  repeat split.
  - apply sumAmounts_zero_if_nan.
  - apply sumAmounts_zero_if_nan.
  - apply sumAmounts_all_nan.
  - apply sumAmounts_all_nan.
  - apply sumAmounts_not_nan.
  - apply sumAmounts_not_nan.
  - intros ->. reflexivity.
Qed.

(** Amounts that are not numbers, and a cached total that is not finite. *)
Example computeTotals_nan_amounts :
  computeTotals (sample_invoice infinity "2025-06-15" [nan; 250%float; nan] [nan])
  = {| itemsTotal := 250; total := 250; paid := 0; balance := 250 |}.
Proof. reflexivity. Qed.

(** C10 fails as stated: two items and two payments of 2^1023 each, all of
    them finite numbers, give an infinite [itemsTotal] and [paid] and a
    [balance] that is [NaN]. *)
Lemma computeTotals_not_finite :
  let big := 0x1p+1023%float in
  let t := computeTotals (sample_invoice 0 "2025-06-15" [big; big] [big; big]) in
  Number_isFinite big = true
  /\ Number_isFinite (itemsTotal t) = false
  /\ Number_isFinite (paid t) = false
  /\ Number_isFinite (balance t) = false
  /\ Number_isNaN (balance t) = true.
Proof. cbv zeta. repeat split. Qed.

End FinancialModel.

(** ** Purity *)

Section Purity.

Context {platform : Platform}.

Lemma sumAmounts_map {A} (amount : A -> number) (l : list A) :
  sumAmounts amount l = sumAmounts (fun a => a) (map amount l).
Proof.
  unfold sumAmounts. generalize 0%float at 2 4.
  induction l as [|x l IH]; intro s; cbn [fold_left map]; auto.
Qed.

(** C6, as the code has it.  The result of [computeTotals] is determined by
    the cached total and the amounts of the items and payments of its
    argument, and by nothing else.  The result of [deriveStatus] is
    determined by the same, the due date and the calendar day on which it
    runs: two calls on an unchanged invoice agree whenever they fall on the
    same day. *)
Theorem totals_and_status_determined (i j : Invoice) (now1 now2 : Z) :
  total_amount i = total_amount j ->
  map item_amount (items i ?? []) = map item_amount (items j ?? []) ->
  map payment_amount (payments i ?? []) = map payment_amount (payments j ?? []) ->
  due_date i = due_date j ->
  Date_startOfDay now1 = Date_startOfDay now2 ->
  computeTotals i = computeTotals j
  /\ deriveStatus now1 i = deriveStatus now2 j.
Proof.
  intros Ht Hi Hp Hd Hn.
  assert (T : computeTotals i = computeTotals j).
  { unfold computeTotals.
    rewrite (sumAmounts_map item_amount (items i ?? [])), Hi,
            <- (sumAmounts_map item_amount).
    rewrite (sumAmounts_map payment_amount (payments i ?? [])), Hp,
            <- (sumAmounts_map payment_amount).
    rewrite Ht. reflexivity. }
  split; [exact T|].
  unfold deriveStatus. rewrite T, Hd, Hn. reflexivity.
Qed.

End Purity.

(** ** The repository *)

Section Repository.

Context {platform : Platform}.

(** [load] never throws and leaves the state as it is. *)
Lemma load_returns (w : World) : load w = (Normal (stored w), w).
Proof.
  unfold load, try_catch, bind, localStorage_getItem, stored, JSON_parse_text.
  destruct (lookup STORAGE_KEY (localStorage w)) as [raw|]; [|reflexivity].
  destruct (nonEmpty raw); cbn [negb]; [|reflexivity].
  destruct (JSON_parse raw); reflexivity.
Qed.

Lemma save_returns (store : Store) (w : World) :
  save store w = (Normal tt, saved store w).
Proof. reflexivity. Qed.

Lemma bind_normal {A B} (m : M A) (k : A -> M B) w a w' :
  m w = (Normal a, w') -> bind m k w = k a w'.
Proof. unfold bind. intros ->. reflexivity. Qed.

Lemma uuid_returns (w : World) :
  uuid w = (Normal (fst (uuid_draw (random w))),
            {| localStorage := localStorage w; clock := clock w;
               random := snd (uuid_draw (random w)) |}).
Proof. unfold uuid. destruct (uuid_draw (random w)); reflexivity. Qed.

(** Runs the leading steps of an operation: loading, drawing an
    identifier, reading the clock and saving all return. *)
Ltac run :=
  repeat first
    [ erewrite bind_normal by apply load_returns
    | erewrite bind_normal by apply uuid_returns
    | erewrite bind_normal by apply save_returns
    | erewrite bind_normal by reflexivity ].

Lemma find_none_of_has_id invoiceId l :
  has_id invoiceId l = false ->
  find (fun i => String.eqb (id i) invoiceId) l = None.
Proof.
  unfold has_id. induction l as [|x l IH]; cbn [existsb find]; intro H.
  - reflexivity.
  - apply orb_false_elim in H. destruct H as [-> H]. auto.
Qed.

Lemma filter_without_id invoiceId l :
  has_id invoiceId l = false ->
  filter (fun i => negb (String.eqb (id i) invoiceId)) l = l.
Proof.
  unfold has_id. induction l as [|x l IH]; cbn [existsb filter]; intro H.
  - reflexivity.
  - apply orb_false_elim in H. destruct H as [-> H]. cbn [negb].
    f_equal. auto.
Qed.

(** C7. When no stored invoice has the given id, [addInvoiceItem] and
    [recordPayment] both throw the error "Invoice not found" and leave the
    state, and with it the persisted collection, exactly as it was. *)
Theorem mutation_of_missing_invoice (w : World) (invoiceId : UUID)
    (description : string) (amount : number) (input : RecordPaymentInput) :
  has_id invoiceId (invoices (stored w)) = false ->
  addInvoiceItem invoiceId description amount w
    = (Throw (Error "Invoice not found"), w)
  /\ recordPayment invoiceId input w
    = (Throw (Error "Invoice not found"), w).
Proof.
  intro H. apply find_none_of_has_id in H.
  unfold addInvoiceItem, recordPayment. run. rewrite H. split; reflexivity.
Qed.

(** C8. [deleteInvoice] always returns, and what it saves is the stored
    collection without the invoices of the given id, the others kept in
    order: the collection itself when the id is absent, and the collection
    less that one invoice when exactly one invoice has the id. *)
Theorem deleteInvoice_removes (w : World) (invoiceId : UUID) :
  let kept := filter (fun i => negb (String.eqb (id i) invoiceId))
                (invoices (stored w)) in
  deleteInvoice invoiceId w = (Normal tt, saved {| invoices := kept |} w)
  /\ (has_id invoiceId (invoices (stored w)) = false ->
      kept = invoices (stored w))
  /\ (forall i, In i kept <-> In i (invoices (stored w)) /\ id i <> invoiceId)
  /\ (forall before inv after,
        invoices (stored w) = before ++ inv :: after ->
        id inv = invoiceId ->
        has_id invoiceId before = false -> has_id invoiceId after = false ->
        kept = before ++ after).
Proof.
  cbv zeta. repeat split.
  - unfold deleteInvoice. run. reflexivity.
  - apply filter_without_id.
  - apply filter_In in H. tauto.
  - apply filter_In in H. destruct H as [_ H].
    apply negb_true_iff in H. apply String.eqb_neq in H. exact H.
  - intros [Hin Hne]. apply filter_In. split; [exact Hin|].
    apply negb_true_iff. apply String.eqb_neq. exact Hne.
  - intros before inv after -> Hid Hb Ha.
    rewrite filter_app. cbn [filter]. rewrite Hid, String.eqb_refl. cbn [negb].
    rewrite (filter_without_id _ _ Hb), (filter_without_id _ _ Ha). reflexivity.
Qed.

(** *** Unreadable storage *)

Lemma stored_unreadable (w : World) :
  unreadable w = true -> stored w = {| invoices := [] |}.
Proof.
  unfold unreadable, stored.
  destruct (lookup STORAGE_KEY (localStorage w)) as [raw|]; [|reflexivity].
  destruct (JSON_parse raw); [discriminate|].
  destruct (nonEmpty raw); reflexivity.
Qed.

Lemma lookup_store_at k v l : lookup k (store_at k v l) = Some v.
Proof.
  unfold lookup. induction l as [|[k' v'] l IH]; cbn [store_at find fst snd].
  - rewrite String.eqb_refl. reflexivity.
  - destruct (String.eqb k' k) eqn:E; cbn [find fst snd].
    + rewrite String.eqb_refl. reflexivity.
    + rewrite E. exact IH.
Qed.

(** Drawing identifiers returns and touches neither storage nor clock. *)
Lemma mapM_uuid_returns {A B} (make : A -> UUID -> B) (l : list A) (w : World) :
  exists ys w',
    mapM (fun x => bind uuid (fun u => ret (make x u))) l w = (Normal ys, w')
    /\ localStorage w' = localStorage w /\ clock w' = clock w.
Proof.
  revert w. induction l as [|x l IH]; intro w; cbn [mapM].
  - exists [], w. repeat split.
  - erewrite bind_normal
      by (erewrite bind_normal by apply uuid_returns; reflexivity).
    match goal with |- context [bind (mapM _ l) _ ?w1] =>
      destruct (IH w1) as (ys & w' & E & Hs & Hc) end.
    erewrite bind_normal by exact E.
    eexists. eexists. split; [reflexivity|]. split; assumption.
Qed.

(** [createInvoice] returns an unpaid invoice that carries the next number,
    and saves the stored collection with that invoice at its end. *)
Lemma createInvoice_returns (input : CreateInvoiceInput) (w : World) :
  exists inv w',
    createInvoice input w = (Normal inv, w')
    /\ status inv = Some Unpaid
    /\ payments inv = Some []
    /\ due_date inv = create_due_date input
    /\ invoice_number inv = nextInvoiceNumber (clock w) (invoices (stored w))
    /\ lookup STORAGE_KEY (localStorage w')
       = Some (JSON_stringify {| invoices := invoices (stored w) ++ [inv] |}).
Proof.
  unfold createInvoice. run. cbn [clock].
  match goal with |- context [bind (mapM ?f ?l) _ ?w1] =>
    destruct (mapM_uuid_returns
                (fun it iid => {| item_id := iid;
                                  item_invoice_id := fst (uuid_draw (random w));
                                  item_description := input_description it;
                                  item_amount := Number (input_amount it) |})
                l w1) as (ys & w' & E & Hs & Hc) end.
  erewrite bind_normal by exact E. run.
  eexists. eexists. split; [reflexivity|].
  cbn [status payments due_date invoice_number localStorage saved].
  repeat split. apply lookup_store_at.
Qed.

(** C9. When the persisted value is missing or cannot be parsed, [load]
    returns the empty store without throwing, and every operation of the
    repository does what it does on an empty store: nothing is listed or
    found, the two mutations of an invoice report that it is missing,
    deletion saves the empty collection, and creation saves a collection of
    the one new invoice, numbered as the first of its year. *)
Theorem load_of_unreadable_storage (w : World) :
  unreadable w = true ->
  load w = (Normal {| invoices := [] |}, w)
  /\ (forall filters, listInvoices filters w = (Normal [], w))
  /\ (forall invoiceId, getInvoice invoiceId w = (Normal None, w))
  /\ (forall invoiceId description amount,
        addInvoiceItem invoiceId description amount w
        = (Throw (Error "Invoice not found"), w))
  /\ (forall invoiceId input,
        recordPayment invoiceId input w
        = (Throw (Error "Invoice not found"), w))
  /\ (forall invoiceId,
        deleteInvoice invoiceId w = (Normal tt, saved {| invoices := [] |} w))
  /\ (forall input, exists inv w',
        createInvoice input w = (Normal inv, w')
        /\ invoice_number inv = nextInvoiceNumber (clock w) []
        /\ lookup STORAGE_KEY (localStorage w')
           = Some (JSON_stringify {| invoices := [inv] |})).
Proof.
  intro H. apply stored_unreadable in H.
  assert (L : load w = (Normal {| invoices := [] |}, w))
    by (rewrite load_returns, H; reflexivity).
  repeat split.
  - exact L.
  - intro filters. unfold listInvoices, bind. rewrite L.
    unfold Date_now, ret. cbn [invoices].
    destruct filters as [[[[|s]|] q f t]|]; cbn [filter];
      repeat match goal with |- context [given ?x] => destruct (given x) end;
      reflexivity.
  - intro invoiceId. unfold getInvoice, bind. rewrite L. reflexivity.
  - intros. unfold addInvoiceItem, bind. rewrite L. reflexivity.
  - intros. unfold recordPayment, bind. rewrite L. reflexivity.
  - intros. unfold deleteInvoice, bind. rewrite L. reflexivity.
  - intro input.
    destruct (createInvoice_returns input w) as (inv & w' & E & _ & _ & _ & Hn & Hs).
    rewrite H in Hn, Hs. exists inv, w'. repeat split; assumption.
Qed.

(** *** The status of the invoices handed back *)

(** Caching the computed total in [total_amount] changes no total. *)
Lemma computeTotals_cached (i j : Invoice) :
  items j = items i -> payments j = payments i ->
  total_amount j = total (computeTotals i) ->
  computeTotals j = computeTotals i.
Proof.
  intros Hi Hp Ht. unfold computeTotals in *. cbn [total] in Ht.
  rewrite Hi, Hp, Ht.
  destruct (Number_isFinite (total_amount i) && gt (total_amount i) 0) eqn:E.
  - rewrite E. reflexivity.
  - match goal with |- context [if ?c then _ else _] => destruct c end;
      reflexivity.
Qed.

Lemma deriveStatus_ext (now : Z) (i j : Invoice) :
  computeTotals j = computeTotals i -> due_date j = due_date i ->
  deriveStatus now j = deriveStatus now i.
Proof. unfold deriveStatus. intros -> ->. reflexivity. Qed.

Lemma computeTotals_set_status (i : Invoice) (v : InvoiceStatus) :
  computeTotals (set_status i v) = computeTotals i.
Proof. reflexivity. Qed.

Lemma computeTotals_set_total (i : Invoice) :
  computeTotals (set_total_amount i (total (computeTotals i))) = computeTotals i.
Proof. apply computeTotals_cached; reflexivity. Qed.




Lemma listInvoices_returns (filters : option InvoiceFilters) (w : World) :
  exists data,
    listInvoices filters w = (Normal (map (refreshed (clock w)) data), w)
    /\ incl data (invoices (stored w)).
Proof.
  unfold listInvoices. run. unfold ret. eexists. split; [reflexivity|].
  repeat match goal with
         | |- incl (match ?x with _ => _ end) _ => destruct x
         | |- incl (filter _ _) _ =>
             eapply incl_tran; [apply incl_filter|]
         end; apply incl_refl.
Qed.

(** *** The status in calendar days

    A text of the form [YYYY-MM-DD] is read by [new Date] as the start of
    that day in UTC, and [new Date(today.toDateString())] is the start of
    the current day in local time.  Where local time is not behind UTC the
    one instant lies before the other exactly when the day lies before the
    current day. *)

Section InZone.

Variable zone : Z.

Hypothesis not_behind_UTC : (0 <= zone < Fixture.msPerDay)%Z.

Hypothesis dates_read_in_UTC : forall s,
  Date_parse s = option_map (fun d => (d * Fixture.msPerDay)%Z) (day_named s).

Hypothesis days_start_in_local_time : forall t,
  Date_startOfDay t = (today zone t * Fixture.msPerDay - zone)%Z.





End InZone.

End Repository.

(** ** Allocation of invoice numbers *)

Section Allocation.

Context {platform : Platform}.

Lemma digitsValue_nonneg (s : string) : forall seen acc v,
  (0 <= acc)%Z -> digitsValue s seen acc = Some v -> (0 <= v)%Z.
Proof.
  induction s as [|c s IH]; intros seen acc v Hacc; cbn [digitsValue].
  - destruct seen; [intros [= <-]; exact Hacc | discriminate].
  - unfold digitValue.
    destruct ((48 <=? Z.of_N (N_of_ascii c)) && (Z.of_N (N_of_ascii c) <=? 57))%Z eqn:E.
    + apply IH. apply andb_prop in E. destruct E as [E1 E2].
      apply Z.leb_le in E1. lia.
    + destruct seen; [intros [= <-]; exact Hacc | discriminate].
Qed.

Lemma parseInt_parts_nonneg (s : string) neg v :
  parseInt_parts s = Some (neg, v) -> (0 <= v)%Z.
Proof.
  unfold parseInt_parts.
  destruct (match trimStart s with
            | String "-" r => (true, r)
            | String "+" r => (false, r)
            | _ => (false, trimStart s)
            end) as [n r].
  destruct (digitsValue r false 0) as [x|] eqn:E; [|discriminate].
  intros [= _ <-]. eapply digitsValue_nonneg; [|exact E]. lia.
Qed.

Lemma Number_toString_small (a : Z) :
  (0 <= a <= 2 ^ 53)%Z -> Number_toString (number_of_Z a) = decimal a.
Proof.
  intro H. destruct (Z.eq_dec a (2 ^ 53)) as [->|N]; [reflexivity|].
  unfold Number_toString. rewrite integerValue_number_of_Z by assumption.
  replace (Z.abs a <=? 2 ^ 53)%Z with true by (symmetry; apply Z.leb_le; lia).
  rewrite Prim2SF_small by lia. destruct a; reflexivity.
Qed.

(** Within the safe range, the numbers the code collects are the suffixes
    of the specification. *)
Lemma collected_numbers (year : Z) (existing : list Invoice) :
  safe_numbers year existing = true ->
  filter (fun n => negb (Number_isNaN n))
    (map (fun n => parseInt (substring_from (String.length (year_prefix year)) n))
       (filter (fun n => startsWith n (year_prefix year))
          (map invoice_number existing)))
  = map number_of_Z (spec_suffixes (year_prefix year) existing)
  /\ Forall (fun x => 0 <= x < 2 ^ 53)%Z (spec_suffixes (year_prefix year) existing).
Proof.
  unfold safe_numbers, spec_suffixes.
  induction existing as [|i l IH]; cbn [forallb map filter flat_map]; intro H.
  - split; [reflexivity | constructor].
  - apply andb_prop in H. destruct H as [Hi Hl]. specialize (IH Hl).
    destruct IH as [IH1 IH2].
    destruct (startsWith (invoice_number i) (year_prefix year));
      [|cbn [app]; split; assumption].
    cbn [implb] in Hi. cbn [map filter].
    unfold safe_suffix in Hi. unfold parseInt, suffix_value.
    destruct (parseInt_parts _) as [[neg v]|] eqn:E.
    + apply andb_prop in Hi. destruct Hi as [Hn Hv].
      destruct neg; [discriminate|]. apply Z.ltb_lt in Hv.
      pose proof (parseInt_parts_nonneg _ _ _ E) as Hp.
      unfold Number_isNaN at 1. rewrite number_of_Z_not_nan by lia.
      cbn [negb app map].
      split; [f_equal; exact IH1 | constructor; [lia | exact IH2]].
    + replace (Number_isNaN nan) with true by reflexivity. cbn [negb app].
      split; assumption.
Qed.

Lemma filter_map_commute {A B} (f : A -> B) (p : B -> bool) (l : list A) :
  filter p (map f l) = map f (filter (fun x => p (f x)) l).
Proof.
  induction l as [|x l IH]; cbn [map filter]; [reflexivity|].
  destruct (p (f x)); cbn [map]; congruence.
Qed.

Lemma filter_twice {A} (p : A -> bool) (l : list A) :
  filter p (filter p l) = filter p l.
Proof.
  induction l as [|x l IH]; cbn [filter]; [reflexivity|].
  destruct (p x) eqn:E; cbn [filter]; rewrite ?E; congruence.
Qed.

(** C5, as the code has it.  While every suffix of the year reads as an
    unsigned integer below 2^53, the allocator returns what the
    specification words: the prefix of the current year, then the largest
    such suffix plus one (one if there is none), padded with zeros to at
    least four digits.  In any case its result is that for the invoices of
    the current year alone, so numbers of other years have no effect. *)
Theorem nextInvoiceNumber_allocates (now : Z) (existing : list Invoice) :
  let year := Date_getFullYear now in
  (safe_numbers year existing = true ->
   nextInvoiceNumber now existing = spec_nextInvoiceNumber year existing)
  /\ nextInvoiceNumber now existing = nextInvoiceNumber now (of_year year existing)
  /\ (of_year year existing = [] ->
      nextInvoiceNumber now existing = (year_prefix year ++ "0001")%string).
Proof.
  cbv zeta. split; [|split].
  - intro H. apply collected_numbers in H. destruct H as [E R].
    unfold nextInvoiceNumber, spec_nextInvoiceNumber. fold (year_prefix (Date_getFullYear now)).
    cbv zeta. rewrite E. f_equal. f_equal.
    destruct (spec_suffixes _ existing) as [|v vs]; [reflexivity|].
    destruct (Math_max_small v vs R) as [-> B]. cbn [map].
    rewrite number_of_Z_succ by assumption.
    apply Number_toString_small. lia.
  - unfold nextInvoiceNumber, of_year. cbv zeta.
    fold (year_prefix (Date_getFullYear now)).
    rewrite !filter_map_commute, filter_twice. reflexivity.
  - unfold nextInvoiceNumber, of_year. cbv zeta.
    fold (year_prefix (Date_getFullYear now)).
    rewrite !filter_map_commute. intros ->. reflexivity.
Qed.

End Allocation.

(** ** Pagination *)

Module PdfFacts.

Import Pdf PdfScenario.

(** C3 on the code.  For an image 3000 high on pages 1000 high the loop
    ends after two rounds and the document has three pages, but the image
    is placed at the heights 0, -0 and -1000, not at 0, -1000 and -2000:
    the second page repeats the first, and the last third of the image is
    on no page. *)
Theorem exportElementToPDF_three_pages (fuel : nat) :
  let canvas := {| canvas_width := 1000; canvas_height := 3000 |} in
  let size := {| pageWidth := 1000; pageHeight := 1000 |} in
  exportElementToPDF (2 + fuel) canvas size
  = Some [[image_at 0]; [image_at (-0)]; [image_at (-1000)]]
  /\ option_map (@List.length Page) (exportElementToPDF (2 + fuel) canvas size)
     = Some 3%nat
  /\ option_map (map (map at_y)) (exportElementToPDF (2 + fuel) canvas size)
     = Some [[0%float]; [(-0)%float]; [(-1000)%float]]
  /\ map (map at_y) spec_pages = [[0%float]; [(-1000)%float]; [(-2000)%float]].
Proof. cbv zeta. destruct fuel; repeat split. Qed.

End PdfFacts.

(** ** The operations on the concrete platform *)

Module Concrete.

Import Fixture Scenario.



(** Texts and the days they name: 2025-06-15 is day 20254 from
    1970-01-01; the thirtieth of February and a text in another form name
    no day. *)
Example day_named_samples :
  day_named "1970-01-01" = Some 0%Z
  /\ day_named "2025-06-15" = Some 20254%Z
  /\ day_named "2024-02-29" = Some 19782%Z
  /\ day_named "2025-02-30" = None
  /\ day_named "15/06/2025" = None.
Proof. vm_compute. repeat split. Qed.



(** What [recordPayment] hands back for an invoice of total 0: [Paid],
    where the status derived from that very invoice is [Unpaid]. *)
Example recordPayment_on_total_zero :
  match fst (@recordPayment browser "a"
               {| pay_amount := 0; pay_date := "2025-06-15"; pay_method := "UPI" |}
               (holding blank_store june15)) with
  | Normal inv =>
      status inv = Some Paid /\ @deriveStatus browser june15 inv = Unpaid
  | Throw _ => False
  end.
Proof. vm_compute. repeat split. Qed.

(** C4 on the code.  The stored invoice [stale] is overdue, yet filtering
    by [Overdue] lists nothing, and filtering by [Unpaid] lists that
    invoice, handed back with the status [Overdue]: the filter reads the
    status stored on the record. *)
Theorem listInvoices_filters_on_stored_status :
  @deriveStatus browser june15 stale = Overdue
  /\ fst (@listInvoices browser (only Overdue) (holding stale_store june15))
     = Normal []
  /\ fst (@listInvoices browser (only Unpaid) (holding stale_store june15))
     = Normal [set_status stale Overdue].
Proof. vm_compute. repeat split. Qed.

(** The scenario of the specification: 400 of 1000 paid is [Overdue] the
    day after the due date and [Unpaid] before it; paid in full it is
    [Paid] whatever the due date. *)
Example deriveStatus_scenario :
  @deriveStatus browser june15
     (sample_invoice 1000 "2025-06-14" [1000%float] [400%float]) = Overdue
  /\ @deriveStatus browser june15
       (sample_invoice 1000 "2025-06-16" [1000%float] [400%float]) = Unpaid
  /\ @deriveStatus browser june15
       (sample_invoice 1000 "2025-06-14" [1000%float] [400%float; 600%float]) = Paid.
Proof. vm_compute. repeat split. Qed.

(** C6 fails as stated: the same invoice, due on 2025-06-15 with 400 of
    1000 paid, is [Unpaid] when [deriveStatus] runs on that day and
    [Overdue] when it runs a day later. *)
Lemma deriveStatus_reads_the_clock :
  let inv := sample_invoice 1000 "2025-06-15" [1000%float] [400%float] in
  @deriveStatus browser june15 inv = Unpaid
  /\ @deriveStatus browser june16 inv = Overdue.
Proof. vm_compute. split; reflexivity. Qed.

(** Two calls on one invoice, a second apart on 2025-06-15. *)
Lemma totals_and_status_determined_witness :
  let inv := sample_invoice 1000 "2025-06-15" [1000%float] [400%float] in
  startOfDay june15 = startOfDay (june15 + 1000)
  /\ computeTotals inv = computeTotals inv
  /\ @deriveStatus browser june15 inv = @deriveStatus browser (june15 + 1000) inv.
Proof.
  cbv zeta. split; [reflexivity|].
  apply (@totals_and_status_determined browser); reflexivity.
Defined.

(** No invoice of the stored collection has the id ["zzz"]. *)
Lemma mutation_of_missing_invoice_witness :
  @has_id "zzz" (invoices (@stored browser (holding stale_store june15))) = false
  /\ @addInvoiceItem browser "zzz" "Toll" 50 (holding stale_store june15)
     = (Throw (Error "Invoice not found"), holding stale_store june15)
  /\ @recordPayment browser "zzz"
       {| pay_amount := 50; pay_date := "2025-06-15"; pay_method := "UPI" |}
       (holding stale_store june15)
     = (Throw (Error "Invoice not found"), holding stale_store june15).
Proof.
  split; [reflexivity|].
  apply (@mutation_of_missing_invoice browser). reflexivity.
Defined.

(** Deleting an absent id saves the collection as it was; deleting the id
    of the stored invoice saves the empty collection. *)
Example deleteInvoice_absent_and_present :
  snd (@deleteInvoice browser "zzz" (holding stale_store june15))
  = holding stale_store june15
  /\ snd (@deleteInvoice browser "a" (holding stale_store june15))
     = holding {| invoices := [] |} june15.
Proof. split; reflexivity. Qed.

(** Storage that holds a text which is not JSON. *)
Lemma load_of_unreadable_storage_witness :
  let w := world_holding (Some "{oops") june15 in
  @unreadable browser w = true
  /\ @load browser w = (Normal {| invoices := [] |}, w).
Proof.
  cbv zeta. split; [reflexivity|].
  apply (@load_of_unreadable_storage browser). reflexivity.
Defined.

(** The gap at 0002 is not filled, and the number of 2024 plays no part. *)
Example nextInvoiceNumber_after_gap :
  @nextInvoiceNumber browser june15 after_gap = "INV-2025-0004".
Proof. reflexivity. Qed.

(** The first invoice of a year. *)
Example nextInvoiceNumber_new_year :
  @nextInvoiceNumber browser june15 [numbered "INV-2024-0007"] = "INV-2025-0001".
Proof. reflexivity. Qed.

Lemma nextInvoiceNumber_allocates_witness :
  safe_numbers 2025 after_gap = true
  /\ @nextInvoiceNumber browser june15 after_gap
     = spec_nextInvoiceNumber 2025 after_gap.
Proof.
  split; [reflexivity|].
  exact (proj1 (@nextInvoiceNumber_allocates browser june15 after_gap) eq_refl).
Defined.

(** C5 fails as stated.  From the largest suffix 2^53 the allocator
    returns that very number again, not its successor; and from 9999 it
    returns a suffix of five digits. *)
Lemma nextInvoiceNumber_beyond_safe_range :
  @nextInvoiceNumber browser june15 [numbered "INV-2025-9007199254740992"]
  = "INV-2025-9007199254740992"
  /\ spec_nextInvoiceNumber 2025 [numbered "INV-2025-9007199254740992"]
     = "INV-2025-9007199254740993"
  /\ @nextInvoiceNumber browser june15 [numbered "INV-2025-9999"]
     = "INV-2025-10000".
Proof. repeat split. Qed.

End Concrete.

(* ================================================================== *)
(** * Further properties of the repository *)

Ltac steps :=
  repeat first
    [ erewrite bind_normal by apply load_returns
    | erewrite bind_normal by apply uuid_returns
    | erewrite bind_normal by apply save_returns
    | erewrite bind_normal by reflexivity ].

(** ** Storage *)

Section StorageFacts.

Context {platform : Platform}.

Lemma lookup_store_at_other k k' v l :
  String.eqb k' k = false -> lookup k' (store_at k v l) = lookup k' l.
Proof.
  intro N. unfold lookup.
  induction l as [|[k0 v0] l IH]; cbn [store_at find fst snd].
  - rewrite String.eqb_sym, N. reflexivity.
  - destruct (String.eqb k0 k) eqn:E; cbn [find fst snd].
    + apply String.eqb_eq in E. subst k0.
      rewrite (String.eqb_sym k k'), N. reflexivity.
    + destruct (String.eqb k0 k'); [reflexivity | exact IH].
Qed.

Lemma store_at_twice k v v' l : store_at k v' (store_at k v l) = store_at k v' l.
Proof.
  induction l as [|[k0 v0] l IH]; cbn [store_at].
  - rewrite String.eqb_refl. reflexivity.
  - destruct (String.eqb k0 k) eqn:E; cbn [store_at].
    + rewrite String.eqb_refl. reflexivity.
    + rewrite E, IH. reflexivity.
Qed.

Lemma stored_saved (s : Store) (w : World) : reads_back s -> stored (saved s w) = s.
Proof.
  intros [Hn Hp]. unfold stored, saved. cbn [localStorage].
  rewrite lookup_store_at, Hn, Hp. reflexivity.
Qed.

(** X1.  What [save] wrote is what [load] reads next, on a platform whose
    [JSON.parse] gives back the store [JSON.stringify] wrote; a second
    [save] replaces the first; and [save] changes no other key of
    [localStorage]. *)
Theorem save_then_load (s : Store) (w : World) :
  reads_back s ->
  (save s ;;; load) w = (Normal s, saved s w)
  /\ (forall s', (save s' ;;; save s) w = save s w)
  /\ (forall k, String.eqb k STORAGE_KEY = false ->
        lookup k (localStorage (snd (save s w))) = lookup k (localStorage w)).
Proof.
  intro H. split; [|split].
  - steps. rewrite load_returns, stored_saved by exact H. reflexivity.
  - intro s'. steps. rewrite !save_returns. unfold saved. cbn [localStorage clock random].
    rewrite store_at_twice. reflexivity.
  - intros k N. rewrite save_returns. cbn [snd saved localStorage].
    apply lookup_store_at_other. exact N.
Qed.

End StorageFacts.

(** ** Creation *)

Section Creation.

Context {platform : Platform}.

Lemma mapM_uuid_made {A B} (make : A -> UUID -> B) (l : list A) : forall w,
  exists us w',
    mapM (fun x => bind uuid (fun u => ret (make x u))) l w
    = (Normal (map (fun p => make (fst p) (snd p)) (combine l us)), w')
    /\ List.length us = List.length l
    /\ localStorage w' = localStorage w /\ clock w' = clock w.
Proof.
  induction l as [|x l IH]; intro w; cbn [mapM].
  - exists [], w. repeat split.
  - erewrite bind_normal
      by (erewrite bind_normal by apply uuid_returns; reflexivity).
    match goal with |- context [bind (mapM _ l) _ ?w1] =>
      destruct (IH w1) as (us & w' & E & Hl & Hs & Hc) end.
    exists (fst (uuid_draw (random w)) :: us), w'.
    erewrite bind_normal by exact E. unfold ret.
    cbn [combine map fst snd List.length localStorage clock] in *.
    rewrite Hl, Hs, Hc. repeat split.
Qed.

Lemma createInvoice_result (input : CreateInvoiceInput) (w : World) :
  exists us w1,
    List.length us = List.length (create_items input)
    /\ localStorage w1 = localStorage w /\ clock w1 = clock w
    /\ let id0 := fst (uuid_draw (random w)) in
       let items0 := map (item_of id0) (combine (create_items input) us) in
       let inv :=
         {| id := id0; booking_id := create_booking_id input;
            invoice_number := nextInvoiceNumber (clock w) (invoices (stored w));
            total_amount := sumAmounts item_amount items0;
            due_date := create_due_date input; status := Some Unpaid;
            items := Some items0; payments := Some [] |} in
       createInvoice input w
       = (Normal inv, saved {| invoices := invoices (stored w) ++ [inv] |} w1).
Proof.
  unfold createInvoice. steps.
  match goal with |- context [bind (mapM ?f ?l) _ ?w0] =>
    destruct (mapM_uuid_made
                (fun it u => {| item_id := u;
                                item_invoice_id := fst (uuid_draw (random w));
                                item_description := input_description it;
                                item_amount := Number (input_amount it) |})
                l w0) as (us & w1 & E & Hl & Hs & Hc)
  end.
  exists us, w1. cbn [localStorage clock] in Hs, Hc.
  split; [exact Hl|]. split; [exact Hs|]. split; [exact Hc|].
  cbv zeta. erewrite bind_normal by exact E. steps. reflexivity.
Qed.

Lemma sumAmounts_ext {A B} (f : A -> number) (g : B -> number) l l' :
  map f l = map g l' -> sumAmounts f l = sumAmounts g l'.
Proof.
  intro H. rewrite (sumAmounts_map f), (sumAmounts_map g), H. reflexivity.
Qed.

Lemma map_fst_combine {A B} (l : list A) : forall (us : list B),
  List.length us = List.length l -> map fst (combine l us) = l.
Proof.
  induction l as [|x l IH]; intros [|u us] H; try discriminate; [reflexivity|].
  cbn [combine map fst]. f_equal. apply IH. injection H. trivial.
Qed.

(** X2.  [createInvoice] never throws.  The invoice it returns has one item
    per line of the input, in order, with the description and the amount of
    the line and with the identifier of the invoice as [invoice_id]; its
    total is the sum of the amounts of the input; it has no payment; and it
    is stored after the invoices which storage held. *)
Theorem createInvoice_items (input : CreateInvoiceInput) (w : World) :
  exists inv its w',
    createInvoice input w = (Normal inv, w')
    /\ items inv = Some its
    /\ map item_description its = map input_description (create_items input)
    /\ map item_amount its = map input_amount (create_items input)
    /\ Forall (fun it => item_invoice_id it = id inv) its
    /\ total_amount inv = sumAmounts input_amount (create_items input)
    /\ payments inv = Some []
    /\ booking_id inv = create_booking_id input
    /\ due_date inv = create_due_date input
    /\ lookup STORAGE_KEY (localStorage w')
       = Some (JSON_stringify {| invoices := invoices (stored w) ++ [inv] |}).
Proof.
  destruct (createInvoice_result input w) as (us & w1 & Hl & _ & _ & E).
  cbv zeta in E. eexists. eexists. eexists. split; [exact E|].
  cbn [items total_amount payments booking_id due_date id].
  assert (D : map item_description
                (map (item_of (fst (uuid_draw (random w)))) (combine (create_items input) us))
              = map input_description (create_items input)).
  { rewrite map_map. cbn [item_of item_description].
    rewrite <- (map_map fst input_description), map_fst_combine by exact Hl.
    reflexivity. }
  assert (A : map item_amount
                (map (item_of (fst (uuid_draw (random w)))) (combine (create_items input) us))
              = map input_amount (create_items input)).
  { rewrite map_map. cbn [item_of item_amount]. unfold Number.
    rewrite <- (map_map fst input_amount), map_fst_combine by exact Hl.
    reflexivity. }
  repeat split; try assumption.
  - apply Forall_forall. intros it Hin. apply in_map_iff in Hin.
    destruct Hin as (p & <- & _). reflexivity.
  - apply sumAmounts_ext. exact A.
  - cbn [saved localStorage]. apply lookup_store_at.
Qed.

End Creation.

(** ** Numerals and invoice numbers *)

Section Numerals.

Context {platform : Platform}.

Local Open Scope Z_scope.

Lemma digitsValue_of_uint_acc (d : Decimal.uint) : forall p,
  digitsValue (DecimalString.NilEmpty.string_of_uint d) true (Zpos p)
  = Some (Zpos (Pos.of_uint_acc d p)).
Proof.
  induction d; intro p;
    cbn [DecimalString.NilEmpty.string_of_uint digitsValue Pos.of_uint_acc];
    [reflexivity|..];
    match goal with
    | |- context [digitValue ?c] =>
        let v := eval vm_compute in (digitValue c) in
        change (digitValue c) with v
    end; cbv beta iota;
    match goal with
    | |- digitsValue _ true ?a = Some (Zpos (Pos.of_uint_acc _ ?q)) =>
        replace a with (Zpos q) by lia
    end; apply IHd.
Qed.

Lemma digitsValue_of_uint (d : Decimal.uint) :
  digitsValue (DecimalString.NilEmpty.string_of_uint d) true 0
  = Some (Z.of_N (Pos.of_uint d)).
Proof.
  induction d;
    cbn [DecimalString.NilEmpty.string_of_uint digitsValue Pos.of_uint];
    [reflexivity | exact IHd | ..];
    match goal with
    | |- context [digitValue ?c] =>
        let v := eval vm_compute in (digitValue c) in
        change (digitValue c) with v
    end; cbv beta iota; cbn [Z.of_N];
    match goal with
    | |- digitsValue _ true ?a = Some (Zpos (Pos.of_uint_acc _ ?q)) =>
        change a with (Zpos q)
    end; apply digitsValue_of_uint_acc.
Qed.

Lemma digitsValue_seen (d : Decimal.uint) (seen : bool) :
  d <> Decimal.Nil ->
  digitsValue (DecimalString.NilEmpty.string_of_uint d) seen 0
  = digitsValue (DecimalString.NilEmpty.string_of_uint d) true 0.
Proof. destruct d; intro H; [contradiction|..]; reflexivity. Qed.

Lemma decimal_of_uint (n : Z) :
  0 <= n ->
  exists d, d <> Decimal.Nil
            /\ decimal n = DecimalString.NilEmpty.string_of_uint d
            /\ Z.of_N (Pos.of_uint d) = n.
Proof.
  intro H. destruct n as [|p|p]; [| |lia].
  - exists (Decimal.D0 Decimal.Nil). repeat split. discriminate.
  - exists (Pos.to_uint p). split; [apply DecimalPos.Unsigned.to_uint_nonnil|].
    split.
    + unfold decimal. cbn [Z.to_int DecimalString.NilZero.string_of_int].
      unfold DecimalString.NilZero.string_of_uint.
      pose proof (DecimalPos.Unsigned.to_uint_nonnil p) as N.
      destruct (Pos.to_uint p); [contradiction|..]; reflexivity.
    + rewrite DecimalPos.Unsigned.of_to. reflexivity.
Qed.

(** The digits of a numeral read back as its value. *)
Lemma digitsValue_decimal (n : Z) (seen : bool) :
  0 <= n -> digitsValue (decimal n) seen 0 = Some n.
Proof.
  intro H. destruct (decimal_of_uint n H) as (d & Hd & -> & <-).
  rewrite digitsValue_seen by exact Hd. apply digitsValue_of_uint.
Qed.

Lemma digitsValue_zeros (k : nat) (s : string) (seen : bool) :
  digitsValue (zeros k ++ s) seen 0
  = digitsValue s (seen || negb (Nat.eqb k 0)) 0.
Proof.
  revert seen. induction k as [|k IH]; intro seen; cbn [zeros String.append].
  - rewrite orb_false_r. reflexivity.
  - cbn [digitsValue]. change (digitValue "0") with (Some 0). cbv beta iota.
    change (10 * 0 + 0) with 0. rewrite IH. cbn [Nat.eqb negb orb].
    rewrite orb_true_r. reflexivity.
Qed.

Lemma parseInt_parts_digit (c : ascii) (r : string) (d : Z) :
  digitValue c = Some d ->
  parseInt_parts (String c r)
  = match digitsValue (String c r) false 0 with
    | Some v => Some (false, v)
    | None => None
    end.
Proof.
  intro H. unfold parseInt_parts. cbn [trimStart].
  assert (W : isWhiteSpace c = false
              /\ Ascii.eqb c "-" = false /\ Ascii.eqb c "+" = false).
  { unfold digitValue in H.
    destruct c as [[] [] [] [] [] [] [] []]; try discriminate H; repeat split. }
  destruct W as (W1 & W2 & W3). rewrite W1.
  destruct c as [[] [] [] [] [] [] [] []]; try discriminate W2; try discriminate W3;
    reflexivity.
Qed.

Lemma decimal_starts_with_digit (n : Z) :
  0 <= n -> exists c r d, decimal n = String c r /\ digitValue c = Some d.
Proof.
  intro H. destruct (decimal_of_uint n H) as (d & Hd & -> & _).
  destruct d; [contradiction|..]; cbn [DecimalString.NilEmpty.string_of_uint];
    eexists; eexists; eexists; (split; [reflexivity|]); reflexivity.
Qed.

(** [parseInt] reads back a numeral padded with zeros. *)
Lemma parseInt_parts_padded (n : Z) (k : nat) :
  0 <= n -> parseInt_parts (padStart0 k (decimal n)) = Some (false, n).
Proof.
  intro H. unfold padStart0.
  destruct (decimal_starts_with_digit n H) as (c & r & d & E & Hc).
  assert (S : exists c' r' d', (zeros (k - String.length (decimal n)) ++ decimal n)%string
                               = String c' r' /\ digitValue c' = Some d').
  { destruct (k - String.length (decimal n))%nat; cbn [zeros String.append].
    - exists c, r, d. split; assumption.
    - eexists; eexists; exists 0. split; reflexivity. }
  destruct S as (c' & r' & d' & E' & Hc').
  rewrite E', (parseInt_parts_digit c' r' d' Hc'), <- E'.
  rewrite digitsValue_zeros, digitsValue_decimal by exact H. reflexivity.
Qed.

End Numerals.

Section FreshNumbers.

Context {platform : Platform}.

Lemma prefix_append (p x : string) : String.prefix p (p ++ x) = true.
Proof.
  induction p as [|c p IH]; cbn [String.append String.prefix].
  - destruct x; reflexivity.
  - destruct (ascii_dec c c) as [_|N]; [exact IH | contradiction].
Qed.

Lemma substring_from_append (p x : string) :
  substring_from (String.length p) (p ++ x) = x.
Proof.
  induction p as [|c p IH]; cbn [String.append String.length substring_from];
    [destruct x; reflexivity | exact IH].
Qed.

Lemma fold_max_le (vs : list Z) : forall v0 v,
  (v = v0 \/ In v vs) -> (v <= fold_left Z.max vs v0)%Z.
Proof.
  induction vs as [|x vs IH]; intros v0 v H; cbn [fold_left].
  - destruct H as [->|[]]. lia.
  - destruct H as [->|[->|H]].
    + etransitivity; [|apply IH; left; reflexivity]. lia.
    + etransitivity; [|apply IH; left; reflexivity]. lia.
    + apply IH. right. exact H.
Qed.

Lemma suffix_collected (prefix : string) (existing : list Invoice) (i : Invoice) (v : Z) :
  In i existing ->
  startsWith (invoice_number i) prefix = true ->
  suffix_value (substring_from (String.length prefix) (invoice_number i)) = Some v ->
  In v (spec_suffixes prefix existing).
Proof.
  intros Hin Hp Hv. unfold spec_suffixes. apply in_flat_map.
  exists i. split; [exact Hin|]. rewrite Hp, Hv. left. reflexivity.
Qed.

(** Within the safe range the allocator is the one which the specification
    words. *)
Lemma nextInvoiceNumber_safe (now : Z) (existing : list Invoice) :
  safe_numbers (Date_getFullYear now) existing = true ->
  nextInvoiceNumber now existing
  = spec_nextInvoiceNumber (Date_getFullYear now) existing
  /\ Forall (fun x => 0 <= x < 2 ^ 53)%Z
       (spec_suffixes (year_prefix (Date_getFullYear now)) existing).
Proof.
  intro H. apply collected_numbers in H. destruct H as [E R].
  split; [|exact R].
  unfold nextInvoiceNumber, spec_nextInvoiceNumber.
  fold (year_prefix (Date_getFullYear now)).
  cbv zeta. rewrite E. f_equal. f_equal.
  destruct (spec_suffixes _ existing) as [|v vs]; [reflexivity|].
  destruct (Math_max_small v vs R) as [-> B]. cbn [map].
  rewrite number_of_Z_succ by assumption.
  apply Number_toString_small. lia.
Qed.

Lemma nextInvoiceNumber_not_among (now : Z) (existing : list Invoice) (i : Invoice) :
  safe_numbers (Date_getFullYear now) existing = true ->
  In i existing -> invoice_number i <> nextInvoiceNumber now existing.
Proof.
  intros Hs Hin Heq.
  destruct (nextInvoiceNumber_safe now existing Hs) as [E R].
  rewrite E in Heq. unfold spec_nextInvoiceNumber in Heq. cbv zeta in Heq.
  set (prefix := year_prefix (Date_getFullYear now)) in *.
  set (next := match spec_suffixes prefix existing with
               | [] => 1%Z
               | v :: vs => (fold_left Z.max vs v + 1)%Z
               end) in *.
  assert (Hnext : (0 <= next)%Z).
  { subst next. destruct (spec_suffixes prefix existing) as [|v vs]; [lia|].
    inversion R as [|? ? Hv _]; subst.
    pose proof (fold_max_le vs v v (or_introl eq_refl)). lia. }
  assert (Hin' : In next (spec_suffixes prefix existing)).
  { apply (suffix_collected prefix existing i); [exact Hin | |].
    - rewrite Heq. apply prefix_append.
    - rewrite Heq, substring_from_append. unfold suffix_value.
      rewrite parseInt_parts_padded by exact Hnext. reflexivity. }
  subst next. destruct (spec_suffixes prefix existing) as [|v vs]; [exact Hin'|].
  destruct Hin' as [Hx|Hx];
    [pose proof (fold_max_le vs v _ (or_introl (eq_sym Hx)))
    |pose proof (fold_max_le vs v _ (or_intror Hx))]; lia.
Qed.

(** X3.  While every suffix of the year reads as an unsigned integer below
    2^53, the number which the allocator returns is the number of no
    invoice in the collection. *)
Theorem nextInvoiceNumber_fresh (now : Z) (existing : list Invoice) :
  safe_numbers (Date_getFullYear now) existing = true ->
  existsb (String.eqb (nextInvoiceNumber now existing)) (map invoice_number existing)
  = false.
Proof.
  intro Hs. destruct (existsb _ _) eqn:E; [|reflexivity]. exfalso.
  apply existsb_exists in E. destruct E as (n & Hin & Hn).
  apply String.eqb_eq in Hn. apply in_map_iff in Hin.
  destruct Hin as (i & Hi & Hin).
  apply (nextInvoiceNumber_not_among now existing i Hs Hin). congruence.
Qed.

(** X4.  So [createInvoice] keeps the invoice numbers distinct: if no two
    stored invoices share a number, and the suffixes of the year are in the
    safe range, then no two invoices of the collection it saves share one. *)
Theorem createInvoice_keeps_numbers_distinct (input : CreateInvoiceInput) (w : World) :
  safe_numbers (Date_getFullYear (clock w)) (invoices (stored w)) = true ->
  NoDup (map invoice_number (invoices (stored w))) ->
  exists inv w',
    createInvoice input w = (Normal inv, w')
    /\ lookup STORAGE_KEY (localStorage w')
       = Some (JSON_stringify {| invoices := invoices (stored w) ++ [inv] |})
    /\ NoDup (map invoice_number (invoices (stored w) ++ [inv])).
Proof.
  intros Hs Hd.
  destruct (createInvoice_returns input w) as (inv & w' & E & _ & _ & _ & Hn & Hl).
  exists inv, w'. split; [exact E|]. split; [exact Hl|].
  rewrite map_app. cbn [map].
  apply NoDup_app; [exact Hd | constructor; [intros [] | constructor] |].
  intros n Hin [<-|[]]. apply in_map_iff in Hin. destruct Hin as (i & Hi & Hin).
  apply (nextInvoiceNumber_not_among (clock w) (invoices (stored w)) i Hs Hin).
  congruence.
Qed.

(** X5.  [parseInt] reads back the numeral of an integer that is not
    negative, however many zeros [padStart] put before it; up to 2^53 the
    number it returns prints as that numeral again. *)
Theorem parseInt_reads_padded (n : Z) (k : nat) :
  (0 <= n)%Z ->
  parseInt (padStart0 k (decimal n)) = number_of_Z n
  /\ ((n <= 2 ^ 53)%Z ->
      Number_toString (parseInt (padStart0 k (decimal n))) = decimal n).
Proof.
  intro H. unfold parseInt. rewrite parseInt_parts_padded by exact H.
  split; [reflexivity|]. intro B. apply Number_toString_small. lia.
Qed.

End FreshNumbers.

(** ** Items and payments added to a stored invoice *)

Section Additions.

Context {platform : Platform}.

Lemma find_at (invoiceId : UUID) (before after : list Invoice) (inv : Invoice) :
  has_id invoiceId before = false -> id inv = invoiceId ->
  find (fun i => String.eqb (id i) invoiceId) (before ++ inv :: after) = Some inv.
Proof.
  intros Hb Hi. induction before as [|x l IH]; cbn [app find].
  - rewrite Hi, String.eqb_refl. reflexivity.
  - cbn [has_id existsb] in Hb. apply orb_false_elim in Hb.
    destruct Hb as [Hx Hl]. rewrite Hx. apply IH. exact Hl.
Qed.

Lemma replace_first_at (invoiceId : UUID) (new : Invoice)
    (before after : list Invoice) (inv : Invoice) :
  has_id invoiceId before = false -> id inv = invoiceId ->
  replace_first (fun i => String.eqb (id i) invoiceId) new (before ++ inv :: after)
  = before ++ new :: after.
Proof.
  intros Hb Hi. induction before as [|x l IH]; cbn [app replace_first].
  - rewrite Hi, String.eqb_refl. reflexivity.
  - cbn [has_id existsb] in Hb. apply orb_false_elim in Hb.
    destruct Hb as [Hx Hl]. rewrite Hx, IH by exact Hl. reflexivity.
Qed.

Lemma sumAmounts_snoc {A} (amount : A -> number) (l : list A) (x : A) :
  sumAmounts amount (l ++ [x])
  = (sumAmounts amount l + (Number (amount x) || 0))%float.
Proof. unfold sumAmounts. rewrite fold_left_app. reflexivity. Qed.

Lemma total_of_cached_sum (i : Invoice) :
  total_amount i = itemsTotal (computeTotals i) ->
  total (computeTotals i) = itemsTotal (computeTotals i).
Proof.
  intro H. unfold computeTotals in *. cbn [total itemsTotal] in *.
  destruct (_ && _); [exact H | reflexivity].
Qed.

(** X6.  [addInvoiceItem] on the first stored invoice of the given
    identifier appends one item, with the description and the amount given,
    to its items; the items total grows by that amount ([NaN] counting as
    0) and becomes the total of the invoice; payments and the other fields
    stay; and the collection is saved with that invoice replaced in place
    and every other invoice as it was. *)
Theorem addInvoiceItem_appends (w : World) (invoiceId : UUID) (description : string)
    (amount : number) (before after : list Invoice) (inv : Invoice) :
  invoices (stored w) = before ++ inv :: after ->
  has_id invoiceId before = false ->
  id inv = invoiceId ->
  let item := {| item_id := fst (uuid_draw (random w)); item_invoice_id := invoiceId;
                 item_description := description; item_amount := amount |} in
  exists inv' w',
    addInvoiceItem invoiceId description amount w = (Normal inv', w')
    /\ items inv' = Some ((items inv ?? []) ++ [item])
    /\ itemsTotal (computeTotals inv')
       = (itemsTotal (computeTotals inv) + (Number amount || 0))%float
    /\ total_amount inv' = itemsTotal (computeTotals inv')
    /\ total (computeTotals inv') = itemsTotal (computeTotals inv')
    /\ payments inv' = payments inv
    /\ (id inv', booking_id inv', invoice_number inv', due_date inv')
       = (id inv, booking_id inv, invoice_number inv, due_date inv)
    /\ lookup STORAGE_KEY (localStorage w')
       = Some (JSON_stringify {| invoices := before ++ inv' :: after |}).
Proof.
  intros Hs Hb Hi item. unfold addInvoiceItem. steps.
  rewrite Hs, find_at by assumption. steps.
  rewrite replace_first_at by assumption. unfold ret.
  set (inv1 := set_items inv ((items inv ?? []) ++ [item])).
  set (inv2 := set_total_amount inv1 (itemsTotal (computeTotals inv1))).
  exists (set_status inv2 (deriveStatus (clock w) inv2)). eexists.
  split; [reflexivity|].
  assert (T : itemsTotal (computeTotals inv1)
              = (itemsTotal (computeTotals inv) + (Number amount || 0))%float).
  { unfold computeTotals. cbn [itemsTotal inv1 set_items items nullish].
    apply sumAmounts_snoc. }
  assert (T' : itemsTotal (computeTotals (set_status inv2 (deriveStatus (clock w) inv2)))
               = itemsTotal (computeTotals inv1)) by reflexivity.
  split; [reflexivity|]. split; [rewrite T'; exact T|].
  split; [rewrite T'; reflexivity|].
  split; [apply total_of_cached_sum; rewrite T'; reflexivity|].
  split; [reflexivity|]. split; [reflexivity|].
  cbn [saved localStorage snd]. apply lookup_store_at.
Qed.

(** X7.  [recordPayment] with a date that parses, on the first stored
    invoice of the given identifier, appends one payment with the amount,
    the method and the ISO form of the date; the amount paid grows by that
    amount ([NaN] counting as 0); items and total stay, the total becoming
    the stored total; and the collection is saved with that invoice
    replaced in place. *)
Theorem recordPayment_appends (w : World) (invoiceId : UUID)
    (input : RecordPaymentInput) (t : Z) (before after : list Invoice) (inv : Invoice) :
  invoices (stored w) = before ++ inv :: after ->
  has_id invoiceId before = false ->
  id inv = invoiceId ->
  Date_parse (pay_date input) = Some t ->
  let payment := {| payment_id := fst (uuid_draw (random w));
                    payment_invoice_id := invoiceId;
                    payment_amount := pay_amount input;
                    payment_date := Date_toISOString t;
                    payment_method := pay_method input |} in
  exists inv' w',
    recordPayment invoiceId input w = (Normal inv', w')
    /\ payments inv' = Some ((payments inv ?? []) ++ [payment])
    /\ paid (computeTotals inv')
       = (paid (computeTotals inv) + (Number (pay_amount input) || 0))%float
    /\ items inv' = items inv
    /\ total_amount inv' = total (computeTotals inv)
    /\ total (computeTotals inv') = total (computeTotals inv)
    /\ (id inv', booking_id inv', invoice_number inv', due_date inv')
       = (id inv, booking_id inv, invoice_number inv, due_date inv)
    /\ lookup STORAGE_KEY (localStorage w')
       = Some (JSON_stringify {| invoices := before ++ inv' :: after |}).
Proof.
  intros Hs Hb Hi Hd payment. unfold recordPayment. steps.
  rewrite Hs, find_at by assumption. steps.
  unfold toISOString. rewrite Hd. steps.
  rewrite replace_first_at by assumption. unfold ret.
  set (inv1 := set_payments inv ((payments inv ?? []) ++ [payment])).
  set (inv2 := set_total_amount inv1 (total (computeTotals inv1))).
  exists (set_status inv2
            (if ge (paid (computeTotals inv1)) (total (computeTotals inv1))
             then Paid else deriveStatus (clock w) inv2)).
  eexists. split; [reflexivity|].
  assert (T : total (computeTotals inv1) = total (computeTotals inv)) by reflexivity.
  assert (P : paid (computeTotals inv1)
              = (paid (computeTotals inv) + (Number (pay_amount input) || 0))%float).
  { unfold computeTotals. cbn [paid inv1 set_payments payments nullish].
    rewrite sumAmounts_snoc. reflexivity. }
  assert (C : computeTotals inv2 = computeTotals inv1)
    by apply computeTotals_set_total.
  rewrite computeTotals_set_status, C.
  split; [reflexivity|]. split; [exact P|]. split; [reflexivity|].
  split; [exact T|]. split; [exact T|]. split; [reflexivity|].
  cbn [saved localStorage snd]. apply lookup_store_at.
Qed.

Lemma find_of_has_id (invoiceId : UUID) (l : list Invoice) :
  has_id invoiceId l = true ->
  exists inv, find (fun i => String.eqb (id i) invoiceId) l = Some inv.
Proof.
  induction l as [|x l IH]; cbn [has_id existsb find]; [discriminate|].
  destruct (String.eqb (id x) invoiceId); [eexists; reflexivity | exact IH].
Qed.

(** X8.  [recordPayment] with a date that does not parse, for an invoice
    that is stored, throws the [RangeError] of [toISOString] and saves
    nothing: storage is as it was. *)
Theorem recordPayment_invalid_date (w : World) (invoiceId : UUID)
    (input : RecordPaymentInput) :
  has_id invoiceId (invoices (stored w)) = true ->
  Date_parse (pay_date input) = None ->
  exists w',
    recordPayment invoiceId input w = (Throw (RangeError "Invalid time value"), w')
    /\ localStorage w' = localStorage w
    /\ clock w' = clock w.
Proof.
  intros Hh Hd. destruct (find_of_has_id _ _ Hh) as (inv & F).
  unfold recordPayment. steps. rewrite F. steps.
  unfold toISOString. rewrite Hd. unfold bind, throw.
  eexists. split; [reflexivity|]. split; reflexivity.
Qed.

End Additions.

(** ** Queries *)

Section Queries.

Context {platform : Platform}.

Lemma computeTotals_refreshed (now : Z) (i : Invoice) :
  computeTotals (refreshed now i) = computeTotals i.
Proof.
  unfold refreshed.
  rewrite <- (computeTotals_set_status i (deriveStatus now i)) at 1.
  rewrite computeTotals_set_total. apply computeTotals_set_status.
Qed.

(** X9.  Refreshing is idempotent: an invoice that was handed back by a
    query has the same totals and the same derived status as the stored
    one, and refreshing it again changes nothing. *)
Theorem refreshed_idempotent (now : Z) (i : Invoice) :
  computeTotals (refreshed now i) = computeTotals i
  /\ deriveStatus now (refreshed now i) = deriveStatus now i
  /\ refreshed now (refreshed now i) = refreshed now i.
Proof.
  pose proof (computeTotals_refreshed now i) as C.
  assert (D : deriveStatus now (refreshed now i) = deriveStatus now i)
    by (apply deriveStatus_ext; [exact C | reflexivity]).
  split; [exact C|]. split; [exact D|].
  unfold refreshed at 1. rewrite C, D. reflexivity.
Qed.

Lemma find_map_refreshed (now : Z) (invoiceId : UUID) (l : list Invoice) :
  find (fun i => String.eqb (id i) invoiceId) (map (refreshed now) l)
  = match find (fun i => String.eqb (id i) invoiceId) l with
    | Some inv => Some (refreshed now inv)
    | None => None
    end.
Proof.
  induction l as [|x l IH]; cbn [map find]; [reflexivity|].
  change (id (refreshed now x)) with (id x).
  destruct (String.eqb (id x) invoiceId); [reflexivity | exact IH].
Qed.

Lemma listInvoices_unfiltered (w : World) :
  listInvoices None w
  = (Normal (map (refreshed (clock w)) (invoices (stored w))), w).
Proof. unfold listInvoices. steps. reflexivity. Qed.

(** X10.  [getInvoice] returns the first invoice of the given identifier
    in the unfiltered list of [listInvoices], and [null] when no stored
    invoice has the identifier; neither changes the state. *)
Theorem getInvoice_is_first_listed (w : World) (invoiceId : UUID) :
  exists l,
    listInvoices None w = (Normal l, w)
    /\ getInvoice invoiceId w
       = (Normal (find (fun i => String.eqb (id i) invoiceId) l), w)
    /\ (has_id invoiceId (invoices (stored w)) = false ->
        getInvoice invoiceId w = (Normal None, w)).
Proof.
  eexists. split; [apply listInvoices_unfiltered|].
  unfold getInvoice. steps. unfold ret. rewrite find_map_refreshed.
  split; [reflexivity|]. intro H. rewrite find_none_of_has_id by exact H.
  reflexivity.
Qed.

Lemma filter_and {A} (p q : A -> bool) (l : list A) :
  filter q (filter p l) = filter (fun x => p x && q x) l.
Proof.
  induction l as [|x l IH]; cbn [filter]; [reflexivity|].
  destruct (p x); cbn [filter andb]; [destruct (q x)|]; congruence.
Qed.

Lemma filter_true {A} (l : list A) : filter (fun _ => true) l = l.
Proof. induction l as [|x l IH]; cbn [filter]; congruence. Qed.

(** X11.  Filters only narrow the list: whatever the filters, the invoices
    listed are stored invoices, refreshed, in the order of storage; without
    filters they are all of them; and a filter that is left out, set to
    [All] or to the empty string has no effect. *)
Theorem listInvoices_narrows (w : World) (filters : option InvoiceFilters) :
  (exists keep,
      listInvoices filters w
      = (Normal (map (refreshed (clock w)) (filter keep (invoices (stored w)))), w))
  /\ listInvoices None w
     = (Normal (map (refreshed (clock w)) (invoices (stored w))), w)
  /\ (forall st q dueFrom dueTo,
        st = None \/ st = Some All ->
        given q = None -> given dueFrom = None -> given dueTo = None ->
        listInvoices (Some {| filter_status := st; filter_query := q;
                              filter_dueFrom := dueFrom; filter_dueTo := dueTo |}) w
        = listInvoices None w).
Proof.
  split; [|split].
  - unfold listInvoices. steps. unfold ret.
    destruct filters as [[st q d1 d2]|];
      [|exists (fun _ => true); rewrite filter_true; reflexivity].
    cbn [filter_query filter_dueFrom filter_dueTo].
    destruct st as [[|s]|]; destruct (given q); destruct (given d1);
      destruct (given d2); rewrite ?filter_and;
      first [ eexists; reflexivity
            | exists (fun _ => true); rewrite filter_true; reflexivity ].
  - apply listInvoices_unfiltered.
  - intros st q d1 d2 Hst Hq H1 H2. unfold listInvoices. steps.
    cbn [filter_query filter_dueFrom filter_dueTo]. rewrite Hq, H1, H2.
    destruct Hst as [->| ->]; reflexivity.
Qed.

End Queries.

(** ** Operations in sequence *)

Section Sequences.

Context {platform : Platform}.

(** X12.  An invoice that was created is read back: when its identifier is
    new and [JSON] reads back the collection that was saved, [getInvoice]
    returns the invoice which [createInvoice] returned, with the status
    derived from it, and [listInvoices] lists it last. *)
Theorem createInvoice_then_getInvoice (input : CreateInvoiceInput) (w w' : World)
    (inv : Invoice) :
  createInvoice input w = (Normal inv, w') ->
  reads_back {| invoices := invoices (stored w) ++ [inv] |} ->
  has_id (id inv) (invoices (stored w)) = false ->
  getInvoice (id inv) w'
  = (Normal (Some (set_status inv (deriveStatus (clock w) inv))), w')
  /\ listInvoices None w'
     = (Normal (map (refreshed (clock w)) (invoices (stored w))
                ++ [set_status inv (deriveStatus (clock w) inv)]), w').
Proof.
  intros E Hr Hn.
  destruct (createInvoice_result input w) as (us & w1 & Hl & _ & Hc & E').
  cbv zeta in E'. rewrite E in E'. injection E' as Ei Ew.
  assert (S : stored w' = {| invoices := invoices (stored w) ++ [inv] |}).
  { rewrite Ew, <- Ei. apply stored_saved. exact Hr. }
  assert (C : clock w' = clock w) by (rewrite Ew; exact Hc).
  assert (R : refreshed (clock w) inv = set_status inv (deriveStatus (clock w) inv)).
  { unfold refreshed.
    assert (T : total (computeTotals inv) = total_amount inv).
    { rewrite total_of_cached_sum; rewrite Ei; reflexivity. }
    rewrite T. reflexivity. }
  split.
  - unfold getInvoice. steps. unfold ret. rewrite S, C. cbn [invoices].
    rewrite find_at by (assumption || reflexivity). rewrite R. reflexivity.
  - rewrite listInvoices_unfiltered, S, C. cbn [invoices].
    rewrite map_app. cbn [map]. rewrite R. reflexivity.
Qed.

Lemma has_id_filtered (invoiceId : UUID) (l : list Invoice) :
  has_id invoiceId (filter (fun i => negb (String.eqb (id i) invoiceId)) l) = false.
Proof.
  induction l as [|x l IH]; cbn [filter]; [reflexivity|].
  destruct (String.eqb (id x) invoiceId) eqn:E; cbn [negb]; [exact IH|].
  cbn [has_id existsb]. rewrite E. exact IH.
Qed.

(** X13.  An invoice that was deleted is gone: when [JSON] reads back the
    collection that was saved, [getInvoice] returns [null] for the
    identifier, [listInvoices] lists the invoices that were kept, and
    deleting the identifier again changes nothing. *)
Theorem deleteInvoice_then_getInvoice (w : World) (invoiceId : UUID) :
  let kept := filter (fun i => negb (String.eqb (id i) invoiceId))
                (invoices (stored w)) in
  let w' := snd (deleteInvoice invoiceId w) in
  reads_back {| invoices := kept |} ->
  getInvoice invoiceId w' = (Normal None, w')
  /\ listInvoices None w' = (Normal (map (refreshed (clock w)) kept), w')
  /\ deleteInvoice invoiceId w' = (Normal tt, w').
Proof.
  intros kept w' Hr.
  assert (W : w' = saved {| invoices := kept |} w).
  { unfold w', deleteInvoice. steps. rewrite save_returns. reflexivity. }
  assert (S : stored w' = {| invoices := kept |})
    by (rewrite W; apply stored_saved; exact Hr).
  split; [|split].
  - unfold getInvoice. steps. unfold ret. rewrite S. cbn [invoices].
    rewrite find_none_of_has_id by apply has_id_filtered. reflexivity.
  - rewrite listInvoices_unfiltered, S, W. reflexivity.
  - unfold deleteInvoice. steps. rewrite save_returns, S. cbn [invoices].
    rewrite filter_without_id by apply has_id_filtered.
    rewrite W. unfold saved. cbn [localStorage clock random].
    rewrite store_at_twice. reflexivity.
Qed.

(** X14.  No operation of the repository touches another key of
    [localStorage] than its own, whether it returns or throws. *)
Theorem mutations_touch_one_key (w : World) (k : string) :
  String.eqb k STORAGE_KEY = false ->
  (forall input,
      lookup k (localStorage (snd (createInvoice input w))) = lookup k (localStorage w))
  /\ (forall invoiceId description amount,
        lookup k (localStorage (snd (addInvoiceItem invoiceId description amount w)))
        = lookup k (localStorage w))
  /\ (forall invoiceId input,
        lookup k (localStorage (snd (recordPayment invoiceId input w)))
        = lookup k (localStorage w))
  /\ (forall invoiceId,
        lookup k (localStorage (snd (deleteInvoice invoiceId w)))
        = lookup k (localStorage w))
  /\ (forall filters, snd (listInvoices filters w) = w)
  /\ (forall invoiceId, snd (getInvoice invoiceId w) = w).
Proof.
  intro N. repeat split.
  - intro input.
    destruct (createInvoice_result input w) as (us & w1 & _ & Hs & _ & E).
    cbv zeta in E. rewrite E. cbn [snd saved localStorage].
    rewrite lookup_store_at_other by exact N. rewrite Hs. reflexivity.
  - intros invoiceId description amount. unfold addInvoiceItem. steps.
    destruct (find _ _) as [inv|]; [|reflexivity]. steps.
    cbn [snd ret saved localStorage]. apply lookup_store_at_other. exact N.
  - intros invoiceId input. unfold recordPayment. steps.
    destruct (find _ _) as [inv|]; [|reflexivity]. steps.
    unfold toISOString.
    destruct (Date_parse (pay_date input)) as [t|]; [|reflexivity]. steps.
    cbn [snd ret saved localStorage]. apply lookup_store_at_other. exact N.
  - intro invoiceId. unfold deleteInvoice. steps. rewrite save_returns.
    cbn [snd saved localStorage]. apply lookup_store_at_other. exact N.
  - intro filters. destruct (listInvoices_returns filters w) as (data & E & _).
    rewrite E. reflexivity.
  - intro invoiceId. unfold getInvoice. steps. reflexivity.
Qed.

(** X15.  The status only moves forward as days pass: on a platform whose
    start of the day does not go back, an invoice that is [Paid] stays
    [Paid], one that is [Overdue] stays [Overdue], and one that is [Unpaid]
    later was [Unpaid] before; totals, payments and due date being the
    same. *)
Theorem status_as_days_pass (now later : Z) (inv : Invoice) :
  (Date_startOfDay now <= Date_startOfDay later)%Z ->
  (deriveStatus now inv = Paid -> deriveStatus later inv = Paid)
  /\ (deriveStatus now inv = Overdue -> deriveStatus later inv = Overdue)
  /\ (deriveStatus later inv = Unpaid -> deriveStatus now inv = Unpaid).
Proof.
  intro H. unfold deriveStatus.
  destruct (ge _ _ && gt _ _); [repeat split; discriminate|].
  destruct (lt _ _); cbn [andb]; [|repeat split; discriminate].
  unfold Date_lt. destruct (Date_parse (due_date inv)) as [d|];
    [|repeat split; discriminate].
  destruct (d <? Date_startOfDay now)%Z eqn:A;
    destruct (d <? Date_startOfDay later)%Z eqn:B;
    repeat split; try discriminate; try reflexivity.
  all: apply Z.ltb_lt in A; apply Z.ltb_ge in B; lia.
Qed.

End Sequences.

(* ================================================================== *)
(** * The pages *)

(** ** Sums of amounts above 0 *)

Section SignsOfSums.

Lemma positive_sign x : (0 <? x)%float = true -> SFsign (Prim2SF x) = Some false.
Proof.
  rewrite ltb_spec, Prim2SF_zero. unfold SFltb.
  destruct (Prim2SF x) as [s|s| |s m e]; cbn [SFcompare SFsign];
    try destruct s; try discriminate; reflexivity.
Qed.

Lemma SFadd_sign x y :
  SFsign x = Some false -> SFsign y = Some false ->
  SFsign (SFadd 53 1024 x y) = Some false.
Proof.
  destruct x as [sx|sx| |sx mx ex]; destruct y as [sy|sy| |sy my ey];
    cbn [SFsign]; intros [= ->] [= ->]; try reflexivity.
  cbn [SFadd cond_Zopp Z.add]. unfold binary_normalize, binary_round.
  destruct (shl_align _ _ _) as [mz ez].
  apply binary_round_aux_sign. lia.
Qed.

Lemma add_sign s y :
  SFsign (Prim2SF s) = Some false -> SFsign (Prim2SF y) = Some false ->
  SFsign (Prim2SF (s + y)) = Some false.
Proof.
  intros Hs Hy. rewrite add_spec. unfold SF64add.
  change prec with 53%Z. change emax with 1024%Z.
  apply SFadd_sign; assumption.
Qed.

Lemma sign_not_negative x :
  SFsign (Prim2SF x) = Some false -> is_nan x = false /\ (x <? 0)%float = false.
Proof.
  rewrite is_nan_spec, ltb_spec, Prim2SF_zero. unfold SFltb.
  destruct (Prim2SF x) as [s|s| |s m e]; cbn [SFcompare SFsign];
    intros [= ->]; split; reflexivity.
Qed.

Lemma addend_of_positive x : (0 <? x)%float = true -> (Number x || 0)%float = x.
Proof.
  intro H. unfold or_else, truthy, Number.
  assert (E : is_zero x || is_nan x = false); [|rewrite E; reflexivity].
  unfold is_zero. rewrite is_nan_spec, eqb_spec.
  rewrite ltb_spec, Prim2SF_zero in H. unfold SFltb in H. unfold SFeqb.
  destruct (Prim2SF x) as [s|s| |s m e]; cbn [SFcompare] in *;
    try discriminate; try destruct s; try discriminate; reflexivity.
Qed.

Lemma running_sum_sign {A} (amount : A -> number) (l : list A) : forall s,
  SFsign (Prim2SF s) = Some false ->
  forallb (fun x => gt (Number (amount x)) 0) l = true ->
  SFsign (Prim2SF (fold_left (fun s x => (s + (Number (amount x) || 0))%float) l s))
  = Some false.
Proof.
  induction l as [|x l IH]; intros s Hs H; cbn [fold_left forallb] in *.
  - exact Hs.
  - apply andb_prop in H. destruct H as [Hx Hl]. unfold gt, Number in Hx.
    apply IH; [|exact Hl]. rewrite addend_of_positive by exact Hx.
    apply add_sign; [exact Hs | apply positive_sign; exact Hx].
Qed.

(** A sum of amounts that are all above 0 is a number, and not below 0. *)
Lemma sumAmounts_of_positive {A} (amount : A -> number) (l : list A) :
  forallb (fun x => gt (Number (amount x)) 0) l = true ->
  is_nan (sumAmounts amount l) = false /\ lt (sumAmounts amount l) 0 = false.
Proof.
  intro H. apply sign_not_negative. apply running_sum_sign; [reflexivity | exact H].
Qed.

End SignsOfSums.

(** ** What the pages show *)

Section PageFacts.

Context {platform : Platform}.

Lemma InvoicePrintView_of_cached_sum (inv : Invoice) :
  total_amount inv = itemsTotal (computeTotals inv) ->
  InvoicePrintView_totals (items inv) (payments inv)
  = {| print_subtotal := total (computeTotals inv);
       print_paid := paid (computeTotals inv);
       print_balance := balance (computeTotals inv) |}.
Proof.
  intro H. apply total_of_cached_sum in H.
  unfold InvoicePrintView_totals. cbv zeta.
  change (sumAmounts item_amount (items inv ?? [])) with (itemsTotal (computeTotals inv)).
  change (sumAmounts payment_amount (payments inv ?? [])) with (paid (computeTotals inv)).
  rewrite <- H. reflexivity.
Qed.

(** X16.  The print view shows the totals of the financial model for
    every invoice whose stored total is the sum of its items, so for every
    invoice which [createInvoice] or [addInvoiceItem] hands back: its
    subtotal is [total], its paid amount [paid] and its balance [balance]
    of [computeTotals]. *)
Theorem InvoicePrintView_agrees (w : World) :
  let shown inv :=
    InvoicePrintView_totals (items inv) (payments inv)
    = {| print_subtotal := total (computeTotals inv);
         print_paid := paid (computeTotals inv);
         print_balance := balance (computeTotals inv) |} in
  (forall inv, total_amount inv = itemsTotal (computeTotals inv) -> shown inv)
  /\ (forall input, exists inv w',
        createInvoice input w = (Normal inv, w') /\ shown inv)
  /\ (forall invoiceId description amount,
        match fst (addInvoiceItem invoiceId description amount w) with
        | Normal inv => shown inv
        | Throw _ => True
        end).
Proof.
  cbv zeta. split; [|split].
  - apply InvoicePrintView_of_cached_sum.
  - intro input.
    destruct (createInvoice_result input w) as (us & w1 & _ & _ & _ & E).
    cbv zeta in E. eexists. eexists. split; [exact E|].
    apply InvoicePrintView_of_cached_sum. reflexivity.
  - intros invoiceId description amount. unfold addInvoiceItem. steps.
    destruct (find _ _) as [inv|]; [|exact I]. steps. cbn [fst ret].
    apply InvoicePrintView_of_cached_sum. reflexivity.
Qed.

(** X17.  The totals of the billing page: an invoice whose total (or paid
    amount) is [NaN] counts as 0; while no invoice has an infinite total
    (or paid amount) the sum is a number; the balance is never below 0, and
    it is 0 when more was paid than the totals add up to. *)
Theorem Billing_totals_facts (l : list Invoice) :
  let t := Billing_totals l in
  page_total t = sumAmounts (fun i => zero_if_nan (total (computeTotals i))) l
  /\ page_paid t = sumAmounts (fun i => zero_if_nan (paid (computeTotals i))) l
  /\ (forallb (fun i => negb (is_infinity (total (computeTotals i)))) l = true ->
      Number_isNaN (page_total t) = false)
  /\ (forallb (fun i => negb (is_infinity (paid (computeTotals i)))) l = true ->
      Number_isNaN (page_paid t) = false)
  /\ lt (page_balance t) 0 = false
  /\ (lt (page_total t) (page_paid t) = true -> page_balance t = 0%float).
Proof.
  cbv zeta. unfold Billing_totals. cbn [page_total page_paid page_balance].
  change (fold_left (fun s i => (s + (total (computeTotals i) || 0))%float) l 0%float)
    with (sumAmounts (fun i => total (computeTotals i)) l).
  change (fold_left (fun s i => (s + (paid (computeTotals i) || 0))%float) l 0%float)
    with (sumAmounts (fun i => paid (computeTotals i)) l).
  repeat split.
  - apply sumAmounts_zero_if_nan.
  - apply sumAmounts_zero_if_nan.
  - apply sumAmounts_not_nan.
  - apply sumAmounts_not_nan.
  - apply Math_max_zero_not_negative.
  - apply Math_max_zero_of_less.
Qed.

Lemma times_zero_percent x :
  is_finite x = true -> (0 <? x)%float = true -> (x * 0 / 100)%float = 0%float.
Proof.
  intros F P. apply is_finite_spec in F. apply positive_sign in P.
  apply Prim2SF_inj. rewrite div_spec, mul_spec, Prim2SF_zero.
  destruct (Prim2SF x) as [s|s| |s m e]; try contradiction;
    cbn [SFsign] in P; injection P as ->; reflexivity.
Qed.

Lemma plus_zero_minus_zero x :
  is_finite x = true -> (0 <? x)%float = true -> (x + 0 - 0)%float = x.
Proof.
  intros F P. apply is_finite_spec in F.
  rewrite ltb_spec, Prim2SF_zero in P. unfold SFltb in P.
  apply Prim2SF_inj. rewrite sub_spec, add_spec, Prim2SF_zero.
  destruct (Prim2SF x) as [s|s| |s m e]; try contradiction;
    cbn [SFcompare] in P; try discriminate; reflexivity.
Qed.

(** X18.  The totals of the invoice page: the grand total and the balance
    are never below 0; and without tax and discount, for a finite total
    above 0, they are the total and the balance of [computeTotals]. *)
Theorem InvoiceDetail_totals_facts (inv : Invoice) (taxPct discount : number) :
  let base := computeTotals inv in
  let t := InvoiceDetail_totals (Some inv) taxPct discount in
  let plain := InvoiceDetail_totals (Some inv) 0 0 in
  lt (detail_grand t) 0 = false
  /\ lt (detail_balance t) 0 = false
  /\ detail_subtotal t = total base /\ detail_paid t = paid base
  /\ (Number_isFinite (total base) = true -> gt (total base) 0 = true ->
      detail_tax plain = 0%float
      /\ detail_grand plain = total base
      /\ detail_balance plain = balance base).
Proof.
  cbv zeta. unfold InvoiceDetail_totals.
  cbn [detail_grand detail_balance detail_subtotal detail_paid detail_tax].
  split; [apply Math_max_zero_not_negative|].
  split; [apply Math_max_zero_not_negative|].
  split; [reflexivity|]. split; [reflexivity|].
  unfold Number_isFinite, gt. intros F P.
  rewrite times_zero_percent, plus_zero_minus_zero by assumption.
  split; [reflexivity|].
  match goal with |- ?g = _ /\ _ =>
    assert (G : g = total (computeTotals inv))
  end.
  { etransitivity; [apply Math_max_zero|]. rewrite P.
    destruct (sign_not_negative _ (positive_sign _ P)) as [-> _]. reflexivity. }
  rewrite G. split; reflexivity.
Qed.

(** X19.  The form that creates an invoice sends only the lines with a
    description and an amount above 0: every item of the invoice created
    has them, in the order of the form; so the total of that invoice is a
    number and not below 0; and its booking is never the empty string. *)
Theorem CreateInvoiceModal_sends_clean_lines (bookingId dueDate : string)
    (lines : list ItemInput) (w : World) :
  exists inv its w',
    CreateInvoiceModal_onSubmit bookingId dueDate lines w = (Normal inv, w')
    /\ items inv = Some its
    /\ map item_description its = map input_description (clean lines)
    /\ map item_amount its = map input_amount (clean lines)
    /\ Forall (fun it => gt (item_amount it) 0 = true
                         /\ nonEmpty (trim (item_description it)) = true) its
    /\ incl (clean lines) lines
    /\ Number_isNaN (total_amount inv) = false
    /\ lt (total_amount inv) 0 = false
    /\ nonEmpty (booking_id inv) = true
    /\ due_date inv = dueDate.
Proof.
  unfold CreateInvoiceModal_onSubmit.
  set (input := {| create_booking_id := string_or bookingId "BOOKING-ID";
                   create_due_date := dueDate; create_items := clean lines |}).
  destruct (createInvoice_result input w) as (us & w1 & Hl & _ & _ & E).
  cbv zeta in E. eexists. eexists. eexists. split; [exact E|].
  cbn [items total_amount booking_id due_date input create_items
       create_booking_id create_due_date].
  set (its := map (item_of (fst (uuid_draw (random w)))) (combine (clean lines) us)).
  assert (D : map item_description its = map input_description (clean lines)).
  { unfold its. rewrite map_map. cbn [item_of item_description].
    rewrite <- (map_map fst input_description), map_fst_combine by exact Hl.
    reflexivity. }
  assert (A : map item_amount its = map input_amount (clean lines)).
  { unfold its. rewrite map_map. cbn [item_of item_amount]. unfold Number.
    rewrite <- (map_map fst input_amount), map_fst_combine by exact Hl.
    reflexivity. }
  assert (K : forall it, In it (clean lines) ->
                gt (input_amount it) 0 = true
                /\ nonEmpty (trim (input_description it)) = true).
  { intros it Hin. unfold clean in Hin. apply filter_In in Hin.
    destruct Hin as [_ Hk]. apply andb_prop in Hk. destruct Hk as [Hd Ha].
    split; assumption. }
  assert (S : is_nan (sumAmounts item_amount its) = false
              /\ lt (sumAmounts item_amount its) 0 = false).
  { rewrite (sumAmounts_ext item_amount input_amount its (clean lines) A).
    apply sumAmounts_of_positive. apply forallb_forall. intros it Hin.
    apply K. exact Hin. }
  split; [reflexivity|]. split; [exact D|]. split; [exact A|].
  split.
  { apply Forall_forall. intros it Hin. unfold its in Hin.
    apply in_map_iff in Hin. destruct Hin as ([x u] & <- & Hin).
    apply in_combine_l in Hin. apply (K x Hin). }
  split; [unfold clean; apply incl_filter|].
  split; [apply S|]. split; [apply S|].
  split; [|reflexivity].
  unfold string_or. destruct bookingId; reflexivity.
Qed.

End PageFacts.

(* ================================================================== *)
(** * Export to PDF *)

Module ExportFacts.

Import Pdf Preview.

Lemma addImage_on_new_page (pdf : Document) (x y w h : number) :
  addImage (addPage pdf) x y w h
  = pdf ++ [[{| at_x := x; at_y := y; width := w; height := h |}]].
Proof.
  unfold addImage, addPage. rewrite rev_unit, rev_involutive. reflexivity.
Qed.

Lemma pageLoop_extends (size : PageSize) (w h : number) (fuel : nat) :
  forall pdf heightLeft position doc,
    pageLoop fuel size w h pdf heightLeft position = Some doc ->
    exists ys, doc = pdf ++ map (page_of w h) ys.
Proof.
  induction fuel as [|fuel IH]; intros pdf hl pos doc; cbn [pageLoop];
    destruct (gt hl 0); try discriminate.
  - intros [= <-]. exists []. cbn [map]. rewrite app_nil_r. reflexivity.
  - rewrite addImage_on_new_page. intro E. apply IH in E.
    destruct E as (ys & ->). eexists (_ :: ys). rewrite <- app_assoc. reflexivity.
  - intros [= <-]. exists []. cbn [map]. rewrite app_nil_r. reflexivity.
Qed.

Lemma previewLoop_extends (size : PageSize) (w h : number) (fuel : nat) :
  forall pdf heightLeft doc,
    previewLoop fuel size w h pdf heightLeft = Some doc ->
    exists ys, doc = pdf ++ map (page_of w h) ys.
Proof.
  induction fuel as [|fuel IH]; intros pdf hl doc; cbn [previewLoop];
    destruct (gt hl 0); try discriminate.
  - intros [= <-]. exists []. cbn [map]. rewrite app_nil_r. reflexivity.
  - rewrite addImage_on_new_page. intro E. apply IH in E.
    destruct E as (ys & ->). eexists (_ :: ys). rewrite <- app_assoc. reflexivity.
  - intros [= <-]. exists []. cbn [map]. rewrite app_nil_r. reflexivity.
Qed.

Lemma loops_same_length (size : PageSize) (w h h' : number) (fuel : nat) :
  forall pdf pdf' heightLeft position,
    List.length pdf = List.length pdf' ->
    option_map (@List.length Page) (pageLoop fuel size w h pdf heightLeft position)
    = option_map (@List.length Page) (previewLoop fuel size w h' pdf' heightLeft).
Proof.
  induction fuel as [|fuel IH]; intros pdf pdf' hl pos L;
    cbn [pageLoop previewLoop]; destruct (gt hl 0); cbn [option_map];
    try reflexivity; try (f_equal; exact L).
  apply IH. rewrite !addImage_on_new_page, !length_app, L. reflexivity.
Qed.

(** X20.  Whenever one of the two exports returns a document, every page
    of it holds the captured image once, at the left edge, in the same
    size, and the first page holds it at the top; and the two exports give
    documents of the same number of pages when they compute the same
    height for the image. *)
Theorem exports_layout (fuel : nat) (canvas : Canvas) (size : PageSize) :
  let w := pageWidth size in
  let h := (canvas_height canvas * w / canvas_width canvas)%float in
  let h' := (canvas_height canvas * (w / canvas_width canvas))%float in
  match exportElementToPDF fuel canvas size with
  | Some doc => exists ys, doc = map (page_of w h) (0%float :: ys)
  | None => True
  end
  /\ match handleExportPdf fuel canvas size with
     | Some doc => exists ys, doc = map (page_of w h') (0%float :: ys)
     | None => True
     end
  /\ (h = h' ->
      option_map (@List.length Page) (exportElementToPDF fuel canvas size)
      = option_map (@List.length Page) (handleExportPdf fuel canvas size)).
Proof.
  cbv zeta. split; [|split].
  - destruct (exportElementToPDF fuel canvas size) as [doc|] eqn:E; [|exact I].
    unfold exportElementToPDF in E. apply pageLoop_extends in E.
    destruct E as (ys & ->). exists ys. reflexivity.
  - destruct (handleExportPdf fuel canvas size) as [doc|] eqn:E; [|exact I].
    unfold handleExportPdf in E. apply previewLoop_extends in E.
    destruct E as (ys & ->). exists ys. reflexivity.
  - intro H. unfold exportElementToPDF, handleExportPdf. cbv zeta.
    rewrite <- H. apply loops_same_length. reflexivity.
Qed.

(** X21.  An image that is not higher than the page (or whose height is
    not a number) is exported as one page, with the image at the top,
    however many rounds the loop is allowed. *)
Theorem exportElementToPDF_one_page (fuel : nat) (canvas : Canvas) (size : PageSize) :
  let w := pageWidth size in
  let h := (canvas_height canvas * w / canvas_width canvas)%float in
  gt (h - pageHeight size) 0 = false ->
  exportElementToPDF fuel canvas size = Some [page_of w h 0].
Proof.
  cbv zeta. intro H. unfold exportElementToPDF. cbv zeta.
  destruct fuel; cbn [pageLoop]; rewrite H; reflexivity.
Qed.

Lemma opp_plus_self (p : number) :
  is_finite p = true -> (- p + p)%float = 0%float.
Proof.
  intro F. apply is_finite_spec in F. apply Prim2SF_inj.
  rewrite add_spec, opp_spec, Prim2SF_zero.
  destruct (Prim2SF p) as [s|s| |s m e]; try contradiction.
  - destruct s; reflexivity.
  - unfold SF64add. cbn [SFopp SFadd].
    destruct (shl_align m e (Z.min e e)) as [m' e'].
    cbn [fst]. replace (cond_Zopp (negb s) (Zpos m') + cond_Zopp s (Zpos m'))%Z
      with 0%Z by (destruct s; cbn [negb cond_Zopp]; lia).
    reflexivity.
Qed.

(** X22.  Whatever the sizes, for a page height that is finite, a second
    page of the document of [exportElementToPDF] holds the image at the
    height [-0]: it shows the top of the image, as the first page does. *)
Theorem exportElementToPDF_second_page (fuel : nat) (canvas : Canvas) (size : PageSize) :
  let w := pageWidth size in
  let h := (canvas_height canvas * w / canvas_width canvas)%float in
  Number_isFinite (pageHeight size) = true ->
  match exportElementToPDF fuel canvas size with
  | Some (first :: second :: _) =>
      first = page_of w h 0 /\ second = page_of w h (-0)
  | _ => True
  end.
Proof.
  cbv zeta. intro F. unfold exportElementToPDF. cbv zeta.
  destruct fuel as [|fuel]; cbn [pageLoop];
    destruct (gt _ 0); try exact I.
  rewrite addImage_on_new_page, opp_plus_self by exact F.
  match goal with |- match ?r with _ => _ end => destruct r as [doc|] eqn:E end;
    [|exact I].
  apply pageLoop_extends in E. destruct E as (ys & ->).
  cbn [addImage newDocument rev app]. split; reflexivity.
Qed.

End ExportFacts.

(** ** The scale of the capture *)

Module ScaleFacts.

Import Preview.

Lemma Math_max_one r :
  Math_max [1%float; r] = if is_nan r then nan else if (1 <? r)%float then r else 1%float.
Proof.
  unfold Math_max. cbn [existsb fold_left].
  replace (is_nan 1%float) with false by reflexivity.
  replace (max_step neg_infinity 1%float) with 1%float by reflexivity.
  rewrite orb_false_r. cbn [orb].
  destruct (is_nan r); [reflexivity|].
  unfold max_step.
  replace (is_zero 1%float && get_sign 1%float) with false by reflexivity.
  rewrite andb_false_r. reflexivity.
Qed.

Lemma Math_min_two m :
  Math_min [2%float; m] = if is_nan m then nan else if (m <? 2)%float then m else 2%float.
Proof.
  unfold Math_min. cbn [existsb fold_left].
  replace (is_nan 2%float) with false by reflexivity.
  replace (min_step infinity 2%float) with 2%float by reflexivity.
  rewrite orb_false_r. cbn [orb].
  destruct (is_nan m); [reflexivity|].
  unfold min_step.
  replace (is_zero 2%float && negb (get_sign 2%float)) with false by reflexivity.
  rewrite andb_false_r. reflexivity.
Qed.

Lemma ltb_leb x y : (x <? y)%float = true -> (x <=? y)%float = true.
Proof.
  rewrite ltb_spec, leb_spec. unfold SFltb, SFleb.
  destruct (SFcompare _ _) as [[]|]; try discriminate; reflexivity.
Qed.

Local Open Scope Z_scope.

Lemma SFdiv_core_nonneg m1 e1 m2 e2 :
  0 <= fst (fst (SFdiv_core_binary 53 1024 (Zpos m1) e1 (Zpos m2) e2)).
Proof.
  unfold SFdiv_core_binary.
  set (s := e1 - e2 - _).
  set (m' := match s with Zpos _ => Z.shiftl (Zpos m1) s | 0 => Zpos m1 | Zneg _ => 0 end).
  assert (Hm : 0 <= m').
  { subst m'. destruct s; try lia. apply Z.shiftl_nonneg. lia. }
  pose proof (Z.div_pos m' (Zpos m2) Hm eq_refl) as Q.
  unfold Z.div in Q. destruct (Z.div_eucl m' (Zpos m2)) as [q r]. exact Q.
Qed.

Local Close Scope Z_scope.

(** A finite number that is not 0, divided by a number, is a number. *)
Lemma div_not_nan x y :
  match Prim2SF x with S754_finite _ _ _ => True | _ => False end ->
  is_nan (x / y) = is_nan y.
Proof.
  intro F. rewrite !is_nan_spec, div_spec. unfold SF64div.
  change prec with 53%Z. change emax with 1024%Z.
  destruct (Prim2SF x) as [sx|sx| |sx mx ex]; try contradiction.
  destruct (Prim2SF y) as [sy|sy| |sy my ey]; try reflexivity.
  cbn [SFdiv].
  pose proof (SFdiv_core_nonneg mx ex my ey) as N.
  destruct (SFdiv_core_binary 53 1024 (Zpos mx) ex (Zpos my) ey) as [[mz ez] lz].
  cbn [fst] in N.
  pose proof (binary_round_aux_not_nan (xorb sx sy) mz ez lz N) as R.
  destruct (binary_round_aux 53 1024 (xorb sx sy) mz ez lz); try reflexivity.
  discriminate R.
Qed.

(** X23.  The scale at which the element is captured is a number between
    1 and 2, both included, for every width that is a number, the width 0
    included; it is [NaN] only for a width that is [NaN]. *)
Theorem captureScale_clamped (rectWidth : number) :
  Number_isNaN (captureScale rectWidth) = Number_isNaN rectWidth
  /\ (Number_isNaN rectWidth = false ->
      ge (captureScale rectWidth) 1 = true /\ ge 2 (captureScale rectWidth) = true)
  /\ captureScale 0 = 2%float.
Proof.
  unfold Number_isNaN, ge.
  assert (D : is_nan (1440 / rectWidth) = is_nan rectWidth)
    by (apply div_not_nan; exact I).
  unfold captureScale. rewrite Math_max_one, D.
  split; [|split; [|reflexivity]].
  - rewrite Math_min_two. destruct (is_nan rectWidth) eqn:N; [reflexivity|].
    destruct (1 <? 1440 / rectWidth)%float eqn:A.
    + rewrite D. destruct (1440 / rectWidth <? 2)%float; [exact D | reflexivity].
    + reflexivity.
  - intro N. rewrite N, Math_min_two.
    destruct (1 <? 1440 / rectWidth)%float eqn:A.
    + rewrite D, N.
      destruct (1440 / rectWidth <? 2)%float eqn:B.
      * split; apply ltb_leb; assumption.
      * split; reflexivity.
    + split; reflexivity.
Qed.

End ScaleFacts.

(* ================================================================== *)
(** * Identifiers *)

Section Nibbles.

Local Open Scope Z_scope.

(** A mantissa in canonical position, followed by zeros, is rounded to
    itself. *)
Lemma binary_round_aux_exact s m k e :
  fexp 53 1024 (bits m + e) = e -> e <= 971 ->
  binary_round_aux 53 1024 s (Zpos (Pos.iter xO m k)) (e - Zpos k) loc_Exact
  = S754_finite s m e.
Proof.
  intros Hf He. unfold binary_round_aux, shr_fexp at 1. cbn [Zdigits2].
  fold (bits (Pos.iter xO m k)).
  rewrite (bits_shift m _ (Zpos k)) by (try apply iter_xO_value; lia).
  replace (bits m + Zpos k + (e - Zpos k)) with (bits m + e) by lia.
  rewrite Hf.
  replace (e - (e - Zpos k)) with (Zpos k) by lia.
  cbn [shr shr_record_of_loc]. rewrite shr_iter_xO.
  cbn [shr_m loc_of_shr_record round_nearest_even].
  replace (e - Zpos k + Zpos k) with e by lia.
  unfold shr_fexp. cbn [Zdigits2]. fold (bits m). rewrite Hf.
  replace (e - e) with 0 by lia. cbn [shr shr_record_of_loc shr_m].
  replace (e <=? 1024 - 53) with true by (symmetry; apply Z.leb_le; lia).
  reflexivity.
Qed.

Lemma Prim2SF_one_sixteen :
  Prim2SF 1 = S754_finite false 4503599627370496 (-52)
  /\ Prim2SF 16 = S754_finite false 4503599627370496 (-48).
Proof. vm_compute. split; reflexivity. Qed.

Lemma below_one m e :
  bounded 53 1024 m e = true ->
  SFltb (S754_finite false m e) (Prim2SF 1) = true ->
  e <= -52 /\ Zpos m < 2 ^ (- e).
Proof.
  intros V L. apply valid_bits in V. destruct V as (B & E & N).
  pose proof (bits_bounds m) as [_ U].
  assert (U53 : Zpos m < 2 ^ 53).
  { eapply Z.lt_le_trans; [exact U|]. apply Z.pow_le_mono_r; lia. }
  rewrite (proj1 Prim2SF_one_sixteen) in L.
  remember 4503599627370496%positive as c eqn:Hc.
  unfold SFltb in L. cbn [SFcompare] in L.
  destruct (Z.compare_spec e (-52)) as [C|C|C].
  - subst e. split; [lia|].
    destruct (Pos.compare_cont Eq m c) eqn:P; try discriminate L.
    change (Pos.compare_cont Eq m c) with (Pos.compare m c) in P.
    apply (proj1 (Pos.compare_lt_iff m c)) in P.
    replace (2 ^ (- -52)) with (Zpos c) by (rewrite Hc; reflexivity). lia.
  - split; [lia|].
    eapply Z.lt_le_trans; [exact U53|]. apply Z.pow_le_mono_r; lia.
  - discriminate L.
Qed.

(** Sixteen times a number of the range of [Math.random], cut to an
    integer, is one of 0, ..., 15. *)
Lemma random_nibble (x : number) :
  in_unit_range x = true -> 0 <= toInt32 (x * 16) < 16.
Proof.
  unfold in_unit_range. intro H. apply andb_prop in H. destruct H as [H0 H1].
  rewrite leb_spec, Prim2SF_zero in H0. rewrite ltb_spec in H1.
  pose proof (Prim2SF_valid x) as V.
  unfold toInt32. rewrite mul_spec. unfold SF64mul.
  change prec with 53. change emax with 1024.
  rewrite (proj2 Prim2SF_one_sixteen).
  destruct (Prim2SF x) as [s|s| |s m e]; cbn [SFmul]; try lia;
    try discriminate H1.
  destruct s; [discriminate H0|]. cbn [xorb].
  cbn [valid_binary] in V.
  destruct (below_one m e V H1) as [E M].
  apply valid_bits in V. destruct V as (B & E' & N).
  pose proof (bits_pos m) as P.
  set (j := Z.min 4 (53 - bits m)).
  assert (Hj : 0 <= j <= 4) by (unfold j; lia).
  set (m' := Z.to_pos (Zpos m * 2 ^ j)).
  assert (Vm' : Zpos m' = Zpos m * 2 ^ j).
  { unfold m'. rewrite Z2Pos.id; [reflexivity|].
    apply Z.mul_pos_pos; [lia|]. apply Z.pow_pos_nonneg; lia. }
  assert (Bm' : bits m' = bits m + j) by (apply (bits_shift m m' j); lia).
  destruct (52 - j) as [|k|k] eqn:K; try lia.
  assert (R : (m * 4503599627370496)%positive = Pos.iter xO m' k).
  { apply Pos2Z.inj. rewrite iter_xO_value, Vm', Pos2Z.inj_mul.
    rewrite <- Z.mul_assoc, <- Z.pow_add_r by lia.
    replace (j + Zpos k) with 52 by lia. reflexivity. }
  rewrite R. replace (e + -48) with (e + 4 - j - Zpos k) by lia.
  rewrite binary_round_aux_exact.
  - replace (0 <=? e + 4 - j) with false by (symmetry; apply Z.leb_gt; lia).
    assert (Q : 0 <= Zpos m' / 2 ^ (- (e + 4 - j)) < 16).
    { split; [apply Z.div_pos; [lia|]; apply Z.pow_pos_nonneg; lia|].
      apply Z.div_lt_upper_bound; [apply Z.pow_pos_nonneg; lia|].
      rewrite Vm'. change 16 with (2 ^ 4).
      rewrite <- Z.pow_add_r by lia.
      replace (- (e + 4 - j) + 4) with (- e + j) by lia.
      rewrite Z.pow_add_r by lia.
      apply Z.mul_lt_mono_pos_r; [apply Z.pow_pos_nonneg; lia | exact M]. }
    rewrite Z.mod_small; lia.
  - rewrite Bm'. unfold fexp, emin.
    destruct (Z.min_spec 4 (53 - bits m)) as [[L Ej]|[L Ej]]; fold j in Ej.
    + assert (e = -1074) by (destruct (Z.eq_dec e (-1074)); [assumption|];
        assert (bits m = 53) by (apply N; lia); lia). lia.
    + lia.
  - lia.
Qed.

End Nibbles.

Module UuidFacts.

Import Uuid.

Lemma toString16_nibble (r : Z) :
  (0 <= r < 16)%Z ->
  exists c, toString16 r = String c EmptyString /\ lowerHex c = true.
Proof.
  intro H.
  assert (C : (r = 0 \/ r = 1 \/ r = 2 \/ r = 3 \/ r = 4 \/ r = 5 \/ r = 6
               \/ r = 7 \/ r = 8 \/ r = 9 \/ r = 10 \/ r = 11 \/ r = 12
               \/ r = 13 \/ r = 14 \/ r = 15)%Z) by lia.
  repeat (destruct C as [->|C]; [eexists; split; reflexivity|]).
  subst r. eexists; split; reflexivity.
Qed.

Lemma toString16_variant (r : Z) :
  (0 <= r < 16)%Z ->
  exists c, toString16 (Z.lor (Z.land r 3) 8) = String c EmptyString
            /\ variantDigit c = true.
Proof.
  intro H.
  assert (C : (r = 0 \/ r = 1 \/ r = 2 \/ r = 3 \/ r = 4 \/ r = 5 \/ r = 6
               \/ r = 7 \/ r = 8 \/ r = 9 \/ r = 10 \/ r = 11 \/ r = 12
               \/ r = 13 \/ r = 14 \/ r = 15)%Z) by lia.
  repeat (destruct C as [->|C]; [eexists; split; reflexivity|]).
  subst r. eexists; split; reflexivity.
Qed.

Lemma variant_is_hex (c : ascii) : variantDigit c = true -> lowerHex c = true.
Proof.
  unfold variantDigit, lowerHex. cbn [list_ascii_of_string existsb].
  intro H. repeat (apply orb_prop in H; destruct H as [H|H]);
    try discriminate H; rewrite H; rewrite ?orb_true_r; reflexivity.
Qed.

Lemma replacement_char (c : ascii) (drawn : number) :
  in_unit_range drawn = true ->
  (Ascii.eqb c "x" || Ascii.eqb c "y")%bool = true ->
  exists c', replacement c drawn = String c' EmptyString /\ replaced c c'.
Proof.
  intros R X. pose proof (random_nibble drawn R) as N.
  unfold replacement, replaced. destruct (Ascii.eqb c "x") eqn:E.
  - destruct (toString16_nibble _ N) as (c' & -> & H).
    exists c'. split; [reflexivity | exact H].
  - cbn [orb] in X. rewrite X.
    destruct (toString16_variant _ N) as (c' & -> & H).
    exists c'. split; [reflexivity | exact H].
Qed.

Lemma replaced_is_fine (c c' : ascii) :
  replaced c c' ->
  (Ascii.eqb c "x" || Ascii.eqb c "y" || lowerHex c || Ascii.eqb c "-")%bool = true ->
  (lowerHex c' || Ascii.eqb c' "-")%bool = true.
Proof.
  unfold replaced. destruct (Ascii.eqb c "x").
  - intros -> _. reflexivity.
  - destruct (Ascii.eqb c "y").
    + intros H _. rewrite (variant_is_hex _ H). reflexivity.
    + intros -> H. exact H.
Qed.

Section Replace.

Variable Math_random : nat -> number * nat.

Hypothesis in_range : forall g, in_unit_range (fst (Math_random g)) = true.

Lemma replace_xy_spec (s : string) : forall g,
  let out := fst (replace_xy Math_random s g) in
  String.length out = String.length s
  /\ (forall i c, String.get i s = Some c ->
        exists c', String.get i out = Some c' /\ replaced c c')
  /\ (forallb (fun c => Ascii.eqb c "x" || Ascii.eqb c "y" || lowerHex c
                         || Ascii.eqb c "-")
         (list_ascii_of_string s) = true ->
      forallb (fun c => lowerHex c || Ascii.eqb c "-") (list_ascii_of_string out)
      = true).
Proof.
  induction s as [|c rest IH]; intro g; cbv zeta.
  - cbn [replace_xy fst]. split; [reflexivity|]. split; [|trivial].
    intros i ch H. destruct i; discriminate H.
  - assert (S : exists c' out g',
               replace_xy Math_random (String c rest) g = (String c' out, g')
               /\ replaced c c' /\ exists g1, out = fst (replace_xy Math_random rest g1)).
    { cbn [replace_xy].
      destruct (Ascii.eqb c "x" || Ascii.eqb c "y")%bool eqn:X.
      - pose proof (in_range g) as R.
        destruct (Math_random g) as [drawn g1]. cbn [fst] in R.
        destruct (replacement_char c drawn R X) as (c' & -> & Hc).
        destruct (replace_xy Math_random rest g1) as [out g2] eqn:E.
        exists c', out, g2. split; [reflexivity|]. split; [exact Hc|].
        exists g1. rewrite E. reflexivity.
      - destruct (replace_xy Math_random rest g) as [out g2] eqn:E.
        exists c, out, g2. split; [reflexivity|]. split.
        + unfold replaced. apply orb_false_elim in X. destruct X as [-> ->].
          reflexivity.
        + exists g. rewrite E. reflexivity. }
    destruct S as (c' & out & g' & -> & Hc & g1 & ->). cbn [fst].
    destruct (IH g1) as (L & G & F). cbv zeta in L, G, F.
    split; [cbn [String.length]; rewrite L; reflexivity|]. split.
    + intros [|i] ch H; cbn [String.get] in *.
      * injection H as <-. exists c'. split; [reflexivity | exact Hc].
      * apply G. exact H.
    + cbn [list_ascii_of_string forallb]. intro H. apply andb_prop in H.
      destruct H as [H1 H2]. rewrite (replaced_is_fine c c' Hc H1). cbn [andb].
      apply F. exact H2.
Qed.

End Replace.

(** X24.  While [Math.random] draws numbers from 0 up to, and not
    including, 1, the identifier which [uuid] makes has the form of a
    random identifier of RFC 4122: 36 characters, hyphens at the places 8,
    13, 18 and 23, the version 4 at place 14, one of 8, 9, a, b at place 19,
    and digits of the hexadecimal notation in lower case elsewhere. *)
Theorem uuid_format (Math_random : nat -> number * nat) (g : nat) :
  (forall g', in_unit_range (fst (Math_random g')) = true) ->
  let u := fst (uuid Math_random g) in
  String.length u = 36%nat
  /\ String.get 8 u = Some "-"%char /\ String.get 13 u = Some "-"%char
  /\ String.get 18 u = Some "-"%char /\ String.get 23 u = Some "-"%char
  /\ String.get 14 u = Some "4"%char
  /\ match String.get 19 u with
     | Some c => variantDigit c = true
     | None => False
     end
  /\ forallb (fun c => lowerHex c || Ascii.eqb c "-") (list_ascii_of_string u) = true
  /\ (forall i c, String.get i u = Some c ->
        if ((i =? 8) || (i =? 13) || (i =? 18) || (i =? 23))%nat
        then c = "-"%char
        else lowerHex c = true).
Proof.
  intros R u. subst u. unfold uuid.
  destruct (replace_xy_spec Math_random R template g) as (L & G & F).
  cbv zeta in L, G, F.
  split; [exact L|].
  assert (P : forall i c,
             String.get i (fst (replace_xy Math_random template g)) = Some c ->
             exists c0, String.get i template = Some c0 /\ replaced c0 c).
  { intros i c H. destruct (String.get i template) as [c0|] eqn:T.
    - exists c0. split; [reflexivity|].
      destruct (G i c0 T) as (c' & E & Hc).
      rewrite E in H. injection H as <-. exact Hc.
    - exfalso. clear G F.
      revert H. generalize (fst (replace_xy Math_random template g)) L.
      revert T. generalize template. clear.
      induction i as [|i IH]; intros [|a s] T [|b o] L H;
        try discriminate; cbn [String.get String.length] in *.
      injection L as L. exact (IH s T o L H). }
  assert (K : forall i c, String.get i template = Some c ->
                Ascii.eqb c "x" = false -> Ascii.eqb c "y" = false ->
                String.get i (fst (replace_xy Math_random template g)) = Some c).
  { intros i c H X Y. destruct (G i c H) as (c' & E & Hc).
    unfold replaced in Hc. rewrite X, Y in Hc. subst c'. exact E. }
  do 5 (split; [apply K; reflexivity|]).
  split.
  - destruct (G 19%nat "y"%char eq_refl) as (c' & E & Hc).
    match goal with |- match ?t with _ => _ end =>
      replace t with (Some c') by (symmetry; exact E)
    end.
    exact Hc.
  - split; [apply F; reflexivity|].
    intros i c H. destruct (P i c H) as (c0 & T & Hc). clear - T Hc.
    do 36 (destruct i as [|i];
      [ injection T as <-; cbv beta iota delta [replaced Ascii.eqb Bool.eqb] in Hc;
        cbn [Nat.eqb orb];
        first [ exact Hc | symmetry; exact Hc | apply variant_is_hex; exact Hc
              | subst c; reflexivity ]
      | ]).
    discriminate T.
Qed.

End UuidFacts.

(* ================================================================== *)
(** * Pagination of whole heights

    Sums and differences of integers of magnitude below 2^53 are exact in
    binary64, so for an image and a page whose heights are whole numbers
    the two page loops can be followed to their end. *)

Section WholeNumbers.

Local Open Scope Z_scope.

Lemma binary_round_scaled s a q k :
  bits a <= 53 -> 0 <= k -> Zpos q = Zpos a * 2 ^ k ->
  binary_round 53 1024 s q (- k) = S754_finite s (mant a) (expo a).
Proof.
  intros Ha Hk Hq. pose proof (bits_pos a) as P.
  unfold binary_round. fold (bits q).
  rewrite (bits_shift a q k) by assumption.
  replace (fexp 53 1024 (bits a + k + - k)) with (bits a - 53)
    by (unfold fexp, emin; lia).
  destruct (Z_le_gt_dec (bits a - 53) (- k)) as [L|G].
  - destruct (shl_align_value q (- k) (bits a - 53) L) as (m' & -> & V).
    assert (m' = mant a) as ->.
    { apply Pos2Z.inj. rewrite V, Hq, mant_value by assumption.
      rewrite <- Z.mul_assoc, <- Z.pow_add_r by lia. f_equal. f_equal. lia. }
    apply binary_round_aux_canonical; [now apply bits_mant | unfold expo; lia].
  - unfold shl_align. destruct (bits a - 53 - - k) as [|d|d] eqn:D; try lia.
    assert (q = Pos.iter xO (mant a) d) as ->.
    { apply Pos2Z.inj. rewrite iter_xO_value, Hq, mant_value by assumption.
      rewrite <- Z.mul_assoc, <- Z.pow_add_r by lia. f_equal. f_equal. lia. }
    replace (- k) with (expo a - Zpos d) by (unfold expo; lia).
    apply binary_round_aux_shifted; [now apply bits_mant | unfold expo; lia].
Qed.

Lemma binary_normalize_scaled d k :
  - 2 ^ 53 < d < 2 ^ 53 -> 0 <= k ->
  binary_normalize 53 1024 (d * 2 ^ k) (- k) false = whole d.
Proof.
  intros Hd Hk. assert (P : 0 < 2 ^ k) by (apply Z.pow_pos_nonneg; lia).
  destruct d as [|a|a].
  - reflexivity.
  - destruct (Zpos a * 2 ^ k) as [|q|q] eqn:Q; try lia.
    cbn [binary_normalize whole]. apply binary_round_scaled; [|lia|lia].
    apply bits_small. lia.
  - destruct (Zneg a * 2 ^ k) as [|q|q] eqn:Q; try lia.
    cbn [binary_normalize whole]. apply binary_round_scaled; [|lia|lia].
    apply bits_small. lia.
Qed.

Lemma valid_whole z : - 2 ^ 53 < z < 2 ^ 53 -> valid_binary (whole z) = true.
Proof.
  intro H. destruct z as [|a|a]; [reflexivity|..];
    apply (valid_canon a); apply bits_small; lia.
Qed.

Lemma Prim2SF_whole z :
  - 2 ^ 53 < z < 2 ^ 53 -> Prim2SF (number_of_Z z) = whole z.
Proof.
  intro H. unfold number_of_Z. change prec with 53. change emax with 1024.
  replace (binary_normalize 53 1024 z 0 false) with (whole z).
  - apply Prim2SF_SF2Prim, valid_whole, H.
  - symmetry. pose proof (binary_normalize_scaled z 0 H (Z.le_refl 0)) as N.
    change (2 ^ 0) with 1 in N. rewrite Z.mul_1_r in N. exact N.
Qed.

Lemma aligned_whole a ez :
  bits a <= 53 -> ez <= expo a ->
  Zpos (fst (shl_align (mant a) (expo a) ez)) = Zpos a * 2 ^ (- ez).
Proof.
  intros Ha He. pose proof (bits_pos a) as P.
  destruct (shl_align_value (mant a) (expo a) ez He) as (m' & E & V).
  rewrite E. cbn [fst]. rewrite V, mant_value by assumption. unfold expo in *.
  rewrite <- Z.mul_assoc, <- Z.pow_add_r by lia. f_equal. f_equal. lia.
Qed.

Lemma SFsub_whole a b :
  - 2 ^ 53 < a < 2 ^ 53 -> - 2 ^ 53 < b < 2 ^ 53 -> - 2 ^ 53 < a - b < 2 ^ 53 ->
  SFsub 53 1024 (whole a) (whole b) = whole (a - b).
Proof.
  intros Ha Hb Hd.
  destruct a as [|x|x]; destruct b as [|y|y]; try reflexivity.
  all: assert (Bx : bits x <= 53) by (apply bits_small; lia).
  all: assert (By : bits y <= 53) by (apply bits_small; lia).
  all: pose proof (bits_pos x); pose proof (bits_pos y).
  all: cbn [whole SFsub].
  all: set (ez := Z.min (expo x) (expo y)).
  all: assert (Ez : ez <= expo x /\ ez <= expo y /\ ez <= 0)
         by (unfold ez, expo; lia).
  all: rewrite !aligned_whole by (assumption || apply Ez).
  all: cbn [cond_Zopp].
  all: replace ez with (- - ez) at 3 by lia.
  all: try change (Z.neg x) with (- Z.pos x).
  all: try change (Z.neg y) with (- Z.pos y).
  all: match goal with
       | |- binary_normalize _ _ ?m _ _ = whole ?d =>
           replace m with (d * 2 ^ (- ez)) by ring
       end.
  all: apply binary_normalize_scaled; lia.
Qed.

Lemma SFadd_whole a b :
  - 2 ^ 53 < a < 2 ^ 53 -> - 2 ^ 53 < b < 2 ^ 53 -> - 2 ^ 53 < a + b < 2 ^ 53 ->
  SFadd 53 1024 (whole a) (whole b) = whole (a + b).
Proof.
  intros Ha Hb Hd.
  destruct a as [|x|x]; destruct b as [|y|y]; try reflexivity.
  all: assert (Bx : bits x <= 53) by (apply bits_small; lia).
  all: assert (By : bits y <= 53) by (apply bits_small; lia).
  all: pose proof (bits_pos x); pose proof (bits_pos y).
  all: cbn [whole SFadd].
  all: set (ez := Z.min (expo x) (expo y)).
  all: assert (Ez : ez <= expo x /\ ez <= expo y /\ ez <= 0)
         by (unfold ez, expo; lia).
  all: rewrite !aligned_whole by (assumption || apply Ez).
  all: cbn [cond_Zopp].
  all: replace ez with (- - ez) at 3 by lia.
  all: try change (Z.neg x) with (- Z.pos x).
  all: try change (Z.neg y) with (- Z.pos y).
  all: match goal with
       | |- binary_normalize _ _ ?m _ _ = whole ?d =>
           replace m with (d * 2 ^ (- ez)) by ring
       end.
  all: apply binary_normalize_scaled; lia.
Qed.

Local Close Scope Z_scope.

(** Differences and sums of whole numbers are exact. *)
Lemma number_of_Z_sub (a b : Z) :
  (- 2 ^ 53 < a < 2 ^ 53)%Z -> (- 2 ^ 53 < b < 2 ^ 53)%Z ->
  (- 2 ^ 53 < a - b < 2 ^ 53)%Z ->
  (number_of_Z a - number_of_Z b)%float = number_of_Z (a - b).
Proof.
  intros Ha Hb Hd. apply Prim2SF_inj.
  rewrite sub_spec, !Prim2SF_whole by assumption.
  unfold SF64sub. change prec with 53%Z. change emax with 1024%Z.
  apply SFsub_whole; assumption.
Qed.

Lemma number_of_Z_add (a b : Z) :
  (- 2 ^ 53 < a < 2 ^ 53)%Z -> (- 2 ^ 53 < b < 2 ^ 53)%Z ->
  (- 2 ^ 53 < a + b < 2 ^ 53)%Z ->
  (number_of_Z a + number_of_Z b)%float = number_of_Z (a + b).
Proof.
  intros Ha Hb Hd. apply Prim2SF_inj.
  rewrite add_spec, !Prim2SF_whole by assumption.
  unfold SF64add. change prec with 53%Z. change emax with 1024%Z.
  apply SFadd_whole; assumption.
Qed.

Lemma number_of_Z_positive (a : Z) :
  (- 2 ^ 53 < a < 2 ^ 53)%Z -> gt (number_of_Z a) 0 = (0 <? a)%Z.
Proof.
  intro H. unfold gt. rewrite ltb_spec, Prim2SF_zero, Prim2SF_whole by assumption.
  destruct a; reflexivity.
Qed.

Lemma number_of_Z_opp (a : Z) :
  (- 2 ^ 53 < a < 2 ^ 53)%Z -> a <> 0%Z ->
  (- number_of_Z a)%float = number_of_Z (- a).
Proof.
  intros H N. apply Prim2SF_inj.
  rewrite opp_spec, !Prim2SF_whole by lia.
  destruct a; [contradiction|reflexivity|reflexivity].
Qed.

End WholeNumbers.

Module WholePages.

Import Pdf Preview.

Section Loops.

Variables (size : PageSize) (w H : number) (p : Z).

Hypothesis page : pageHeight size = number_of_Z p.

Hypothesis p_range : (0 < p < 2 ^ 53)%Z.

Lemma rounds_zero (a : Z) : (a <= 0)%Z -> rounds a p = 0%nat.
Proof.
  intro Ha. unfold rounds.
  assert ((a + p - 1) / p < 1)%Z by (apply Z.div_lt_upper_bound; lia). lia.
Qed.

Lemma rounds_succ (a : Z) : (0 < a)%Z -> rounds a p = S (rounds (a - p) p).
Proof.
  intro Ha. unfold rounds.
  replace (a + p - 1)%Z with (a - p + p - 1 + 1 * p)%Z by lia.
  rewrite Z.div_add by lia.
  assert (0 <= (a - p + p - 1) / p)%Z by (apply Z.div_pos; lia). lia.
Qed.

Lemma pageLoop_whole (fuel : nat) : forall a b pdf,
  (- 2 ^ 53 < a < 2 ^ 53)%Z -> (- 2 ^ 53 < b)%Z -> (a + b + p <= 2 ^ 53)%Z ->
  (rounds a p <= fuel)%nat ->
  pageLoop fuel size w H pdf (number_of_Z a) (number_of_Z b)
  = Some (pdf ++ map (fun k => page_of w H (- number_of_Z (b + Z.of_nat (S k) * p)))
                   (seq 0 (rounds a p))).
Proof.
  induction fuel as [|fuel IH]; intros a b pdf Ha Hb Hab Hf; cbn [pageLoop];
    rewrite number_of_Z_positive by exact Ha;
    destruct (0 <? a)%Z eqn:Pa.
  - apply Z.ltb_lt in Pa. rewrite rounds_succ in Hf by exact Pa. lia.
  - apply Z.ltb_ge in Pa. rewrite rounds_zero by exact Pa.
    cbn [seq map]. rewrite app_nil_r. reflexivity.
  - apply Z.ltb_lt in Pa. rewrite rounds_succ in * by exact Pa.
    rewrite ExportFacts.addImage_on_new_page, page.
    rewrite number_of_Z_add, number_of_Z_sub by lia.
    rewrite IH by lia.
    f_equal. rewrite <- app_assoc. f_equal. cbn [seq map app].
    f_equal.
    + unfold page_of. do 4 f_equal. lia.
    + rewrite <- seq_shift, map_map. apply map_ext. intro k.
      unfold page_of. do 4 f_equal. rewrite !Nat2Z.inj_succ. ring.
  - apply Z.ltb_ge in Pa. rewrite rounds_zero by exact Pa.
    cbn [seq map]. rewrite app_nil_r. reflexivity.
Qed.

Lemma previewLoop_whole (h : Z) (fuel : nat) : forall a pdf,
  H = number_of_Z h -> (0 <= h < 2 ^ 53)%Z -> (- 2 ^ 53 < a <= h)%Z ->
  (rounds a p <= fuel)%nat ->
  previewLoop fuel size w H pdf (number_of_Z a)
  = Some (pdf ++ map (fun k => page_of w H (number_of_Z (a - h - Z.of_nat k * p)))
                   (seq 0 (rounds a p))).
Proof.
  intros a pdf EH Hh. revert a pdf.
  induction fuel as [|fuel IH]; intros a pdf Ha Hf; cbn [previewLoop];
    rewrite number_of_Z_positive by lia;
    destruct (0 <? a)%Z eqn:Pa.
  - apply Z.ltb_lt in Pa. rewrite rounds_succ in Hf by exact Pa. lia.
  - apply Z.ltb_ge in Pa. rewrite rounds_zero by exact Pa.
    cbn [seq map]. rewrite app_nil_r. reflexivity.
  - apply Z.ltb_lt in Pa. rewrite rounds_succ in * by exact Pa.
    rewrite ExportFacts.addImage_on_new_page, page.
    assert (E : (number_of_Z a - H)%float = number_of_Z (a - h))
      by (rewrite EH; apply number_of_Z_sub; lia).
    rewrite E, number_of_Z_sub by lia.
    rewrite IH by lia.
    f_equal. rewrite <- app_assoc. f_equal. cbn [seq map app].
    f_equal.
    + unfold page_of. do 3 f_equal. cbn [Z.of_nat]. lia.
    + rewrite <- seq_shift, map_map. apply map_ext. intro k.
      unfold page_of. do 3 f_equal. rewrite !Nat2Z.inj_succ. ring.
  - apply Z.ltb_ge in Pa. rewrite rounds_zero by exact Pa.
    cbn [seq map]. rewrite app_nil_r. reflexivity.
Qed.

End Loops.

(** X25.  For an image of the whole height [h] on pages of the whole
    height [p], [exportElementToPDF] ends, with one page and then one page
    for each [p] which the height exceeds the first page by; but page [k]
    after the first holds the image moved up by [k - 1] page heights, not
    by [k]: the second page shows what the first shows, and the last page
    height of a longer image is on no page. *)
Theorem exportElementToPDF_whole_heights (fuel : nat) (canvas : Canvas)
    (size : PageSize) (h p : Z) :
  let w := pageWidth size in
  let H := (canvas_height canvas * w / canvas_width canvas)%float in
  H = number_of_Z h -> pageHeight size = number_of_Z p ->
  (0 <= h < 2 ^ 53)%Z -> (0 < p < 2 ^ 53)%Z ->
  (rounds (h - p) p <= fuel)%nat ->
  exportElementToPDF fuel canvas size
  = Some (page_of w H 0
          :: map (fun k => page_of w H (- number_of_Z (Z.of_nat k * p)))
               (seq 0 (rounds (h - p) p))).
Proof.
  intros w H EH Ep Hh Hp Hf. unfold exportElementToPDF. cbv zeta.
  fold w. fold H. rewrite Ep.
  assert (E : (H - number_of_Z p)%float = number_of_Z (h - p))
    by (rewrite EH; apply number_of_Z_sub; lia).
  rewrite E, number_of_Z_opp by lia.
  rewrite (pageLoop_whole size w H p Ep Hp fuel) by lia.
  cbn [addImage newDocument rev app]. unfold page_of at 1. f_equal. f_equal.
  apply map_ext. intro k. unfold page_of. do 4 f_equal.
  rewrite Nat2Z.inj_succ. ring.
Qed.

(** X26.  For the same whole heights [handleExportPdf] of the billing page
    ends with as many pages, and page [k] after the first holds the image
    moved up by [k] page heights: every part of the image is on a page. *)
Theorem handleExportPdf_whole_heights (fuel : nat) (canvas : Canvas)
    (size : PageSize) (h p : Z) :
  let w := pageWidth size in
  let H := (canvas_height canvas * (w / canvas_width canvas))%float in
  H = number_of_Z h -> pageHeight size = number_of_Z p ->
  (0 <= h < 2 ^ 53)%Z -> (0 < p < 2 ^ 53)%Z ->
  (rounds (h - p) p <= fuel)%nat ->
  handleExportPdf fuel canvas size
  = Some (page_of w H 0
          :: map (fun k => page_of w H (number_of_Z (- (Z.of_nat k * p))))
               (seq 1 (rounds (h - p) p))).
Proof.
  intros w H EH Ep Hh Hp Hf. unfold handleExportPdf. cbv zeta.
  fold w. fold H. rewrite Ep.
  assert (E : (H - number_of_Z p)%float = number_of_Z (h - p))
    by (rewrite EH; apply number_of_Z_sub; lia).
  rewrite E.
  rewrite (previewLoop_whole size w H p Ep Hp h fuel) by (assumption || lia).
  cbn [addImage newDocument rev app]. unfold page_of at 1. f_equal. f_equal.
  rewrite <- seq_shift, map_map.
  apply map_ext. intro k. unfold page_of. do 3 f_equal.
  rewrite Nat2Z.inj_succ. ring.
Qed.

End WholePages.

(* ================================================================== *)
(** * The billing page *)

Section BillingPage.

Context {platform : Platform}.

(** [listInvoices] in one filter. *)
Lemma listInvoices_filtered (w : World) (filters : option InvoiceFilters) :
  listInvoices filters w
  = (Normal (map (refreshed (clock w))
               (filter (passes (clock w) filters) (invoices (stored w)))), w).
Proof.
  unfold listInvoices. steps. unfold ret.
  match goal with |- (Normal (map _ ?a), _) = (Normal (map _ ?b), _) =>
    replace a with b; [reflexivity|]
  end.
  destruct filters as [[st q d1 d2]|]; [|apply filter_true].
  cbn [filter_query filter_dueFrom filter_dueTo].
  destruct st as [[|s]|];
    destruct (given q) eqn:Hq; destruct (given d1) eqn:H1;
    destruct (given d2) eqn:H2;
    rewrite ?filter_and;
    (first [ apply filter_ext | etransitivity; [|apply filter_true]; apply filter_ext ]);
    intro i; unfold passes;
    cbn [filter_status filter_query filter_dueFrom filter_dueTo];
    rewrite ?Hq, ?H1, ?H2; cbn [andb]; rewrite ?andb_true_r, ?andb_assoc;
    reflexivity.
Qed.

(** X27.  [listInvoices] returns, in the order of storage, the refreshed
    form of exactly the stored invoices that pass every filter given: the
    stored status (the derived one only when none is stored) is the status
    asked for, the query occurs in the number or the booking whatever the
    case of the letters, and the due date lies within the bounds, both
    included. *)
Theorem listInvoices_selects (w : World) (filters : option InvoiceFilters) :
  let now := clock w in
  exists l,
    listInvoices filters w = (Normal l, w)
    /\ l = map (refreshed now) (filter (passes now filters) (invoices (stored w)))
    /\ (forall inv,
          In inv l <->
          exists i, In i (invoices (stored w)) /\ passes now filters i = true
                    /\ inv = refreshed now i).
Proof.
  cbv zeta. eexists. split; [apply listInvoices_filtered|].
  split; [reflexivity|]. intro inv. rewrite in_map_iff. split.
  - intros (i & <- & Hin). apply filter_In in Hin. destruct Hin as [Hin Hp].
    exists i. repeat split; assumption.
  - intros (i & Hin & Hp & ->). exists i. split; [reflexivity|].
    apply filter_In. split; assumption.
Qed.

Lemma filter_swap {A} (p q : A -> bool) (l : list A) :
  filter p (filter q l) = filter q (filter p l).
Proof.
  rewrite !filter_and. apply filter_ext. intro x. apply andb_comm.
Qed.

Lemma deleteInvoice_returns (w : World) (invoiceId : UUID) :
  deleteInvoice invoiceId w
  = (Normal tt,
     saved {| invoices := filter (fun i => negb (String.eqb (id i) invoiceId))
                            (invoices (stored w)) |} w).
Proof. unfold deleteInvoice. steps. apply save_returns. Qed.

(** X28.  Deleting from the billing page keeps the page in step with the
    repository: when [JSON] reads back the collection that was saved, the
    invoices which the page holds after [handleDelete] are those which
    [listInvoices] returns for the filters of the page; and when the
    question is answered with no, nothing changes. *)
Theorem handleDelete_in_step (w : World) (filters : option InvoiceFilters)
    (invoiceId : UUID) :
  reads_back {| invoices := filter (fun i => negb (String.eqb (id i) invoiceId))
                              (invoices (stored w)) |} ->
  exists shown shown' w',
    listInvoices filters w = (Normal shown, w)
    /\ handleDelete true invoiceId shown w = (Normal shown', w')
    /\ listInvoices filters w' = (Normal shown', w')
    /\ handleDelete false invoiceId shown w = (Normal shown, w).
Proof.
  intro Hr.
  set (kept := filter (fun i => negb (String.eqb (id i) invoiceId))
                 (invoices (stored w))) in *.
  eexists. eexists. exists (saved {| invoices := kept |} w).
  split; [apply listInvoices_filtered|].
  split.
  { unfold handleDelete. cbn [negb].
    erewrite bind_normal by apply deleteInvoice_returns. reflexivity. }
  split; [|reflexivity].
  rewrite listInvoices_filtered, stored_saved by exact Hr.
  cbn [invoices clock saved]. f_equal. f_equal.
  rewrite filter_map_commute. f_equal. unfold kept.
  change (fun x => negb (String.eqb (id (refreshed (clock w) x)) invoiceId))
    with (fun x : Invoice => negb (String.eqb (id x) invoiceId)).
  apply filter_swap.
Qed.

Lemma recordPayment_found (w : World) (invoiceId : UUID)
    (input : RecordPaymentInput) (t : Z) (before after : list Invoice) (inv : Invoice) :
  invoices (stored w) = before ++ inv :: after ->
  has_id invoiceId before = false ->
  id inv = invoiceId ->
  Date_parse (pay_date input) = Some t ->
  let payment := {| payment_id := fst (uuid_draw (random w));
                    payment_invoice_id := invoiceId;
                    payment_amount := Number (pay_amount input);
                    payment_date := Date_toISOString t;
                    payment_method := pay_method input |} in
  let inv1 := set_payments inv ((payments inv ?? []) ++ [payment]) in
  let inv2 := set_total_amount inv1 (total (computeTotals inv1)) in
  exists w',
    recordPayment invoiceId input w
    = (Normal (set_status inv2
                 (if ge (paid (computeTotals inv1)) (total (computeTotals inv1))
                  then Paid else deriveStatus (clock w) inv2)), w').
Proof.
  intros Hs Hb Hi Hd payment inv1 inv2. unfold recordPayment. steps.
  rewrite Hs, find_at by assumption. steps.
  unfold toISOString. rewrite Hd. steps. unfold ret.
  eexists. reflexivity.
Qed.

Lemma number_of_Z_is_number (a : Z) :
  (- 2 ^ 53 < a < 2 ^ 53)%Z -> is_nan (number_of_Z a) = false.
Proof.
  intro H. rewrite is_nan_spec, Prim2SF_whole by exact H. destruct a; reflexivity.
Qed.

Lemma ge_refl_number (x : number) : is_nan x = false -> ge x x = true.
Proof.
  unfold ge. rewrite is_nan_spec, leb_spec. unfold SFleb.
  rewrite SFcompare_refl. destruct (Prim2SF x); try discriminate; reflexivity.
Qed.

(** X29.  Paying what the payment form offers settles an invoice of whole
    amounts: for a stored invoice whose total [T] and paid amount [P] are
    whole numbers with [P < T], saving the form with the amount it offers,
    the balance, hands back the invoice with the status [Paid], the amount
    paid equal to the total, and the balance 0. *)
Theorem paying_the_balance_settles (w : World) (shown : Invoice) (date : string)
    (method : PaymentMethod) (t T P : Z) (before after : list Invoice)
    (inv : Invoice) :
  invoices (stored w) = before ++ inv :: after ->
  has_id (id shown) before = false ->
  id inv = id shown ->
  computeTotals shown = computeTotals inv ->
  Date_parse date = Some t ->
  total (computeTotals inv) = number_of_Z T ->
  paid (computeTotals inv) = number_of_Z P ->
  (0 <= P < T)%Z -> (T < 2 ^ 53)%Z ->
  RecordPaymentModal_offered shown = number_of_Z (T - P)
  /\ exists inv' w',
       RecordPaymentModal_save shown (RecordPaymentModal_offered shown) date method w
       = (Normal inv', w')
       /\ status inv' = Some Paid
       /\ paid (computeTotals inv') = total (computeTotals inv')
       /\ total (computeTotals inv') = number_of_Z T
       /\ balance (computeTotals inv') = 0%float.
Proof.
  intros Hs Hb Hi Hc Hd HT HP Hr Hm.
  assert (O : RecordPaymentModal_offered shown = number_of_Z (T - P)).
  { unfold RecordPaymentModal_offered. rewrite Hc.
    change (balance (computeTotals inv))
      with (Math_max [0%float; (total (computeTotals inv) - paid (computeTotals inv))%float]).
    rewrite HT, HP, number_of_Z_sub by lia.
    etransitivity; [apply Math_max_zero|].
    rewrite number_of_Z_is_number by lia.
    change (0 <? number_of_Z (T - P))%float with (gt (number_of_Z (T - P)) 0).
    rewrite number_of_Z_positive by lia.
    replace (0 <? T - P)%Z with true by (symmetry; apply Z.ltb_lt; lia).
    reflexivity. }
  split; [exact O|]. rewrite O. unfold RecordPaymentModal_save.
  destruct (recordPayment_found w (id shown)
              {| pay_amount := number_of_Z (T - P); pay_date := date;
                 pay_method := method |} t before after inv Hs Hb Hi Hd)
    as (w' & E).
  cbv zeta in E. cbn [pay_amount pay_method] in E.
  eexists. exists w'. split; [exact E|].
  match type of E with context [set_payments inv ?l] =>
    set (inv1 := set_payments inv l) in * end.
  assert (T1 : total (computeTotals inv1) = number_of_Z T) by exact HT.
  assert (P1 : paid (computeTotals inv1) = number_of_Z T).
  { unfold computeTotals. cbn [paid inv1 set_payments payments nullish].
    rewrite sumAmounts_snoc. cbn [payment_amount].
    change (sumAmounts payment_amount (payments inv ?? [])) with (paid (computeTotals inv)).
    rewrite HP, addend_of_positive.
    - unfold Number. rewrite number_of_Z_add by lia. f_equal. lia.
    - change (gt (number_of_Z (T - P)) 0 = true).
      rewrite number_of_Z_positive by lia. apply Z.ltb_lt. lia. }
  assert (G : ge (paid (computeTotals inv1)) (total (computeTotals inv1)) = true).
  { rewrite P1, T1. apply ge_refl_number, number_of_Z_is_number. lia. }
  rewrite G.
  assert (C : computeTotals
                (set_status (set_total_amount inv1 (total (computeTotals inv1))) Paid)
              = computeTotals inv1).
  { rewrite computeTotals_set_status. apply computeTotals_set_total. }
  rewrite C. split; [reflexivity|]. split; [congruence|]. split; [exact T1|].
  change (balance (computeTotals inv1))
    with (Math_max [0%float; (total (computeTotals inv1) - paid (computeTotals inv1))%float]).
  rewrite T1, P1, number_of_Z_sub by lia.
  replace (T - T)%Z with 0%Z by lia. reflexivity.
Qed.

End BillingPage.

(* ================================================================== *)
(** * The totals of an invoice

    [computeTotals] adds amounts with [s + (Number(amount) || 0)].  A sum
    that starts from 0 is never the negative zero, so the sign of a zero
    amount does not show in it, and the sum is the one of the amounts with
    0 in the place of every [NaN]. *)

Section NegativeZero.

Local Open Scope Z_scope.

Lemma shr_1_value mrs : 0 <= shr_m mrs -> shr_m (shr_1 mrs) = shr_m mrs / 2.
Proof.
  destruct mrs as [m r s]. cbn [shr_m]. intro H.
  destruct m as [|[p|p|]|p]; cbn [shr_1 shr_m]; try lia; try reflexivity.
  - apply (Z.div_unique _ _ _ 1); lia.
  - apply (Z.div_unique _ _ _ 0); lia.
Qed.

Lemma iter_shr_1_value p : forall mrs,
  0 <= shr_m mrs -> shr_m (iter_pos shr_1 p mrs) = shr_m mrs / 2 ^ Zpos p.
Proof.
  induction p as [p IH|p IH|]; intros mrs H; cbn [iter_pos].
  - rewrite IH, IH, shr_1_value by
      (try apply iter_shr_1_nonneg; try apply shr_1_nonneg; exact H).
    rewrite !Z.div_div by lia. f_equal.
    replace (Zpos p~1) with (1 + Zpos p + Zpos p) by lia.
    rewrite !Z.pow_add_r by lia. change (2 ^ 1) with 2. ring.
  - rewrite IH, IH by (try apply iter_shr_1_nonneg; exact H).
    rewrite !Z.div_div by lia. f_equal.
    replace (Zpos p~0) with (Zpos p + Zpos p) by lia.
    rewrite !Z.pow_add_r by lia. ring.
  - rewrite shr_1_value by exact H. reflexivity.
Qed.

Lemma shr_fexp_positive m e l :
  0 < m -> -1074 <= e ->
  0 < shr_m (fst (shr_fexp 53 1024 m e l))
  /\ -1074 <= snd (shr_fexp 53 1024 m e l).
Proof.
  intros Hm He. unfold shr_fexp, shr.
  assert (R : shr_m (shr_record_of_loc m l) = m) by (destruct l as [|[]]; reflexivity).
  destruct (fexp 53 1024 (Zdigits2 m + e) - e) as [|p|p] eqn:N; cbn [fst snd];
    try (rewrite R; split; assumption).
  rewrite iter_shr_1_value by lia. rewrite R. split; [|lia].
  destruct m as [|q|q]; try lia. cbn [Zdigits2] in N. fold (bits q) in N.
  unfold fexp, emin in N.
  assert (E : Zpos p = bits q - 53) by lia.
  pose proof (bits_bounds q) as [L _].
  apply Z.div_str_pos. split; [lia|].
  apply Z.le_trans with (2 ^ (bits q - 1)); [|exact L].
  apply Z.pow_le_mono_r; lia.
Qed.

Lemma round_nearest_even_grows m l : 0 <= m -> m <= round_nearest_even m l.
Proof.
  intro H. destruct l as [|[]]; cbn [round_nearest_even]; try lia.
  destruct (Z.even m); lia.
Qed.

Lemma binary_round_aux_not_zero s m e l :
  0 < m -> -1074 <= e ->
  match binary_round_aux 53 1024 s m e l with
  | S754_zero _ => False
  | _ => True
  end.
Proof.
  intros Hm He. unfold binary_round_aux.
  destruct (shr_fexp_positive m e l Hm He) as [H1 E1].
  destruct (shr_fexp 53 1024 m e l) as [mrs' e']. cbn [fst snd] in H1, E1.
  pose proof (round_nearest_even_grows (shr_m mrs') (loc_of_shr_record mrs')
                ltac:(lia)) as G.
  destruct (shr_fexp_positive (round_nearest_even (shr_m mrs') (loc_of_shr_record mrs'))
              e' loc_Exact ltac:(lia) E1) as [H2 _].
  destruct (shr_fexp 53 1024 _ e' loc_Exact) as [mrs'' e'']. cbn [fst] in H2.
  destruct (shr_m mrs''); [lia| |exact I].
  destruct (e'' <=? 1024 - 53); [exact I|]. destruct s; exact I.
Qed.

Lemma binary_round_not_zero s m e :
  -1074 <= e ->
  match binary_round 53 1024 s m e with
  | S754_zero _ => False
  | _ => True
  end.
Proof.
  intro He. unfold binary_round, shl_align.
  destruct (fexp 53 1024 (Zpos (digits2_pos m) + e) - e) eqn:N;
    apply binary_round_aux_not_zero; try lia.
  unfold fexp, emin. lia.
Qed.

(** A sum is the negative zero only when both of its terms are. *)
Lemma SFadd_negative_zero x y :
  valid_binary x = true -> valid_binary y = true ->
  SFadd 53 1024 x y = S754_zero true ->
  x = S754_zero true /\ y = S754_zero true.
Proof.
  intros Vx Vy E.
  destruct x as [sx|sx| |sx mx ex], y as [sy|sy| |sy my ey]; cbn [SFadd] in E;
    try discriminate E.
  - destruct sx, sy; cbn [Bool.eqb] in E; try discriminate E. split; reflexivity.
  - destruct sx, sy; discriminate E.
  - exfalso. cbn [valid_binary] in Vx, Vy.
    apply valid_bits in Vx, Vy. destruct Vx as (_ & Lx & _), Vy as (_ & Ly & _).
    unfold binary_normalize in E.
    match type of E with match ?z with _ => _ end = _ => destruct z as [|p|p] end;
      try discriminate E.
    + pose proof (binary_round_not_zero false p (Z.min ex ey) ltac:(lia)) as B.
      rewrite E in B. contradiction.
    + pose proof (binary_round_not_zero true p (Z.min ex ey) ltac:(lia)) as B.
      rewrite E in B. contradiction.
Qed.

Local Close Scope Z_scope.

Lemma add_negative_zero (s y : number) :
  Prim2SF (s + y) = S754_zero true ->
  Prim2SF s = S754_zero true /\ Prim2SF y = S754_zero true.
Proof.
  rewrite add_spec. unfold SF64add. change prec with 53%Z. change emax with 1024%Z.
  apply SFadd_negative_zero; apply Prim2SF_valid.
Qed.

End NegativeZero.

Section SumsAsWorded.

Lemma zero_forms x :
  is_zero x = true -> exists b, Prim2SF x = S754_zero b.
Proof.
  unfold is_zero. rewrite eqb_spec.
  change (Prim2SF zero) with (S754_zero false). unfold SFeqb.
  destruct (Prim2SF x) as [b|b| |b m e]; cbn [SFcompare];
    try discriminate; try (destruct b; discriminate).
  intros _. exists b. reflexivity.
Qed.

(** Adding [a || 0] to a sum is adding [a], or 0 when [a] is [NaN]: the
    sign of a zero does not show in a sum that is not the negative zero. *)
Lemma addend_as_worded (s a : number) :
  Prim2SF s <> S754_zero true ->
  (s + (Number a || 0))%float = (s + zero_if_nan a)%float.
Proof.
  intro Hs. unfold or_else, truthy, Number, zero_if_nan.
  destruct (is_nan a) eqn:N; [rewrite orb_true_r; reflexivity|].
  rewrite orb_false_r. destruct (is_zero a) eqn:Z; [|reflexivity].
  cbn [negb]. destruct (zero_forms a Z) as [b E].
  apply Prim2SF_inj. rewrite !add_spec, E, Prim2SF_zero.
  destruct (Prim2SF s) as [[]|[]| |sx m e], b; try reflexivity.
  contradiction Hs. reflexivity.
Qed.

Lemma running_sum_as_worded {A} (amount : A -> number) (l : list A) : forall s,
  Prim2SF s <> S754_zero true ->
  fold_left (fun s x => (s + (Number (amount x) || 0))%float) l s
  = sum_from s (map (fun x => zero_if_nan (amount x)) l).
Proof.
  induction l as [|x l IH]; intros s Hs; cbn [fold_left map sum_from].
  - reflexivity.
  - rewrite addend_as_worded by exact Hs. apply IH.
    intro E. apply add_negative_zero in E. destruct E as [E _]. exact (Hs E).
Qed.

Lemma sumAmounts_as_worded {A} (amount : A -> number) (l : list A) :
  sumAmounts amount l = sum_of (map zero_if_nan (map amount l)).
Proof.
  unfold sumAmounts, sum_of. rewrite map_map.
  apply running_sum_as_worded. rewrite Prim2SF_zero. discriminate.
Qed.

Lemma zero_if_nan_of_numbers (l : list number) :
  forallb (fun a => negb (is_nan a)) l = true -> map zero_if_nan l = l.
Proof.
  induction l as [|a l IH]; cbn [forallb map]; intro H; [reflexivity|].
  apply andb_prop in H. destruct H as [Ha Hl].
  unfold zero_if_nan at 1. apply negb_true_iff in Ha. rewrite Ha, IH by exact Hl.
  reflexivity.
Qed.

Lemma sum_from_whole (zs : list Z) : forall acc,
  (0 <= acc)%Z -> Forall (fun z => (0 <= z)%Z) zs ->
  (acc + fold_right Z.add 0%Z zs < 2 ^ 53)%Z ->
  sum_from (number_of_Z acc) (map number_of_Z zs)
  = number_of_Z (acc + fold_right Z.add 0%Z zs).
Proof.
  induction zs as [|z zs IH]; intros acc Ha Hz Hs; cbn [map sum_from fold_right] in *.
  - rewrite Z.add_0_r. reflexivity.
  - inversion Hz as [|? ? Hz1 Hz2]; subst.
    assert (P : (0 <= fold_right Z.add 0%Z zs)%Z).
    { clear - Hz2. induction Hz2; cbn [fold_right]; lia. }
    rewrite number_of_Z_add by lia.
    rewrite IH by (try assumption; lia). f_equal. lia.
Qed.

Lemma whole_is_number (zs : list Z) :
  Forall (fun z => (0 <= z)%Z) zs -> (fold_right Z.add 0%Z zs < 2 ^ 53)%Z ->
  forallb (fun a => negb (is_nan a)) (map number_of_Z zs) = true.
Proof.
  intros Hz. induction Hz as [|z zs Hz1 Hz2 IH]; cbn [fold_right map forallb]; intro H.
  - reflexivity.
  - assert (P : (0 <= fold_right Z.add 0%Z zs)%Z).
    { clear - Hz2. induction Hz2; cbn [fold_right]; lia. }
    rewrite number_of_Z_is_number by lia. apply IH. lia.
Qed.

(** C1.  For every invoice, [computeTotals] returns as [total] the cached
    [total_amount] when that is a finite number strictly above 0, and the
    sum of the amounts of the items otherwise: the amounts added one after
    the other from 0, an amount that is [NaN] counting as 0.  So it is the
    sum of the amounts as they are when none of them is [NaN], and for
    amounts that are whole numbers, none below 0, with a sum below 2^53, it
    is the sum of these integers.  [paid] is the sum of the amounts of the
    payments in the same way.  [balance] is [Math.max(0, total - paid)],
    that is [NaN] when the difference is, the difference when it is positive
    and 0 otherwise.  So it is never below 0, and it is 0 when [paid]
    exceeds [total]. *)
Theorem computeTotals_total_and_balance (invoice : Invoice) :
  let t := computeTotals invoice in
  let amounts := map item_amount (items invoice ?? []) in
  let received := map payment_amount (payments invoice ?? []) in
  let cached :=
    Number_isFinite (total_amount invoice) && gt (total_amount invoice) 0%float in
  total t =
    (if cached then total_amount invoice else sum_of (map zero_if_nan amounts))
  /\ (forallb (fun a => negb (is_nan a)) amounts = true ->
      total t = if cached then total_amount invoice else sum_of amounts)
  /\ (forall zs,
        amounts = map number_of_Z zs ->
        Forall (fun z => (0 <= z)%Z) zs -> (fold_right Z.add 0%Z zs < 2 ^ 53)%Z ->
        total t =
          if cached then total_amount invoice
          else number_of_Z (fold_right Z.add 0%Z zs))
  /\ paid t = sum_of (map zero_if_nan received)
  /\ balance t = Math_max [0%float; (total t - paid t)%float]
  /\ balance t =
       (if is_nan (total t - paid t) then nan
        else if (0 <? total t - paid t)%float then (total t - paid t)%float
        else 0%float)
  /\ lt (balance t) 0%float = false
  /\ (lt (total t) (paid t) = true -> balance t = 0%float).
Proof.
  cbv zeta.
  assert (T : total (computeTotals invoice) =
              if Number_isFinite (total_amount invoice) && gt (total_amount invoice) 0%float
              then total_amount invoice
              else sum_of (map zero_if_nan (map item_amount (items invoice ?? [])))).
  { unfold computeTotals; cbn [total]. rewrite sumAmounts_as_worded. reflexivity. }
  split; [exact T|]. split; [|split; [|split; [|split; [|split; [|split]]]]].
  - intro H. rewrite T, (zero_if_nan_of_numbers _ H). reflexivity.
  - intros zs E Hz Hs. rewrite T, E.
    rewrite (zero_if_nan_of_numbers _ (whole_is_number zs Hz Hs)).
    unfold sum_of. change 0%float with (number_of_Z 0).
    rewrite sum_from_whole by (try assumption; lia). reflexivity.
  - unfold computeTotals; cbn [paid]. apply sumAmounts_as_worded.
  - reflexivity.
  - unfold computeTotals; cbn [balance total paid]. apply Math_max_zero.
  - unfold computeTotals; cbn [balance total paid].
    apply Math_max_zero_not_negative.
  - unfold computeTotals; cbn [balance total paid].
    apply Math_max_zero_of_less.
Qed.

End SumsAsWorded.

(* ================================================================== *)
(** * The further properties on the concrete platform *)

Module Instances.

Import Fixture Scenario Journey Pdf Preview.

Lemma save_then_load_witness :
  @reads_back desk stale_store
  /\ (@save desk stale_store ;;; @load desk) fresh
     = (Normal stale_store, @saved desk stale_store fresh).
Proof.
  assert (R : @reads_back desk stale_store) by (split; reflexivity).
  split; [exact R|].
  exact (proj1 (@save_then_load desk stale_store fresh R)).
Defined.

Lemma nextInvoiceNumber_fresh_witness :
  safe_numbers (@Date_getFullYear desk june15) after_gap = true
  /\ existsb (String.eqb (@nextInvoiceNumber desk june15 after_gap))
       (map invoice_number after_gap) = false.
Proof.
  split; [reflexivity|].
  apply (@nextInvoiceNumber_fresh desk june15 after_gap). reflexivity.
Defined.

Lemma createInvoice_keeps_numbers_distinct_witness :
  safe_numbers (@Date_getFullYear desk (clock office))
    (invoices (@stored desk office)) = true
  /\ NoDup (map invoice_number (invoices (@stored desk office)))
  /\ exists inv w',
       @createInvoice desk (freight "2025-07-01") office = (Normal inv, w')
       /\ lookup STORAGE_KEY (localStorage w')
          = Some (@JSON_stringify desk
                    {| invoices := invoices (@stored desk office) ++ [inv] |})
       /\ NoDup (map invoice_number (invoices (@stored desk office) ++ [inv])).
Proof.
  assert (D : NoDup (map invoice_number (invoices (@stored desk office)))).
  { change (NoDup ["INV-2025-0001"]). constructor; [intros [] | constructor]. }
  split; [reflexivity|]. split; [exact D|].
  apply (@createInvoice_keeps_numbers_distinct desk (freight "2025-07-01") office);
    [reflexivity | exact D].
Defined.

Lemma parseInt_reads_padded_witness :
  (0 <= 7)%Z
  /\ parseInt (padStart0 4 (decimal 7)) = number_of_Z 7.
Proof.
  split; [lia|].
  exact (proj1 (@parseInt_reads_padded desk 7 4 ltac:(lia))).
Defined.

Lemma addInvoiceItem_appends_witness :
  invoices (@stored desk office) = [] ++ stale :: []
  /\ has_id "a" [] = false
  /\ id stale = "a"
  /\ exists inv' w',
       @addInvoiceItem desk "a" "Toll" 50 office = (Normal inv', w')
       /\ items inv'
          = Some ((items stale ?? [])
                  ++ [{| item_id := fst (@uuid_draw desk (random office));
                         item_invoice_id := "a"; item_description := "Toll";
                         item_amount := 50 |}])
       /\ itemsTotal (computeTotals inv')
          = (itemsTotal (computeTotals stale) + (Number 50 || 0))%float.
Proof.
  split; [reflexivity|]. split; [reflexivity|]. split; [reflexivity|].
  destruct (@addInvoiceItem_appends desk office "a" "Toll" 50 [] [] stale
              eq_refl eq_refl eq_refl) as (inv' & w' & E & I & T & _).
  exists inv', w'. split; [exact E|]. split; [exact I | exact T].
Defined.

Lemma recordPayment_appends_witness :
  invoices (@stored desk office) = [] ++ stale :: []
  /\ has_id "a" [] = false
  /\ id stale = "a"
  /\ @Date_parse desk (pay_date toll) = Some 1749513600000%Z
  /\ exists inv' w',
       @recordPayment desk "a" toll office = (Normal inv', w')
       /\ paid (computeTotals inv')
          = (paid (computeTotals stale) + (Number (pay_amount toll) || 0))%float
       /\ total_amount inv' = total (computeTotals stale).
Proof.
  split; [reflexivity|]. split; [reflexivity|]. split; [reflexivity|].
  split; [reflexivity|].
  destruct (@recordPayment_appends desk office "a" toll 1749513600000 [] [] stale
              eq_refl eq_refl eq_refl eq_refl) as (inv' & w' & E & _ & P & _ & T & _).
  exists inv', w'. split; [exact E|]. split; [exact P | exact T].
Defined.

Lemma recordPayment_invalid_date_witness :
  has_id "a" (invoices (@stored desk office)) = true
  /\ @Date_parse desk (pay_date undated) = None
  /\ exists w',
       @recordPayment desk "a" undated office
       = (Throw (RangeError "Invalid time value"), w')
       /\ localStorage w' = localStorage office
       /\ clock w' = clock office.
Proof.
  split; [reflexivity|]. split; [reflexivity|].
  apply (@recordPayment_invalid_date desk office "a" undated); reflexivity.
Defined.

Lemma createInvoice_then_getInvoice_witness :
  let after := snd (@createInvoice desk (freight "2025-07-01") fresh) in
  @createInvoice desk (freight "2025-07-01") fresh = (Normal created, after)
  /\ @reads_back desk {| invoices := invoices (@stored desk fresh) ++ [created] |}
  /\ has_id (id created) (invoices (@stored desk fresh)) = false
  /\ @getInvoice desk (id created) after
     = (Normal (Some (set_status created (@deriveStatus desk (clock fresh) created))),
        after).
Proof.
  cbv zeta.
  assert (E : @createInvoice desk (freight "2025-07-01") fresh
              = (Normal created,
                 snd (@createInvoice desk (freight "2025-07-01") fresh)))
    by reflexivity.
  assert (R : @reads_back desk
                {| invoices := invoices (@stored desk fresh) ++ [created] |})
    by (split; reflexivity).
  split; [exact E|]. split; [exact R|]. split; [reflexivity|].
  exact (proj1 (@createInvoice_then_getInvoice desk (freight "2025-07-01") fresh _
                  created E R eq_refl)).
Defined.

Lemma deleteInvoice_then_getInvoice_witness :
  let after := snd (@deleteInvoice desk "a" office) in
  @reads_back desk
    {| invoices := filter (fun i => negb (String.eqb (id i) "a"))
                     (invoices (@stored desk office)) |}
  /\ @getInvoice desk "a" after = (Normal None, after)
  /\ @deleteInvoice desk "a" after = (Normal tt, after).
Proof.
  cbv zeta.
  assert (R : @reads_back desk
                {| invoices := filter (fun i => negb (String.eqb (id i) "a"))
                                 (invoices (@stored desk office)) |})
    by (split; reflexivity).
  split; [exact R|].
  destruct (@deleteInvoice_then_getInvoice desk office "a" R) as (G & _ & D).
  split; [exact G | exact D].
Defined.

Lemma mutations_touch_one_key_witness :
  String.eqb "lang" STORAGE_KEY = false
  /\ lookup "lang" (localStorage shared) = Some "en"
  /\ lookup "lang"
       (localStorage (snd (@createInvoice desk (freight "2025-07-01") shared)))
     = Some "en"
  /\ lookup "lang" (localStorage (snd (@addInvoiceItem desk "a" "Toll" 40 shared)))
     = Some "en"
  /\ lookup "lang" (localStorage (snd (@recordPayment desk "a" toll shared)))
     = Some "en"
  /\ lookup "lang" (localStorage (snd (@deleteInvoice desk "a" shared)))
     = Some "en"
  /\ lookup "theme" (localStorage (snd (@deleteInvoice desk "a" shared)))
     = Some "dark"
  /\ lookup STORAGE_KEY (localStorage (snd (@deleteInvoice desk "a" shared)))
     = Some (stringify empty_store)
  /\ lookup STORAGE_KEY (localStorage shared) = Some (stringify stale_store).
Proof.
  split; [reflexivity|].
  destruct (@mutations_touch_one_key desk shared "lang" eq_refl)
    as (C & A & R & D & _).
  destruct (@mutations_touch_one_key desk shared "theme" eq_refl)
    as (_ & _ & _ & D' & _).
  split; [reflexivity|].
  split; [rewrite C; reflexivity|].
  split; [rewrite A; reflexivity|].
  split; [rewrite R; reflexivity|].
  split; [rewrite D; reflexivity|].
  split; [rewrite D'; reflexivity|].
  split; vm_compute; reflexivity.
Defined.

Lemma status_as_days_pass_witness :
  (@Date_startOfDay desk june15 <= @Date_startOfDay desk june16)%Z
  /\ @deriveStatus desk june15 stale = Overdue
  /\ @deriveStatus desk june16 stale = Overdue.
Proof.
  assert (H : (@Date_startOfDay desk june15 <= @Date_startOfDay desk june16)%Z)
    by (vm_compute; discriminate).
  split; [exact H|]. split; [reflexivity|].
  exact (proj1 (proj2 (@status_as_days_pass desk june15 june16 stale H)) eq_refl).
Defined.

Lemma exportElementToPDF_one_page_witness :
  gt (500 * 1000 / 1000 - 1000) 0 = false
  /\ exportElementToPDF 0 (capture 500) square
     = Some [page_of 1000 (500 * 1000 / 1000) 0].
Proof.
  split; [reflexivity|].
  apply (ExportFacts.exportElementToPDF_one_page 0 (capture 500) square).
  reflexivity.
Defined.

Lemma exportElementToPDF_second_page_witness :
  Number_isFinite (pageHeight square) = true
  /\ match exportElementToPDF 2 (capture 3000) square with
     | Some (first :: second :: _) =>
         first = page_of 1000 (3000 * 1000 / 1000) 0
         /\ second = page_of 1000 (3000 * 1000 / 1000) (-0)
     | _ => True
     end.
Proof.
  split; [reflexivity|].
  apply (ExportFacts.exportElementToPDF_second_page 2 (capture 3000) square).
  reflexivity.
Defined.

Lemma uuid_format_witness :
  (forall g, in_unit_range (fst (halves g)) = true)
  /\ fst (Uuid.uuid halves 0) = "88888888-8888-4888-8888-888888888888"
  /\ String.length (fst (Uuid.uuid halves 0)) = 36%nat
  /\ (forall i c, String.get i (fst (Uuid.uuid halves 0)) = Some c ->
        if ((i =? 8) || (i =? 13) || (i =? 18) || (i =? 23))%nat
        then c = "-"%char
        else lowerHex c = true).
Proof.
  split; [intro g; reflexivity|].
  split; [vm_compute; reflexivity|].
  pose proof (UuidFacts.uuid_format halves 0 (fun _ => eq_refl)) as F.
  cbv zeta in F.
  split; [exact (proj1 F)|].
  exact (proj2 (proj2 (proj2 (proj2 (proj2 (proj2 (proj2 (proj2 F)))))))).
Defined.

Lemma exportElementToPDF_whole_heights_witness :
  (3000 * 1000 / 1000)%float = number_of_Z 3000
  /\ pageHeight square = number_of_Z 1000
  /\ (rounds (3000 - 1000) 1000 <= 2)%nat
  /\ exportElementToPDF 2 (capture 3000) square
     = Some (page_of 1000 (3000 * 1000 / 1000) 0
             :: map (fun k => page_of 1000 (3000 * 1000 / 1000)
                                (- number_of_Z (Z.of_nat k * 1000)))
                  (seq 0 (rounds (3000 - 1000) 1000))).
Proof.
  assert (R : (rounds (3000 - 1000) 1000 <= 2)%nat) by (vm_compute; lia).
  split; [reflexivity|]. split; [reflexivity|]. split; [exact R|].
  apply (WholePages.exportElementToPDF_whole_heights 2 (capture 3000) square
           3000 1000); [reflexivity | reflexivity | lia | lia | exact R].
Defined.

Lemma handleExportPdf_whole_heights_witness :
  (3000 * (1000 / 1000))%float = number_of_Z 3000
  /\ pageHeight square = number_of_Z 1000
  /\ (rounds (3000 - 1000) 1000 <= 2)%nat
  /\ handleExportPdf 2 (capture 3000) square
     = Some (page_of 1000 (3000 * (1000 / 1000)) 0
             :: map (fun k => page_of 1000 (3000 * (1000 / 1000))
                                (number_of_Z (- (Z.of_nat k * 1000))))
                  (seq 1 (rounds (3000 - 1000) 1000))).
Proof.
  assert (R : (rounds (3000 - 1000) 1000 <= 2)%nat) by (vm_compute; lia).
  split; [reflexivity|]. split; [reflexivity|]. split; [exact R|].
  apply (WholePages.handleExportPdf_whole_heights 2 (capture 3000) square
           3000 1000); [reflexivity | reflexivity | lia | lia | exact R].
Defined.

Lemma handleDelete_in_step_witness :
  @reads_back desk
    {| invoices := filter (fun i => negb (String.eqb (id i) "a"))
                     (invoices (@stored desk office)) |}
  /\ exists shown shown' w',
       @listInvoices desk (only Unpaid) office = (Normal shown, office)
       /\ @handleDelete desk true "a" shown office = (Normal shown', w')
       /\ @listInvoices desk (only Unpaid) w' = (Normal shown', w').
Proof.
  assert (R : @reads_back desk
                {| invoices := filter (fun i => negb (String.eqb (id i) "a"))
                                 (invoices (@stored desk office)) |})
    by (split; reflexivity).
  split; [exact R|].
  destruct (@handleDelete_in_step desk office (only Unpaid) "a" R)
    as (shown & shown' & w' & L & D & L' & _).
  exists shown, shown', w'. split; [exact L|]. split; [exact D | exact L'].
Defined.

Lemma paying_the_balance_settles_witness :
  invoices (@stored desk office) = [] ++ stale :: []
  /\ has_id (id stale) [] = false
  /\ @Date_parse desk "2025-06-10" = Some 1749513600000%Z
  /\ total (computeTotals stale) = number_of_Z 100
  /\ paid (computeTotals stale) = number_of_Z 0
  /\ RecordPaymentModal_offered stale = number_of_Z (100 - 0)
  /\ exists inv' w',
       @RecordPaymentModal_save desk stale (RecordPaymentModal_offered stale)
         "2025-06-10" "UPI" office
       = (Normal inv', w')
       /\ status inv' = Some Paid
       /\ balance (computeTotals inv') = 0%float.
Proof.
  split; [reflexivity|]. split; [reflexivity|]. split; [reflexivity|].
  split; [reflexivity|]. split; [reflexivity|].
  destruct (@paying_the_balance_settles desk office stale "2025-06-10" "UPI"
              1749513600000 100 0 [] [] stale
              eq_refl eq_refl eq_refl eq_refl eq_refl eq_refl eq_refl
              ltac:(lia) ltac:(lia))
    as (O & inv' & w' & E & S & _ & _ & B).
  split; [exact O|]. exists inv', w'. split; [exact E|]. split; [exact S | exact B].
Defined.

(** Amounts with a fraction need not add up: of 0.21, with 0.05 paid, the
    form offers 0.15999999999999998, and after that payment the amount paid
    is still below the total. *)
Example paying_the_balance_of_a_fraction :
  let total0 := 0x1.ae147ae147ae1p-3%float in
  let paid0 := 0x1.999999999999ap-5%float in
  let inv := sample_invoice total0 "2025-06-15" [total0] [paid0] in
  let offered := RecordPaymentModal_offered inv in
  let after := sample_invoice total0 "2025-06-15" [total0] [paid0; offered] in
  offered = 0x1.47ae147ae147ap-3%float
  /\ paid (computeTotals after) = 0x1.ae147ae147ae0p-3%float
  /\ lt (paid (computeTotals after)) (total (computeTotals after)) = true
  /\ @deriveStatus desk june15 after = Unpaid.
Proof. cbv zeta. repeat split. Qed.

(** The two exports of the image 3000 high on pages 1000 high. *)
Example two_exports :
  option_map (map (map at_y)) (exportElementToPDF 2 (capture 3000) square)
  = Some [[0%float]; [(-0)%float]; [(-1000)%float]]
  /\ option_map (map (map at_y)) (handleExportPdf 2 (capture 3000) square)
     = Some [[0%float]; [(-1000)%float]; [(-2000)%float]].
Proof. split; reflexivity. Qed.

End Instances.
